(** * Triangle-splatting container loader: parser and semantic resolver

    A shallow embedding of [formats/containerParser.ts], [formats/detectFormat.ts],
    [formatLoader.ts], [utils/tensorUtils.ts] and the semantic resolver, with the
    properties of the design document stated and proved over it; then of the
    legacy loader [tgspLoader.ts], of the geometry that the two renderers
    build and of the viewer's choice between them, with further properties
    read off the code.

    JavaScript numbers are IEEE-754 binary64 values; they are modelled by the
    axiom-free [spec_float] of the standard library, with round-to-nearest-even
    arithmetic.  Integers that the code keeps in numbers (lengths, offsets,
    dimensions) are modelled by [Z]. *)

From Stdlib Require Import ZArith QArith Qpower Qabs Lia SpecFloat.
From stdpp Require Import base option list strings pretty gmap.

Set Warnings "-register-all".

Local Open Scope Z_scope.

(** ** JavaScript numbers *)

Module Num.

Definition number := spec_float.

Definition prec64 : Z := 53.
Definition emax64 : Z := 1024.
Definition prec32 : Z := 24.
Definition emax32 : Z := 128.

Definition add : number -> number -> number := SFadd prec64 emax64.
Definition mul : number -> number -> number := SFmul prec64 emax64.
Definition div : number -> number -> number := SFdiv prec64 emax64.
Definition neg : number -> number := SFopp.
Definition lt : number -> number -> bool := SFltb.
Definition le : number -> number -> bool := SFleb.

(** An integer as a number (exact below 2^53). *)
Definition ofZ (z : Z) : number := binary_normalize prec64 emax64 z 0 false.

(** [Math.pow(2, k)] for an integer [k]: the power of two itself. *)
Definition pow2 (k : Z) : number := binary_normalize prec64 emax64 1 k false.

(** [Number.isFinite]. *)
Definition isFinite (x : number) : bool :=
  match x with
  | S754_zero _ | S754_finite _ _ _ => true
  | S754_infinity _ | S754_nan => false
  end.

Definition isNaN (x : number) : bool :=
  match x with S754_nan => true | _ => false end.

(** [Math.min] and [Math.max] of two arguments: a NaN argument gives NaN,
    and -0 is below +0. *)
Definition Math_min (a b : number) : number :=
  match a, b with
  | S754_nan, _ | _, S754_nan => S754_nan
  | _, _ =>
      if lt a b then a
      else if lt b a then b
      else match a with S754_zero true => a | _ => b end
  end.

Definition Math_max (a b : number) : number :=
  match a, b with
  | S754_nan, _ | _, S754_nan => S754_nan
  | _, _ =>
      if lt a b then b
      else if lt b a then a
      else match a with S754_zero false => a | _ => b end
  end.

(** Rounding to binary32 and back: what a store into a [Float32Array]
    followed by a load yields ([Math.fround]). *)
Definition round32 (x : number) : spec_float :=
  match x with
  | S754_finite s m e => binary_round prec32 emax32 s m e
  | _ => x
  end.

Definition of32 (x : spec_float) : number :=
  match x with
  | S754_finite s m e => binary_round prec64 emax64 s m e
  | _ => x
  end.

Definition fround (x : number) : number := of32 (round32 x).

(** The rational value of a finite number (0 for the others). *)
Definition toQ (x : number) : Q :=
  match x with
  | S754_finite s m e =>
      ((if s then -1 else 1) * inject_Z (Zpos m) * Qpower 2 e)%Q
  | _ => 0%Q
  end.

Definition pos_zero : number := S754_zero false.
Definition neg_zero : number := S754_zero true.
Definition one : number := ofZ 1.

End Num.

Import Num.

(** ** Half-precision decoder ([containerParser.ts], [float16ToFloat32]) *)

Definition sign_field (fp16 : Z) : Z := Z.shiftr (Z.land fp16 0x8000) 15.
Definition exponent_field (fp16 : Z) : Z := Z.shiftr (Z.land fp16 0x7c00) 10.
Definition fraction_field (fp16 : Z) : Z := Z.land fp16 0x03ff.

(** [(sign ? -1 : 1)] *)
Definition sign_factor (sign : Z) : number :=
  if Z.eqb sign 0 then ofZ 1 else ofZ (-1).

Definition float16ToFloat32 (fp16 : Z) : number :=
  let sign := sign_field fp16 in
  let exponent := exponent_field fp16 in
  let fraction := fraction_field fp16 in
  if Z.eqb exponent 0 then
    if Z.eqb fraction 0 then ofZ 0
    else mul (mul (sign_factor sign) (pow2 (-14))) (div (ofZ fraction) (pow2 10))
  else if Z.eqb exponent 31 then
    (if Z.eqb sign 0 then ofZ 65504 else ofZ (-65504))
  else
    mul (mul (sign_factor sign) (pow2 (exponent - 15)))
        (add (ofZ 1) (div (ofZ fraction) (pow2 10))).

(** ** Bytes and [DataView] reads *)

Definition ArrayBuffer := list Byte.byte.

Definition byte_val (b : Byte.byte) : Z := Z.of_N (Byte.to_N b).

Definition byteLength (buffer : ArrayBuffer) : Z := Z.of_nat (length buffer).

(** Little-endian value of a run of bytes. *)
Fixpoint le_combine (bs : list Byte.byte) : Z :=
  match bs with
  | [] => 0
  | b :: rest => byte_val b + 256 * le_combine rest
  end.

(** The [n] bytes at [offset], when they lie inside the buffer. *)
Definition bytes_at (buffer : ArrayBuffer) (offset n : Z) : option (list Byte.byte) :=
  if (0 <=? offset) && (0 <=? n) && (offset + n <=? byteLength buffer)
  then Some (take (Z.to_nat n) (drop (Z.to_nat offset) buffer))
  else None.

(** [view.getUint32(offset, true)]; [None] is the [RangeError] of an
    out-of-bounds read. *)
Definition getUint32 (buffer : ArrayBuffer) (offset : Z) : option Z :=
  le_combine <$> bytes_at buffer offset 4.

(** [view.getBigUint64(offset, true)] *)
Definition getBigUint64 (buffer : ArrayBuffer) (offset : Z) : option Z :=
  le_combine <$> bytes_at buffer offset 8.

(** The integer a number holds: [Some z] exactly when [Number.isInteger]. *)
Definition integerValue (x : number) : option Z :=
  match x with
  | S754_zero _ => Some 0
  | S754_finite s m e =>
      let mag :=
        if 0 <=? e then Some (Z.pos m * 2 ^ e)
        else if Z.pos m mod 2 ^ (- e) =? 0 then Some (Z.pos m / 2 ^ (- e))
        else None in
      (fun v => if s then - v else v) <$> mag
  | _ => None
  end.

(** [Number(b)] for a BigInt [b]: the nearest double, read back as an
    integer (the identity below 2^53). *)
Definition Number_ofBigInt (b : Z) : Z := default 0 (integerValue (ofZ b)).

(** ** Typed arrays, the store of array objects, and tensor records *)

Inductive IntKind :=
  Int8 | Uint8 | Uint8Clamped | Int16 | Uint16 | Int32 | Uint32.

Inductive BigKind := BigInt64 | BigUint64.

(** [TensorData] of [types.ts].  A [Float32Array] holds numbers that are
    binary32 values; integer arrays hold integers of their width. *)
Inductive TensorData :=
  | Float32Array (values : list number)
  | Float64Array (values : list number)
  | IntArray (kind : IntKind) (values : list Z)
  | BigIntArray (kind : BigKind) (values : list Z).

(** Array objects live in a store and are named by their location: two
    references to the same location are the same JavaScript object. *)
Abbreviation loc := nat.
Abbreviation Heap := (list TensorData).

Definition alloc (h : Heap) (d : TensorData) : loc * Heap :=
  (length h, h ++ [d]).

Inductive TensorDType := f16 | f32 | u8 | i32 | i64 | unknown.

(** [TensorRecord] of [types.ts].  [data] refers to the array object; the
    dimensions of [shape] are integers, which is what the parser stores (it
    rejects any other dimension of a non-empty shape). *)
Record TensorRecord := mkTensorRecord {
  data : loc;
  shape : list Z;
  dtype : TensorDType;
}.

(** ** JSON values of the metadata header *)

Inductive json :=
  | JNull
  | JBool (b : bool)
  | JNum (n : number)
  | JStr (s : string)
  | JArr (items : list json)
  | JObj (fields : list (string * json)).

(** The members of an object are kept as a list; a key occurs once, as
    after [JSON.parse]. *)
Fixpoint assoc {A} (k : string) (l : list (string * A)) : option A :=
  match l with
  | [] => None
  | (k', v) :: rest => if String.eqb k k' then Some v else assoc k rest
  end.

(** [j.k] / [j?.k]: the own property [k] of an object, [undefined] (here
    [None]) on anything else.  A JSON [null] member reads as [Some JNull]. *)
Definition prop (j : json) (k : string) : option json :=
  match j with
  | JObj fields => assoc k fields
  | _ => None
  end.

(** [a ?? b] on an optional JSON value: [undefined] and [null] are nullish. *)
Definition nullish {A} (o : option json) (some : json -> A) (none : A) : A :=
  match o with
  | None | Some JNull => none
  | Some j => some j
  end.

(** Truthiness of a JSON value ([!header] is its negation). *)
Definition truthy (j : json) : bool :=
  match j with
  | JNull => false
  | JBool b => b
  | JNum n => negb (isNaN n) && negb (match n with S754_zero _ => true | _ => false end)
  | JStr s => negb (String.eqb s EmptyString)
  | JArr _ | JObj _ => true
  end.

Inductive Format := FmtTGSP | FmtTSGD.

Record Metadata := mkMetadata {
  meta_format : Format;
  meta_version : Z;
  tensorCount : Z;
  names : list string;
  dataSectionStart : Z;
}.

Record ParsedModel := mkParsedModel {
  format : Format;
  version : Z;
  header : json;
  tensors : gmap string TensorRecord;
  metadata : Metadata;
}.

(** ** Errors of the loader *)

Inductive HeaderProblem :=
  | BadJSON (message : string)
  | MissingTensorsArray.

Inductive ParseError :=
  | DetectBufferTooSmall
  | UnsupportedFormat (magic : string)
  | BufferTooSmall (got : Z)
  | BadMagic (expected magic : string)
  | InvalidTOCLength (tocLen : Z)
  | HeaderTOCOverflow (start len : Z)
  | InvalidHeader (why : HeaderProblem)
  | HeaderTensorCountMismatch (ndefs ntoc : Z)
  | UnknownDType (code : Z) (index : Z)
  | InvalidTensorBounds (name : string) (relOffset nbytes : Z)
  | InvalidShapeDimension (dim : number)
  | SizeMismatch (name : string) (expectedNbytes nbytes : Z)
  | RangeError.

(** A computation that may throw and that allocates or updates array
    objects: the store is threaded through and survives a throw. *)
Definition M (E A : Type) : Type := Heap -> (E + A) * Heap.

Definition ret {E A} (a : A) : M E A := fun h => (inr a, h).
Definition throw {E A} (e : E) : M E A := fun h => (inl e, h).
Definition bind {E A B} (c : M E A) (k : A -> M E B) : M E B :=
  fun h => match c h with
           | (inl e, h') => (inl e, h')
           | (inr a, h') => k a h'
           end.
Definition new_array {E} (d : TensorData) : M E loc :=
  fun h => let (l, h') := alloc h d in (inr l, h').

Notation "'let*' x ':=' c 'in' k" := (bind c (fun x => k))
  (at level 10, x pattern, c at level 100, k at level 200).

(** ** Host functions

    The library functions of the JavaScript host that the loader calls and
    that are not arithmetic: the UTF-8 decoder followed by [JSON.parse]
    ([inl] carries the message of the error thrown), the conversions between
    numbers and strings, and [Math.exp]; and the largest length of a typed
    array that the engine allocates. *)
Class Host := {
  JSON_parse : list Byte.byte -> string + json;
  Number_toString : number -> string;
  StringToNumber : string -> number;
  Math_exp : number -> number;
  maxArrayLength : Z;
}.

Section Loader.
Context `{Host}.

(** [String(v)] on a JSON value. *)
Fixpoint js_String (j : json) : string :=
  match j with
  | JNull => "null"
  | JBool b => if b then "true" else "false"
  | JNum n => Number_toString n
  | JStr s => s
  | JArr items =>
      String.concat ","
        (map (fun x => match x with JNull => EmptyString | _ => js_String x end) items)
  | JObj _ => "[object Object]"
  end.

(** [Number(v)] on a JSON value. *)
Definition js_Number (j : json) : number :=
  match j with
  | JNull => ofZ 0
  | JBool b => if b then ofZ 1 else ofZ 0
  | JNum n => n
  | JStr s => StringToNumber s
  | JArr _ => StringToNumber (js_String j)
  | JObj _ => S754_nan
  end.

(** ** Container parser ([formats/containerParser.ts]) *)

Definition FILE_HEADER_SIZE : Z := 32.
Definition TOC_ENTRY_SIZE : Z := 32.

Definition DTYPE_CODE_TO_NAME (code : Z) : option TensorDType :=
  if code =? 1 then Some f16
  else if code =? 2 then Some f32
  else if code =? 3 then Some u8
  else if code =? 4 then Some i32
  else if code =? 5 then Some i64
  else None.

(** [DTYPE_BYTES] has no entry for ['unknown'], which no parsed entry has. *)
Definition DTYPE_BYTES (d : TensorDType) : Z :=
  match d with
  | f16 => 2 | f32 => 4 | u8 => 1 | i32 => 4 | i64 => 8 | unknown => 0
  end.

(** [String.fromCharCode] of the first four bytes. *)
Definition getMagic (buffer : ArrayBuffer) : string :=
  String.string_of_list_byte (take 4 buffer).

(** The running product of [product]: each dimension must be a
    non-negative integer.  The product is kept in [Z]: it is the double the
    code computes wherever that double is exact (below 2^53).  From 2^53 on
    the code's product is rounded, or Infinity, and stays at least 2^53; so
    the comparisons of the size check with a byte length, which is below
    2^53, come out the same, while the size that the error reports may
    differ.  A zero dimension gives 0 here, and 0 or NaN in the code: neither
    is positive. *)
Fixpoint product_from (acc : Z) (shape : list number) : ParseError + Z :=
  match shape with
  | [] => inr acc
  | dim :: rest =>
      match integerValue dim with
      | Some n =>
          if n <? 0 then inl (InvalidShapeDimension dim)
          else product_from (acc * n) rest
      | None => inl (InvalidShapeDimension dim)
      end
  end.

Definition product (shape : list number) : ParseError + Z :=
  match shape with
  | [] => inr 0
  | _ => product_from 1 shape
  end.

(** A binary32 bit pattern as a number. *)
Definition float32_of_bits (w : Z) : number :=
  let s := Z.testbit w 31 in
  let e := Z.land (Z.shiftr w 23) 0xff in
  let m := Z.land w 0x7fffff in
  if e =? 0 then
    if m =? 0 then S754_zero s else of32 (S754_finite s (Z.to_pos m) (-149))
  else if e =? 255 then
    if m =? 0 then S754_infinity s else S754_nan
  else of32 (S754_finite s (Z.to_pos (m + 2 ^ 23)) (e - 150)).

(** The two's complement reading of a [bits]-wide word. *)
Definition toSigned (bits : Z) (z : Z) : Z :=
  if z <? 2 ^ (bits - 1) then z else z - 2 ^ bits.

(** The elements of a typed array of [w]-byte words laid over [packed]. *)
Fixpoint words_le (w : nat) (n : nat) (packed : list Byte.byte) : list Z :=
  match n with
  | O => []
  | S n' => le_combine (take w packed) :: words_le w n' (drop w packed)
  end.

(** [new XArray(packed)]: a [RangeError] unless the byte length is a
    multiple of the element size. *)
Definition typed_view (w : nat) (packed : list Byte.byte) : ParseError + list Z :=
  if (length packed mod w =? 0)%nat
  then inr (words_le w (length packed / w) packed)
  else inl RangeError.

Definition map_ok {E A B} (f : A -> B) (r : E + A) : E + B :=
  match r with
  | inl e => inl e
  | inr a => inr (f a)
  end.

Definition readTypedTensor (buffer : ArrayBuffer) (absoluteOffset nbytes : Z)
    (dtype : TensorDType) : ParseError + TensorData :=
  match bytes_at buffer absoluteOffset nbytes with
  | None => inl RangeError
  | Some packed =>
      match dtype with
      | f32 =>
          map_ok (fun ws => Float32Array (map float32_of_bits ws)) (typed_view 4 packed)
      | f16 =>
          map_ok (fun src => Float32Array (map (fun w => fround (float16ToFloat32 w)) src))
            (typed_view 2 packed)
      | u8 => inr (IntArray Uint8 (map byte_val packed))
      | i32 =>
          map_ok (fun ws => IntArray Int32 (map (toSigned 32) ws)) (typed_view 4 packed)
      | i64 =>
          map_ok (fun ws => BigIntArray BigInt64 (map (toSigned 64) ws)) (typed_view 8 packed)
      | unknown => inl RangeError
      end
  end.

(** The three fields of a TOC entry that the parser keeps, after the
    8-byte name hash that it reads and drops. *)
Definition readTocEntry (buffer : ArrayBuffer) (offset : Z) : option (Z * Z * Z) :=
  match getBigUint64 buffer offset,
        getBigUint64 buffer (offset + 8),
        getBigUint64 buffer (offset + 16),
        getUint32 buffer (offset + 24) with
  | Some _, Some rel, Some nb, Some code =>
      Some (Number_ofBigInt rel, Number_ofBigInt nb, code)
  | _, _, _, _ => None
  end.

(** A pure result, as a computation. *)
Definition of_result {E A} (r : E + A) : M E A :=
  fun h => (r, h).

(** Lines 179-181: the definition of entry [i] in the metadata header,
    its name and its shape. *)
Definition entryDef (defs : list json) (i : Z) : json :=
  nullish (defs !! Z.to_nat i) id (JObj []).

Definition entryName (defs : list json) (i : Z) : string :=
  js_String (nullish (prop (entryDef defs i) "name") id
               (JStr ("tensor_" +:+ pretty i))).

Definition entryShape (defs : list json) (i : Z) : list number :=
  match prop (entryDef defs i) "shape" with
  | Some (JArr items) => map js_Number items
  | _ => []
  end.

(** The body of the TOC loop after the reads of entry [i]. *)
Definition decodeEntry (buffer : ArrayBuffer) (defs : list json)
    (dataSectionStart i relOffset nbytes dtypeCode : Z)
    : M ParseError (string * TensorRecord) :=
  match DTYPE_CODE_TO_NAME dtypeCode with
  | None => throw (UnknownDType dtypeCode i)
  | Some dtype =>
      let name := entryName defs i in
      let shape := entryShape defs i in
      let absOffset := dataSectionStart + relOffset in
      if (relOffset <? 0) || (nbytes <? 0) || (absOffset + nbytes >? byteLength buffer)
      then throw (InvalidTensorBounds name relOffset nbytes)
      else
        let* elemCountFromShape := of_result (product shape) in
        let expectedNbytes := elemCountFromShape * DTYPE_BYTES dtype in
        if (elemCountFromShape >? 0) && negb (expectedNbytes =? nbytes)
        then throw (SizeMismatch name expectedNbytes nbytes)
        else
          let* d := of_result (readTypedTensor buffer absOffset nbytes dtype) in
          let* l := new_array d in
          ret (name,
               {| data := l;
                  shape := map (fun n => default 0 (integerValue n)) shape;
                  dtype := dtype |})
  end.

(** [Object.keys] order of string keys: first insertion.  (JavaScript lists
    keys that are canonical array indices first; names are not told apart
    here, and no property below depends on the order of [names].) *)
Definition add_key (name : string) (keys : list string) : list string :=
  if decide (name ∈ keys) then keys else keys ++ [name].

Fixpoint parseEntries (buffer : ArrayBuffer) (defs : list json)
    (dataSectionStart offset i : Z) (remaining : nat)
    (tensors : gmap string TensorRecord) (keys : list string)
    : M ParseError (gmap string TensorRecord * list string) :=
  match remaining with
  | O => ret (tensors, keys)
  | S remaining' =>
      match readTocEntry buffer offset with
      | None => throw RangeError
      | Some (relOffset, nbytes, dtypeCode) =>
          let* (name, record) :=
            decodeEntry buffer defs dataSectionStart i relOffset nbytes dtypeCode in
          parseEntries buffer defs dataSectionStart (offset + TOC_ENTRY_SIZE) (i + 1)
            remaining' (<[name := record]> tensors) (add_key name keys)
      end
  end.

(** Lines 204-216: the Parsed Model returned once the TOC entries are
    decoded; [decoded] is the tensor mapping with its keys in insertion
    order. *)
Definition parsedModelOf (expectedFormat : string) (version : Z) (header : json)
    (tensorCount dataSectionStart : Z)
    (decoded : gmap string TensorRecord * list string) : ParsedModel :=
  let fmt := if String.eqb expectedFormat "TGSP" then FmtTGSP else FmtTSGD in
  {| format := fmt;
     version := version;
     header := header;
     tensors := decoded.1;
     metadata :=
       {| meta_format := fmt;
          meta_version := version;
          tensorCount := tensorCount;
          names := decoded.2;
          dataSectionStart := dataSectionStart |} |}.

Definition parseContainer (buffer : ArrayBuffer) (expectedFormat : string)
    : M ParseError ParsedModel :=
  if byteLength buffer <? FILE_HEADER_SIZE
  then throw (BufferTooSmall (byteLength buffer))
  else
    let magic := getMagic buffer in
    if negb (String.eqb magic expectedFormat)
    then throw (BadMagic expectedFormat magic)
    else
      match getUint32 buffer 4, getUint32 buffer 8, getUint32 buffer 12 with
      | Some version, Some headerLen, Some tocLen =>
          if negb (tocLen mod TOC_ENTRY_SIZE =? 0)
          then throw (InvalidTOCLength tocLen)
          else
            let dataSectionStart := FILE_HEADER_SIZE + headerLen + tocLen in
            if dataSectionStart >? byteLength buffer
            then throw (HeaderTOCOverflow dataSectionStart (byteLength buffer))
            else
              match bytes_at buffer FILE_HEADER_SIZE headerLen with
              | None => throw RangeError
              | Some headerBytes =>
                  match JSON_parse headerBytes with
                  | inl message => throw (InvalidHeader (BadJSON message))
                  | inr header =>
                      match (if truthy header then prop header "tensors" else None) with
                      | Some (JArr defs) =>
                          let tensorCount := tocLen / TOC_ENTRY_SIZE in
                          if Z.of_nat (length defs) <? tensorCount
                          then throw (HeaderTensorCountMismatch
                                        (Z.of_nat (length defs)) tensorCount)
                          else
                            let* decoded :=
                              parseEntries buffer defs dataSectionStart
                                (FILE_HEADER_SIZE + headerLen) 0
                                (Z.to_nat tensorCount) ∅ [] in
                            ret (parsedModelOf expectedFormat version header
                                   tensorCount dataSectionStart decoded)
                      | _ => throw (InvalidHeader MissingTensorsArray)
                      end
                  end
              end
      | _, _, _ => throw RangeError
      end.

(** ** Format detection and dispatch ([detectFormat.ts], [formatLoader.ts]) *)

Inductive ParserKind := parser_tgsp | parser_tsgd.

Record DetectedFormat := mkDetected {
  det_format : Format;
  det_parser : ParserKind;
  det_magic : string;
}.

Definition detectFormat (buffer : ArrayBuffer) : ParseError + DetectedFormat :=
  if byteLength buffer <? 4 then inl DetectBufferTooSmall
  else
    let magic := getMagic buffer in
    if String.eqb magic "TGSP"
    then inr {| det_format := FmtTGSP; det_parser := parser_tgsp; det_magic := magic |}
    else if String.eqb magic "TSGD" || String.eqb magic "TGSD"
    then inr {| det_format := FmtTSGD; det_parser := parser_tsgd; det_magic := magic |}
    else inl (UnsupportedFormat magic).

Definition parseTGSP (buffer : ArrayBuffer) : M ParseError ParsedModel :=
  parseContainer buffer "TGSP".

Definition parseTSGD (buffer : ArrayBuffer) (magic : string) : M ParseError ParsedModel :=
  parseContainer buffer magic.

(** [FormatLoader.parse] *)
Definition FormatLoader_parse (buffer : ArrayBuffer) : M ParseError ParsedModel :=
  match detectFormat buffer with
  | inl e => throw e
  | inr detected =>
      match det_parser detected with
      | parser_tgsp => parseTGSP buffer
      | parser_tsgd => parseTSGD buffer (det_magic detected)
      end
  end.

End Loader.

(** ** Legacy loader ([tgspLoader.ts]) *)

Section LegacyLoader.
Context `{Host}.

(** [TGSPLoader.parse] *)
Definition TGSPLoader_parse (buffer : ArrayBuffer) : M ParseError ParsedModel :=
  parseContainer buffer "TGSP".

End LegacyLoader.

(** ** Tensor utilities ([utils/tensorUtils.ts]) *)

Inductive ColorMode := color_auto | color_linear | color_sh.
Inductive OpacityMode := opacity_auto | opacity_linear | opacity_logits.
Inductive SigmaMode := sigma_auto | sigma_linear | sigma_log.

Inductive ResolveError :=
  | MissingPositionTensor (tried : list string)
  | InvalidPositionShape (dims : list Z)
  | UnsupportedPositionShape (triangleCount verticesPerTriangle coordsPerVertex : Z)
  | CannotConvert
  | InvalidArrayLength.

(** The double nearest to 0.28209479177387814. *)
Definition SH_C0 : number := S754_finite false 5081767996463981 (-54).
(** 0.5, 0.01 and 1e-4 as doubles. *)
Definition c_half : number := pow2 (-1).
Definition c_0_01 : number := S754_finite false 5764607523034235 (-59).
Definition c_1e_4 : number := S754_finite false 7378697629483821 (-66).

(** The elements of a typed array as binary32 values
    ([Float32Array.from], and [Number] on each BigInt). *)
Definition float32_values (d : TensorData) : list number :=
  match d with
  | Float32Array vs => vs
  | Float64Array vs => map fround vs
  | IntArray _ vs => map (fun z => fround (ofZ z)) vs
  | BigIntArray _ vs => map (fun z => fround (ofZ z)) vs
  end.

(** [toFloat32Array]: a [Float32Array] is returned as it is, the same
    object; any other typed array is converted into a new one.  A location
    that holds no array stands for an input that is no typed array. *)
Definition toFloat32Array (input : loc) : M ResolveError loc :=
  fun h =>
    match h !! input with
    | Some (Float32Array _) => ret input h
    | Some d => new_array (Float32Array (float32_values d)) h
    | None => throw CannotConvert h
    end.

(** [values[k]] when [k] is inside the array and the entry is finite. *)
Definition finite_at (values : list number) (k : Z) : option number :=
  if (0 <=? k) && (k <? Z.of_nat (length values)) then
    match values !! Z.to_nat k with
    | Some v => if isFinite v then Some v else None
    | None => None
    end
  else None.

(** The inner loop of [sanitizeFiniteInPlace], from step [j], with [steps]
    iterations left; [replacement] starts at 0. *)
Fixpoint findReplacement (values : list number) (i j : Z) (steps : nat) : number :=
  match steps with
  | O => ofZ 0
  | S steps' =>
      match finite_at values (i - j) with
      | Some v => v
      | None =>
          match finite_at values (i + j) with
          | Some v => v
          | None => findReplacement values i (j + 1) steps'
          end
      end
  end.

(** One iteration of the outer loop on the array as it stands. *)
Definition sanitizeStep (st : list number * Z) (i : nat) : list number * Z :=
  let (values, replaced) := st in
  match values !! i with
  | Some v =>
      if isFinite v then st
      else (<[i := fround (findReplacement values (Z.of_nat i) 1 31)]> values,
            replaced + 1)
  | None => st
  end.

Definition sanitize_loop (values : list number) : list number * Z :=
  fold_left sanitizeStep (seq 0 (length values)) (values, 0).

(** [sanitizeFiniteInPlace]: the array at [values] is overwritten. *)
Definition sanitizeFiniteInPlace (values : loc) : M ResolveError Z :=
  fun h =>
    match h !! values with
    | Some (Float32Array vs) =>
        let (vs', replaced) := sanitize_loop vs in
        (inr replaced, <[values := Float32Array vs']> h)
    | _ => throw CannotConvert h
    end.

Definition clamp (lo hi x : number) : number := Math_max lo (Math_min hi x).

Section Policies.
Context `{Host}.

Definition sigmoid (x : number) : number :=
  div (ofZ 1) (add (ofZ 1) (Math_exp (neg x))).

Definition outside01 (v : number) : bool := lt v (ofZ 0) || lt (ofZ 1) v.

Definition decodeColorDC (colorValues : list number) (dtype : TensorDType)
    (mode : ColorMode) : list number * string :=
  let '(out, interpretation) :=
    match dtype with
    | u8 => (map (fun v => fround (div v (ofZ 255))) colorValues, "u8"%string)
    | _ =>
        let treatAsSH :=
          match mode with
          | color_sh => true
          | color_auto => existsb outside01 colorValues
          | color_linear => false
          end in
        (map (fun v => fround (if treatAsSH then add (mul v SH_C0) c_half else v))
           colorValues,
         if treatAsSH then "sh"%string else "linear"%string)
    end in
  (map (fun o => fround (clamp (ofZ 0) (ofZ 1) o)) out, interpretation).

Definition applyOpacityPolicy (opacityValues : list number) (mode : OpacityMode)
    : list number * string :=
  let treatAsLogits :=
    match mode with
    | opacity_logits => true
    | opacity_auto => existsb outside01 opacityValues
    | opacity_linear => false
    end in
  (map (fun x => fround (clamp (ofZ 0) (ofZ 1) (if treatAsLogits then sigmoid x else x)))
     opacityValues,
   if treatAsLogits then "logits"%string else "linear"%string).

Definition applySigmaPolicy (sigmaValues : list number) (mode : SigmaMode)
    : list number * string :=
  let treatAsLogSigma :=
    match mode with
    | sigma_log => true
    | sigma_auto => existsb (fun v => le v (ofZ 0)) sigmaValues
    | sigma_linear => false
    end in
  (map (fun x => fround (clamp c_1e_4 (ofZ 10)
                           (if treatAsLogSigma then add c_0_01 (Math_exp x) else x)))
     sigmaValues,
   if treatAsLogSigma then "log"%string else "linear"%string).

(** ** Semantic resolver ([semantics/resolveSemantics.ts]) *)

Definition positions_aliases : list string :=
  ["triangles_points"; "triangle_points"; "positions"]%string.
Definition colorDC_aliases : list string :=
  ["features_dc"; "color_dc"; "colors_dc"]%string.
Definition colorRest_aliases : list string :=
  ["features_rest"; "color_rest"; "colors_rest"]%string.
Definition opacity_aliases : list string :=
  ["opacity_alpha"; "opacity"; "alpha"]%string.
Definition sigma_aliases : list string := ["sigma"]%string.

Record ResolveOptions := mkOptions {
  opacityMode : option OpacityMode;
  colorMode : option ColorMode;
  sigmaMode : option SigmaMode;
}.

Fixpoint findTensor (tensors : gmap string TensorRecord) (aliases : list string)
    : option TensorRecord :=
  match aliases with
  | [] => None
  | key :: rest =>
      match tensors !! key with
      | Some t => Some t
      | None => findTensor tensors rest
      end
  end.

Definition findTensorName (tensors : gmap string TensorRecord) (aliases : list string)
    : option string :=
  List.find (fun k => bool_decide (is_Some (tensors !! k))) aliases.

Record PositionsField := mkPositions {
  pos_tensorName : option string;
  pos_data : loc;
  pos_shape : list Z;
}.

Record ColorField := mkColor {
  color_tensorName : option string;
  color_data : loc;
  color_interpretation : string;
}.

Record ScalarField := mkScalar {
  scalar_data : loc;
  scalar_interpretation : string;
}.

Record Stats := mkStats {
  triangleCount : Z;
  totalVertices : Z;
  replacedPositionValues : Z;
  colorInterpretation : string;
  opacityInterpretation : string;
  sigmaInterpretation : string;
}.

Record SemanticData := mkSemanticData {
  positions : PositionsField;
  colorDC : option ColorField;
  colorRest : option TensorRecord;
  opacity : option ScalarField;
  sigma : option ScalarField;
  shDegree : number;
  stats : Stats;
}.

(** The contents of the [Float32Array] at a location. *)
Definition float32_contents (l : loc) : M ResolveError (list number) :=
  fun h =>
    match h !! l with
    | Some (Float32Array vs) => ret vs h
    | _ => throw CannotConvert h
    end.

(** The largest length that [new Float32Array(n)] accepts: [ToIndex]
    rejects a length beyond 2^53 - 1, and the engine one beyond the largest
    array it allocates. *)
Definition arrayLimit : Z := Z.min maxArrayLength (2 ^ 53 - 1).

(** [new Float32Array(n).fill(v)], for a length that is an integer: the
    constructor throws a [RangeError] when the length is negative or beyond
    [arrayLimit].  The lengths of the resolver are products of dimensions,
    kept in [Z]: up to 2^53 they are the doubles that the code computes, and
    from there on the double (at least 2^53, or Infinity) is rejected as the
    integer is. *)
Definition filled (n : Z) (v : number) : ResolveError + list number :=
  if (n <? 0) || (arrayLimit <? n) then inl InvalidArrayLength
  else inr (replicate (Z.to_nat n) (fround v)).

(** The colour loop: the three components of triangle [tri] go to each of
    its three vertices. *)
Definition broadcastColor (decoded : list number) (colors : list number) (tri : nat)
    : list number :=
  let base := (tri * 3)%nat in
  let r := default c_half (decoded !! base) in
  let g := default c_half (decoded !! (base + 1)%nat) in
  let b := default c_half (decoded !! (base + 2)%nat) in
  fold_left
    (fun colors v =>
       let dst := ((tri * 3 + v) * 3)%nat in
       <[(dst + 2)%nat := fround b]>
         (<[(dst + 1)%nat := fround g]> (<[dst := fround r]> colors)))
    (seq 0 3) colors.

(** The opacity and sigma loops: one value per triangle, written to its
    three vertices; [fallback] stands in for a missing value. *)
Definition broadcastScalar (fallback : number) (applied : list number)
    (out : list number) (tri : nat) : list number :=
  let x := default fallback (applied !! tri) in
  fold_left (fun out v => <[(tri * 3 + v)%nat := fround x]> out) (seq 0 3) out.

Definition c_0_1 : number := S754_finite false 7205759403792794 (-56).

(** Lines 84-101: the colour block, on the array [colors0] filled with 0.5. *)
Definition resolveColor (colorTensor : option TensorRecord) (colorMode : ColorMode)
    (triangleCount : Z) (colors0 : list number)
    : M ResolveError (list number * string) :=
  match colorTensor with
  | Some t =>
      let* src := toFloat32Array (data t) in
      let* srcValues := float32_contents src in
      let decoded := decodeColorDC srcValues (dtype t) colorMode in
      ret (fold_left (broadcastColor decoded.1) (seq 0 (Z.to_nat triangleCount)) colors0,
           decoded.2)
  | None => ret (colors0, "none"%string)
  end.

(** Lines 107-118 and 124-135: the opacity block and the sigma block, which
    differ in the policy applied and in the fallback value only. *)
Definition resolveScalar (policy : list number -> list number * string)
    (fallback : number) (tensor : option TensorRecord)
    (triangleCount totalVertices : Z) : M ResolveError (option loc * string) :=
  match tensor with
  | Some t =>
      let* src := toFloat32Array (data t) in
      let* srcValues := float32_contents src in
      let applied := policy srcValues in
      let* out0 := of_result (filled totalVertices (ofZ 0)) in
      let* l :=
        new_array
          (Float32Array
             (fold_left (broadcastScalar fallback applied.1)
                (seq 0 (Z.to_nat triangleCount)) out0)) in
      ret (Some l, applied.2)
  | None => ret (None, "none"%string)
  end.

(** Lines 137-139. *)
Definition resolveShDegree (hdr : json) : number :=
  nullish (prop (nullish (prop hdr "params") id JNull) "active_sh_degree")
    js_Number
    (nullish (prop hdr "active_sh_degree") js_Number (ofZ 0)).

(** Lines 78-166: what follows the validation of the position shape. *)
Definition resolveFields (parsedModel : ParsedModel)
    (opacityMode : OpacityMode) (colorMode : ColorMode) (sigmaMode : SigmaMode)
    (positionTensor : TensorRecord) (positionData : loc)
    (replacedPositionValues triangleCount verticesPerTriangle : Z)
    : M ResolveError SemanticData :=
  let tensors := tensors parsedModel in
  let totalVertices := triangleCount * verticesPerTriangle in
  let colorTensor := findTensor tensors colorDC_aliases in
  let* colors0 := of_result (filled (totalVertices * 3) c_half) in
  let* (colors, colorInterpretation) :=
    resolveColor colorTensor colorMode triangleCount colors0 in
  let* (alphas, opacityInterpretation) :=
    resolveScalar (fun vs => applyOpacityPolicy vs opacityMode) (ofZ 1)
      (findTensor tensors opacity_aliases) triangleCount totalVertices in
  let* (sigmaValues, sigmaInterpretation) :=
    resolveScalar (fun vs => applySigmaPolicy vs sigmaMode) c_0_1
      (findTensor tensors sigma_aliases) triangleCount totalVertices in
  let* colorsLoc := new_array (Float32Array colors) in
  ret {| positions :=
           {| pos_tensorName := findTensorName tensors positions_aliases;
              pos_data := positionData;
              pos_shape := shape positionTensor |};
         colorDC :=
           match colorTensor with
           | Some _ =>
               Some {| color_tensorName := findTensorName tensors colorDC_aliases;
                       color_data := colorsLoc;
                       color_interpretation := colorInterpretation |}
           | None => None
           end;
         colorRest := findTensor tensors colorRest_aliases;
         opacity :=
           (fun l => {| scalar_data := l;
                        scalar_interpretation := opacityInterpretation |})
             <$> alphas;
         sigma :=
           (fun l => {| scalar_data := l;
                        scalar_interpretation := sigmaInterpretation |})
             <$> sigmaValues;
         shDegree := resolveShDegree (header parsedModel);
         stats :=
           {| triangleCount := triangleCount;
              totalVertices := totalVertices;
              replacedPositionValues := replacedPositionValues;
              colorInterpretation := colorInterpretation;
              opacityInterpretation := opacityInterpretation;
              sigmaInterpretation := sigmaInterpretation |} |}.

Definition resolveSemantics (parsedModel : ParsedModel) (options : ResolveOptions)
    : M ResolveError SemanticData :=
  let tensors := tensors parsedModel in
  let opacityMode := default opacity_auto (opacityMode options) in
  let colorMode := default color_auto (colorMode options) in
  let sigmaMode := default sigma_auto (sigmaMode options) in
  match findTensor tensors positions_aliases with
  | None => throw (MissingPositionTensor positions_aliases)
  | Some positionTensor =>
      let* positionData := toFloat32Array (data positionTensor) in
      let* replacedPositionValues := sanitizeFiniteInPlace positionData in
      match shape positionTensor with
      | triangleCount :: verticesPerTriangle :: coordsPerVertex :: _ =>
          if negb (verticesPerTriangle =? 3) || negb (coordsPerVertex =? 3)
          then throw (UnsupportedPositionShape
                        triangleCount verticesPerTriangle coordsPerVertex)
          else
            resolveFields parsedModel opacityMode colorMode sigmaMode
              positionTensor positionData replacedPositionValues
              triangleCount verticesPerTriangle
      | dims => throw (InvalidPositionShape dims)
      end
  end.

End Policies.

(** ** Renderers ([renderers/meshRenderer.ts], [renderers/splatRenderer.ts])

    The Three.js objects that the renderers build are recorded by what the
    code gives to their constructors: a [BufferAttribute] by its array, a
    reference into the store, and its item size; a [BufferGeometry] by the
    attributes set on it and by its index; a material by its parameters.
    What Three.js and WebGL do with them (the [render] and [dispose]
    closures of the splat renderable) is outside this development.  A
    renderer allocates typed arrays of at most three elements per vertex,
    no longer than the colour array that the resolver allocated for the same
    Semantic Data: here every length that is not negative is allocated, and
    the limit of the engine is met in the resolver. *)

Record BufferAttribute := mkBufferAttribute {
  attr_array : loc;
  itemSize : Z;
}.

Record BufferGeometry := mkBufferGeometry {
  attributes : gmap string BufferAttribute;
  index : option BufferAttribute;
}.

(** [geometry.setAttribute(name, attribute)] *)
Definition setAttribute (name : string) (attribute : BufferAttribute)
    (geometry : BufferGeometry) : BufferGeometry :=
  {| attributes := <[name := attribute]> (attributes geometry);
     index := index geometry |}.

(** [geometry.setIndex(attribute)] *)
Definition setIndex (attribute : BufferAttribute) (geometry : BufferGeometry)
    : BufferGeometry :=
  {| attributes := attributes geometry; index := Some attribute |}.

Inductive Side := FrontSide | BackSide | DoubleSide.
Inductive Blending := NormalBlending | AdditiveBlending.

(** The parameters of the mesh renderer's [MeshPhongMaterial]. *)
Record MeshPhongMaterial := mkMeshPhongMaterial {
  phong_color : Z;
  vertexColors : bool;
  phong_side : Side;
  flatShading : bool;
  phong_transparent : bool;
  phong_opacity : number;
  shininess : number;
}.

(** The uniforms of the splat renderer's [ShaderMaterial]. *)
Record SplatUniforms := mkSplatUniforms {
  uSigmaScale : number;
  uEdgeSoftness : number;
  uAlphaCurveK : number;
  uCoveredAlphaFloor : number;
}.

(** The parameters of the splat renderer's [ShaderMaterial]; the two
    shaders are named by their keys in [SHADERS]. *)
Record ShaderMaterial := mkShaderMaterial {
  vertexShader : string;
  fragmentShader : string;
  uniforms : SplatUniforms;
  shader_side : Side;
  shader_transparent : bool;
  premultipliedAlpha : bool;
  depthWrite : bool;
  depthTest : bool;
  blending : Blending;
}.

Inductive Material :=
  | PhongMaterial (parameters : MeshPhongMaterial)
  | SplatMaterial (parameters : ShaderMaterial).

Record Mesh := mkMesh {
  geometry : BufferGeometry;
  material : Material;
}.

Inductive RenderMode := mode_mesh | mode_splat.

Record RenderStats := mkRenderStats {
  triangles : Z;
  points : Z;
}.

(** [Renderable] of [types.ts]: the mesh renderable has none of the three
    optional methods, the splat renderable has all of them;
    [hasSplatMethods] tells them apart. *)
Record Renderable := mkRenderable {
  object3d : Mesh;
  mode : RenderMode;
  render_stats : RenderStats;
  hasSplatMethods : bool;
}.

Inductive RenderError :=
  | SplatRequiresColor
  | RenderInvalidArrayLength (n : Z).

(** [new Float32Array(n).fill(v)] in a renderer. *)
Definition render_filled (n : Z) (v : number) : RenderError + list number :=
  if n <? 0 then inl (RenderInvalidArrayLength n)
  else inr (replicate (Z.to_nat n) (fround v)).

(** The index array of both renderers: a [Uint32Array] beyond 65535
    indices and a [Uint16Array] otherwise, with [indexArray[i] = i] stored
    for every [i]; the store keeps the low bits of [i]. *)
Definition indexArray (indexCount : Z) : RenderError + TensorData :=
  if indexCount <? 0 then inl (RenderInvalidArrayLength indexCount)
  else
    let n := Z.to_nat indexCount in
    let fill (bits : Z) :=
      fold_left (fun arr i => <[i := Z.of_nat i mod 2 ^ bits]> arr) (seq 0 n)
        (replicate n 0) in
    inr (if indexCount >? 65535
         then IntArray Uint32 (fill 32)
         else IntArray Uint16 (fill 16)).

Definition c_60 : number := ofZ 60.

(** [createMeshRenderable] *)
Definition createMeshRenderable (semanticData : SemanticData)
    : M RenderError Renderable :=
  let stats := stats semanticData in
  let geometry :=
    setAttribute "position"
      {| attr_array := pos_data (positions semanticData); itemSize := 3 |}
      {| attributes := ∅; index := None |} in
  let geometry :=
    match colorDC semanticData with
    | Some c =>
        setAttribute "color" {| attr_array := color_data c; itemSize := 3 |} geometry
    | None => geometry
    end in
  let geometry :=
    match opacity semanticData with
    | Some a =>
        setAttribute "alpha" {| attr_array := scalar_data a; itemSize := 1 |} geometry
    | None => geometry
    end in
  let indexCount := totalVertices stats in
  let* indices := of_result (indexArray indexCount) in
  let* indexLoc := new_array indices in
  let geometry := setIndex {| attr_array := indexLoc; itemSize := 1 |} geometry in
  let material :=
    {| phong_color := 0xffffff;
       vertexColors := bool_decide (is_Some (colorDC semanticData));
       phong_side := DoubleSide;
       flatShading := false;
       phong_transparent := bool_decide (is_Some (opacity semanticData));
       phong_opacity := ofZ 1;
       shininess := c_60 |} in
  ret {| object3d := {| geometry := geometry; material := PhongMaterial material |};
         mode := mode_mesh;
         render_stats :=
           {| triangles := triangleCount stats; points := totalVertices stats |};
         hasSplatMethods := false |}.

(** 0.35, 0.9, 0.8, 2 and 1000 as doubles. *)
Definition c_0_35 : number := S754_finite false 6305039478318694 (-54).
Definition c_0_9 : number := S754_finite false 8106479329266893 (-53).
Definition c_0_8 : number := S754_finite false 7205759403792794 (-53).
Definition c_2 : number := ofZ 2.
Definition c_1000 : number := ofZ 1000.

(** The barycentric attribute of the splat renderer: for each triangle,
    1 at offsets 0, 4 and 8 of its nine entries. *)
Definition barycentricStep (barycentric : list number) (tri : nat) : list number :=
  let base := (tri * 9)%nat in
  <[(base + 8)%nat := fround (ofZ 1)]>
    (<[(base + 4)%nat := fround (ofZ 1)]>
       (<[base := fround (ofZ 1)]> barycentric)).

(** An attribute's array that is taken from the semantic data when it is
    there ([a?.data ?? new Float32Array(n).fill(v)]). *)
Definition dataOrFilled (field : option ScalarField) (n : Z) (v : number)
    : M RenderError loc :=
  match field with
  | Some a => ret (scalar_data a)
  | None =>
      let* values := of_result (render_filled n v) in
      new_array (Float32Array values)
  end.

(** [createSplatRenderable], up to the renderable that it returns. *)
Definition createSplatRenderable (semanticData : SemanticData)
    : M RenderError Renderable :=
  let stats := stats semanticData in
  match colorDC semanticData with
  | None => throw SplatRequiresColor
  | Some c =>
      let geometry :=
        setAttribute "color" {| attr_array := color_data c; itemSize := 3 |}
          (setAttribute "position"
             {| attr_array := pos_data (positions semanticData); itemSize := 3 |}
             {| attributes := ∅; index := None |}) in
      let* alphaData :=
        dataOrFilled (opacity semanticData) (totalVertices stats) (ofZ 1) in
      let geometry :=
        setAttribute "alpha" {| attr_array := alphaData; itemSize := 1 |} geometry in
      let* sigmaData :=
        dataOrFilled (sigma semanticData) (totalVertices stats) c_0_1 in
      let geometry :=
        setAttribute "splatSigma" {| attr_array := sigmaData; itemSize := 1 |}
          geometry in
      let* zeros := of_result (render_filled (totalVertices stats * 3) (ofZ 0)) in
      let* barycentric :=
        new_array
          (Float32Array
             (fold_left barycentricStep (seq 0 (Z.to_nat (triangleCount stats)))
                zeros)) in
      let geometry :=
        setAttribute "barycentric" {| attr_array := barycentric; itemSize := 3 |}
          geometry in
      let* indices := of_result (indexArray (totalVertices stats)) in
      let* indexLoc := new_array indices in
      let geometry := setIndex {| attr_array := indexLoc; itemSize := 1 |} geometry in
      let material :=
        {| vertexShader := "splat_triangle_vs";
           fragmentShader := "splat_triangle_fs";
           uniforms :=
             {| uSigmaScale := c_0_35;
                uEdgeSoftness := c_0_9;
                uAlphaCurveK := ofZ 1;
                uCoveredAlphaFloor := ofZ 0 |};
           shader_side := DoubleSide;
           shader_transparent := true;
           premultipliedAlpha := true;
           depthWrite := false;
           depthTest := true;
           blending := AdditiveBlending |} in
      ret {| object3d := {| geometry := geometry; material := SplatMaterial material |};
             mode := mode_splat;
             render_stats :=
               {| triangles := triangleCount stats; points := totalVertices stats |};
             hasSplatMethods := true |}
  end.

(** [Partial<SplatParams>]: a field is [Some] when it is a number. *)
Record SplatParams := mkSplatParams {
  alphaCurveK : option number;
  sigmaScale : option number;
  coveredAlphaFloor : option number;
}.

(** The [setSplatParams] closure of the splat renderable, on the uniforms
    of its material. *)
Definition setSplatParams (u : SplatUniforms) (params : SplatParams) : SplatUniforms :=
  let u :=
    match alphaCurveK params with
    | Some k =>
        {| uSigmaScale := uSigmaScale u; uEdgeSoftness := uEdgeSoftness u;
           uAlphaCurveK := clamp (ofZ 1) c_1000 k;
           uCoveredAlphaFloor := uCoveredAlphaFloor u |}
    | None => u
    end in
  let u :=
    match sigmaScale params with
    | Some s =>
        {| uSigmaScale := clamp c_0_01 c_2 s; uEdgeSoftness := uEdgeSoftness u;
           uAlphaCurveK := uAlphaCurveK u;
           uCoveredAlphaFloor := uCoveredAlphaFloor u |}
    | None => u
    end in
  match coveredAlphaFloor params with
  | Some f =>
      {| uSigmaScale := uSigmaScale u; uEdgeSoftness := uEdgeSoftness u;
         uAlphaCurveK := uAlphaCurveK u;
         uCoveredAlphaFloor := clamp (ofZ 0) c_0_8 f |}
  | None => u
  end.

(** ** The viewer's choice of a renderer ([viewer.ts], [applyRenderMode])

    The computation of [built]: the splat renderer when the mode is
    "splat", with the mesh renderer as the fallback when it throws, and the
    mesh renderer for any other mode. *)
Definition catch {E A} (c : M E A) (handler : E -> M E A) : M E A :=
  fun h => match c h with
           | (inl e, h') => handler e h'
           | (inr a, h') => (inr a, h')
           end.

Definition buildRenderable (mode : string) (semanticData : SemanticData)
    : M RenderError Renderable :=
  if String.eqb mode "splat"
  then catch (createSplatRenderable semanticData)
         (fun _ => createMeshRenderable semanticData)
  else createMeshRenderable semanticData.

(** [applySplatSettings]: the settings reach the uniforms of a renderable
    that has [setSplatParams], and no other. *)
Definition applySplatSettings (renderable : Renderable) (settings : SplatParams)
    : Renderable :=
  if hasSplatMethods renderable then
    match material (object3d renderable) with
    | SplatMaterial parameters =>
        {| object3d :=
             {| geometry := geometry (object3d renderable);
                material :=
                  SplatMaterial
                    {| vertexShader := vertexShader parameters;
                       fragmentShader := fragmentShader parameters;
                       uniforms := setSplatParams (uniforms parameters) settings;
                       shader_side := shader_side parameters;
                       shader_transparent := shader_transparent parameters;
                       premultipliedAlpha := premultipliedAlpha parameters;
                       depthWrite := depthWrite parameters;
                       depthTest := depthTest parameters;
                       blending := blending parameters |} |};
           mode := mode renderable;
           render_stats := render_stats renderable;
           hasSplatMethods := hasSplatMethods renderable |}
    | PhongMaterial _ => renderable
    end
  else renderable.

(** * Specification-level definitions *)

(** ** Numbers *)

(** Structural equality of numbers, as a boolean. *)
Definition spec_float_eqb (a b : spec_float) : bool :=
  match a, b with
  | S754_zero s, S754_zero s' => Bool.eqb s s'
  | S754_infinity s, S754_infinity s' => Bool.eqb s s'
  | S754_nan, S754_nan => true
  | S754_finite s m e, S754_finite s' m' e' =>
      Bool.eqb s s' && Pos.eqb m m' && Z.eqb e e'
  | _, _ => false
  end.

(** A number that a [Float32Array] can hold: rounding to binary32 and
    back leaves it as it is. *)
Definition is_float32 (x : number) : Prop := fround x = x.

(** A number in the normal form of binary64, as every JavaScript number
    is: a significand of 53 bits, or of fewer bits at the least exponent.
    [spec_float] also holds other pairs of a significand and an exponent,
    which the comparisons do not order by their value. *)
Definition valid64 (x : number) : Prop := valid_binary prec64 emax64 x = true.

(** The value of a finite number lies within [eps] of the rational [q]. *)
Definition within (x : number) (q eps : Q) : Prop :=
  isFinite x = true /\ (Qabs (toQ x - q) <= eps)%Q.

(** ** Half-precision decoder *)

(** The significand [1 + fraction/1024] of a normal half, and the double
    it is expected to be: the integer [1024 + fraction] scaled by 2^-10. *)
Definition significand (f : Z) : number := add (ofZ 1) (div (ofZ f) (pow2 10)).

Definition significand_expected (f : Z) : positive := Z.to_pos ((1024 + f) * 2 ^ 42).

(** The check run on each of the 1024 fractions: the significand is the
    expected double, and the quotient [fraction/1024] is a normal double of
    exactly that value. *)
Definition fraction_check (f : Z) : bool :=
  let d := div (ofZ f) (pow2 10) in
  spec_float_eqb (add (ofZ 1) d) (S754_finite false (significand_expected f) (-52))
  && Pos.eqb (digits2_pos (significand_expected f)) 53
  && (if f =? 0 then true
      else match d with
           | S754_finite false M e =>
               Pos.eqb (digits2_pos M) 53 && (-1000 <=? e) && (e <=? 900)
               && Z.eqb (Z.pos M * 1024) (f * 2 ^ (- e)) && (e <? 0)
           | _ => false
           end).

(** The check run on each sign and each exponent field below 31 (packed
    as [31 * sign + exponent]): the scale factor is the signed power of two. *)
Definition scale_check (x : Z) : bool :=
  let s := x / 31 in
  let e := x mod 31 in
  spec_float_eqb (mul (sign_factor s) (pow2 (e - 15)))
    (S754_finite (negb (s =? 0)) 4503599627370496 (e - 15 - 52)).

(** The sign of a pattern as a rational: 1 or -1. *)
Definition sign_value (fp16 : Z) : Q :=
  if sign_field fp16 =? 0 then 1%Q else (-1)%Q.

(** The zero that carries the sign bit of the pattern. *)
Definition signed_zero (fp16 : Z) : number :=
  S754_zero (negb (sign_field fp16 =? 0)).

(** ** Sanitization *)

(** The search of the sanitizer in the words of the design: from index [i]
    of a buffer [w], the offsets -1, +1, -2, +2, ..., -31, +31 in that
    order; the first finite entry found, and 0 when there is none. *)
Definition outward_offsets_from (j : nat) (steps : nat) : list Z :=
  flat_map (fun j => [- Z.of_nat j; Z.of_nat j]) (seq j steps).

Definition outward_offsets : list Z := outward_offsets_from 1 31.

Definition first_finite_among (w : list number) (i : Z) (offsets : list Z) : number :=
  default (ofZ 0) (head (omap (fun o => finite_at w (i + o)) offsets)).

Definition first_finite_outward (w : list number) (i : Z) : number :=
  first_finite_among w i outward_offsets.

(** What sanitization would return if every search ran over the input
    buffer. *)
Definition sanitize_over_input (values : list number) : list number :=
  imap (fun i x =>
          if isFinite x then x else first_finite_outward values (Z.of_nat i))
    values.

(** The number of non-finite entries of a buffer. *)
Definition count_non_finite (values : list number) : Z :=
  Z.of_nat (length (List.filter (fun x => negb (isFinite x)) values)).

(** The state of the sanitizer's outer loop when it reaches index [k] of
    the input [vs]. *)
Definition sanitize_inv (vs : list number) (k : nat) (st : list number * Z) : Prop :=
  length st.1 = length vs /\
  drop k st.1 = drop k vs /\
  (forall (i : nat) x, (i < k)%nat -> vs !! i = Some x ->
     st.1 !! i
     = Some (if isFinite x then x
             else first_finite_outward (take i st.1 ++ drop i vs) (Z.of_nat i))) /\
  st.2 = count_non_finite (take k vs) /\
  Forall is_float32 st.1 /\
  (forall (i : nat) y, (i < k)%nat -> st.1 !! i = Some y -> isFinite y = true).

(** ** Classification *)

(** "Some component lies outside [0,1]", as the classifiers test it:
    below 0 or above 1 (a NaN is neither). *)
Definition some_outside01 (values : list number) : Prop :=
  exists v, v ∈ values /\ (lt v (ofZ 0) = true \/ lt (ofZ 1) v = true).

(** "Some raw value is <= 0", as the sigma classifier tests it. *)
Definition some_non_positive (values : list number) : Prop :=
  exists v, v ∈ values /\ le v (ofZ 0) = true.

(** The double nearest to e^-2, 0.1353352832366127: what [Math.exp(-2)]
    returns on a host whose [exp] is correctly rounded there. *)
Definition exp_minus_2 : number := S754_finite false 4875967449235916 (-55).

(** ** The resolver and the store *)

(** A computation that only allocates: the store it ends with, whether it
    returns or throws, extends the store it starts from. *)
Definition allocates_only {E A} (c : M E A) : Prop :=
  forall h : Heap, h `prefix_of` (c h).2.

(** Every buffer that a tensor record of the model refers to exists in the
    store. *)
Definition model_in_store (parsedModel : ParsedModel) (h : Heap) : Prop :=
  forall (name : string) (t : TensorRecord),
    tensors parsedModel !! name = Some t -> is_Some (h !! data t).

(** What the opacity or the sigma block leaves behind: no field when the
    tensor is absent; otherwise a new array at [l] that holds the policy's
    values broadcast over the triangles, and the policy's tag. *)
Definition scalar_resolved (policy : list number -> list number * string)
    (fallback : number) (tensor : option TensorRecord) (n total : Z)
    (h h' : Heap) (field : option ScalarField) (tag : string) : Prop :=
  match tensor with
  | Some t =>
      exists (d : TensorData) (l : loc),
        h !! data t = Some d /\
        field = Some {| scalar_data := l;
                        scalar_interpretation := (policy (float32_values d)).2 |} /\
        tag = (policy (float32_values d)).2 /\
        h' !! l
        = Some (Float32Array
                  (fold_left (broadcastScalar fallback (policy (float32_values d)).1)
                     (seq 0 (Z.to_nat n))
                     (replicate (Z.to_nat total) (fround (ofZ 0)))))
  | None => field = None /\ tag = "none"%string
  end.

(** The two error values that report an unsupported position shape. *)
Definition is_UnsupportedShape (e : ResolveError) : bool :=
  match e with
  | InvalidPositionShape _ | UnsupportedPositionShape _ _ _ => true
  | _ => false
  end.

(** ** Container parser *)

(** The product of integer dimensions, and the integer dimensions that a
    shape of numbers holds (each a non-negative integer). *)
Definition dims_product (ns : list Z) : Z := fold_right Z.mul 1 ns.

Definition shape_dims (shape : list number) (ns : list Z) : Prop :=
  Forall2 (fun d n => integerValue d = Some n /\ 0 <= n) shape ns.

Definition is_SizeMismatch (e : ParseError) : bool :=
  match e with
  | SizeMismatch _ _ _ => true
  | _ => false
  end.

Definition is_BadMagic (e : ParseError) : bool :=
  match e with
  | BadMagic _ _ => true
  | _ => false
  end.

(** The errors that decoding the TOC entries can raise. *)
Definition is_entry_error (e : ParseError) : bool :=
  match e with
  | UnknownDType _ _ | InvalidTensorBounds _ _ _ | InvalidShapeDimension _
  | SizeMismatch _ _ _ | RangeError => true
  | _ => false
  end.

(** ** Binary32 values *)

(** The significand and the exponent of a binary32: at most 24 bits, and
    fewer only at the smallest exponent. *)
Definition canonical32 (m : positive) (F : Z) : Prop :=
  Z.pos (digits2_pos m) <= 24 /\ -149 <= F /\
  F = Z.max (Z.pos (digits2_pos m) + F - 24) (-149).

(** ** Parsed tensors *)

(** The number of elements of a typed array. *)
Definition data_length (d : TensorData) : Z :=
  match d with
  | Float32Array vs | Float64Array vs => Z.of_nat (length vs)
  | IntArray _ vs | BigIntArray _ vs => Z.of_nat (length vs)
  end.

(** The typed array that a tensor of a given dtype is decoded into, with
    elements of that array type: binary32 values (a half is widened), bytes,
    signed 32-bit and signed 64-bit integers. *)
Definition array_of_dtype (dtype : TensorDType) (d : TensorData) : Prop :=
  match dtype, d with
  | f16, Float32Array vs =>
      Forall (fun v => is_float32 v /\ isFinite v = true) vs
  | f32, Float32Array vs => Forall is_float32 vs
  | u8, IntArray Uint8 vs => Forall (fun z => 0 <= z < 256) vs
  | i32, IntArray Int32 vs => Forall (fun z => - 2 ^ 31 <= z < 2 ^ 31) vs
  | i64, BigIntArray BigInt64 vs => Forall (fun z => - 2 ^ 63 <= z < 2 ^ 63) vs
  | _, _ => False
  end.

(** A tensor record of a Parsed Model against the store: its buffer
    exists, is the typed array of its dtype, its dimensions are
    non-negative, and a shape with a positive element count counts the
    elements of the buffer. *)
Definition tensor_ok (h : Heap) (t : TensorRecord) : Prop :=
  exists d : TensorData,
    h !! data t = Some d /\
    array_of_dtype (dtype t) d /\
    Forall (fun n => 0 <= n) (shape t) /\
    (shape t <> [] -> 0 < dims_product (shape t) ->
     data_length d = dims_product (shape t)).

(** The state of the TOC loop: every tensor decoded so far has a buffer of
    its own, allocated since the store [h0] of the call, and the key list
    holds exactly the names of the mapping, once each. *)
Definition entries_inv (h0 : Heap) (tensors : gmap string TensorRecord)
    (keys : list string) (h : Heap) : Prop :=
  h0 `prefix_of` h /\
  (forall name t, tensors !! name = Some t ->
     (length h0 <= data t < length h)%nat /\ tensor_ok h t) /\
  (forall name name' t t',
     tensors !! name = Some t -> tensors !! name' = Some t' ->
     data t = data t' -> name = name') /\
  NoDup keys /\
  (forall name, name ∈ keys <-> is_Some (tensors !! name)).

(** ** Forward fill *)

(** Forward fill: a non-finite entry takes the value that the entry before
    it has in the result; [prev] stands before the first entry. *)
Fixpoint forward_fill (prev : number) (values : list number) : list number :=
  match values with
  | [] => []
  | x :: rest =>
      let y := if isFinite x then x else prev in
      y :: forward_fill y rest
  end.

(** ** Classification policies on particular values *)

(** The check run on each byte: as a colour component it is stored in a
    [Float32Array] as it is, its quotient by 255 lies in [0,1], and the
    clamp leaves that quotient as it is. *)
Definition u8_color_check (b : Z) : bool :=
  let r := fround (div (fround (ofZ b)) (ofZ 255)) in
  spec_float_eqb (fround (ofZ b)) (ofZ b)
  && spec_float_eqb r (fround (div (ofZ b) (ofZ 255)))
  && spec_float_eqb (fround (clamp (ofZ 0) (ofZ 1) r)) r
  && le (ofZ 0) r && le r (ofZ 1).

(** A number with the sign of a zero dropped: [Math.max(0, -0)] is +0. *)
Definition plus_zero (x : number) : number :=
  match x with
  | S754_zero _ => S754_zero false
  | _ => x
  end.

(** A number of the interval [0,1], or NaN. *)
Definition in_unit_or_NaN (x : number) : Prop :=
  lt x (ofZ 0) = false /\ lt (ofZ 1) x = false.

(** ** Renderers *)

(** The index array that draws every vertex once, in order. *)
Definition identity_indices (n : Z) : list Z := map Z.of_nat (seq 0 (Z.to_nat n)).

(** The uniforms of the splat material within their ranges. *)
Definition uniforms_in_range (u : SplatUniforms) : Prop :=
  (le c_0_01 (uSigmaScale u) = true /\ le (uSigmaScale u) c_2 = true) /\
  (le (ofZ 1) (uAlphaCurveK u) = true /\ le (uAlphaCurveK u) c_1000 = true) /\
  (le (ofZ 0) (uCoveredAlphaFloor u) = true /\ le (uCoveredAlphaFloor u) c_0_8 = true).

(** The uniforms that [createSplatRenderable] starts from. *)
Definition initial_uniforms : SplatUniforms :=
  {| uSigmaScale := c_0_35; uEdgeSoftness := c_0_9;
     uAlphaCurveK := ofZ 1; uCoveredAlphaFloor := ofZ 0 |}.

(** No parameter that is given is NaN. *)
Definition params_not_NaN (params : SplatParams) : Prop :=
  (forall k, alphaCurveK params = Some k -> isNaN k = false) /\
  (forall s, sigmaScale params = Some s -> isNaN s = false) /\
  (forall f, coveredAlphaFloor params = Some f -> isNaN f = false).

(** The uniforms of a renderable, when it is a splat renderable. *)
Definition uniforms_of (r : Renderable) : option SplatUniforms :=
  match material (object3d r) with
  | SplatMaterial parameters => Some (uniforms parameters)
  | PhongMaterial _ => None
  end.

(** ** Sample inputs *)

(** A container in the TGSD dialect: one float32 tensor named positions
    of shape [1, 3, 3], whose first coordinate is NaN and whose others are
    1.0 to 8.0.  Its metadata header is the JSON text
    {tensors:[{name:positions,shape:[1,3,3]}]} with the keys and the names
    in double quotes. *)
Definition sample_fixed_header : list Byte.byte :=
  [Byte.x54; Byte.x47; Byte.x53; Byte.x44; Byte.x01; Byte.x00; Byte.x00; Byte.x00;
   Byte.x32; Byte.x00; Byte.x00; Byte.x00; Byte.x20; Byte.x00; Byte.x00; Byte.x00;
   Byte.x00; Byte.x00; Byte.x00; Byte.x00; Byte.x00; Byte.x00; Byte.x00; Byte.x00;
   Byte.x00; Byte.x00; Byte.x00; Byte.x00; Byte.x00; Byte.x00; Byte.x00; Byte.x00].

Definition sample_header_bytes : list Byte.byte :=
  [Byte.x7b; Byte.x22; Byte.x74; Byte.x65; Byte.x6e; Byte.x73; Byte.x6f; Byte.x72;
   Byte.x73; Byte.x22; Byte.x3a; Byte.x5b; Byte.x7b; Byte.x22; Byte.x6e; Byte.x61;
   Byte.x6d; Byte.x65; Byte.x22; Byte.x3a; Byte.x22; Byte.x70; Byte.x6f; Byte.x73;
   Byte.x69; Byte.x74; Byte.x69; Byte.x6f; Byte.x6e; Byte.x73; Byte.x22; Byte.x2c;
   Byte.x22; Byte.x73; Byte.x68; Byte.x61; Byte.x70; Byte.x65; Byte.x22; Byte.x3a;
   Byte.x5b; Byte.x31; Byte.x2c; Byte.x33; Byte.x2c; Byte.x33; Byte.x5d; Byte.x7d;
   Byte.x5d; Byte.x7d].

Definition sample_toc : list Byte.byte :=
  [Byte.x88; Byte.x77; Byte.x66; Byte.x55; Byte.x44; Byte.x33; Byte.x22; Byte.x11;
   Byte.x00; Byte.x00; Byte.x00; Byte.x00; Byte.x00; Byte.x00; Byte.x00; Byte.x00;
   Byte.x24; Byte.x00; Byte.x00; Byte.x00; Byte.x00; Byte.x00; Byte.x00; Byte.x00;
   Byte.x02; Byte.x00; Byte.x00; Byte.x00; Byte.x00; Byte.x00; Byte.x00; Byte.x00].

Definition sample_payload : list Byte.byte :=
  [Byte.x00; Byte.x00; Byte.xc0; Byte.x7f; Byte.x00; Byte.x00; Byte.x80; Byte.x3f;
   Byte.x00; Byte.x00; Byte.x00; Byte.x40; Byte.x00; Byte.x00; Byte.x40; Byte.x40;
   Byte.x00; Byte.x00; Byte.x80; Byte.x40; Byte.x00; Byte.x00; Byte.xa0; Byte.x40;
   Byte.x00; Byte.x00; Byte.xc0; Byte.x40; Byte.x00; Byte.x00; Byte.xe0; Byte.x40;
   Byte.x00; Byte.x00; Byte.x00; Byte.x41].

Definition sample_container : ArrayBuffer :=
  sample_fixed_header ++ sample_header_bytes ++ sample_toc ++ sample_payload.

Definition sample_header : json :=
  JObj [("tensors"%string,
         JArr [JObj [("name"%string, JStr "positions");
                     ("shape"%string, JArr [JNum (ofZ 1); JNum (ofZ 3); JNum (ofZ 3)])]])].

Fixpoint bytes_eqb (a b : list Byte.byte) : bool :=
  match a, b with
  | [], [] => true
  | x :: a', y :: b' => Byte.eqb x y && bytes_eqb a' b'
  | _, _ => false
  end.

(** [Math.exp] tabulated at the arguments that the examples use:
    exp(-2) = 0.1353352832366127, and exp(+-0) = 1. *)
Definition table_exp (x : number) : number :=
  match x with
  | S754_finite true 4503599627370496 (-51) => exp_minus_2
  | _ => ofZ 1
  end.

(** The host of the examples: it parses the sample's metadata header and
    no other text, no example converts between numbers and strings, and its
    typed arrays have at most 2^32 - 1 elements. *)
Definition sample_host : Host :=
  {| JSON_parse := fun bs =>
       if bytes_eqb bs sample_header_bytes
       then inr sample_header
       else inl "Unexpected token"%string;
     Number_toString := fun _ => "NaN"%string;
     StringToNumber := fun _ => S754_nan;
     Math_exp := table_exp;
     maxArrayLength := 2 ^ 32 - 1 |}.

(** The Parsed Model and the store that parsing the sample container
    yields: one float32 position tensor of one triangle, whose buffer starts
    with NaN. *)
Definition one_triangle_model : ParsedModel :=
  {| format := FmtTSGD;
     version := 1;
     header := sample_header;
     tensors :=
       <["positions"%string := {| data := 0%nat; shape := [1; 3; 3]; dtype := f32 |}]> ∅;
     metadata :=
       {| meta_format := FmtTSGD; meta_version := 1; tensorCount := 1;
          names := ["positions"%string]; dataSectionStart := 114 |} |}.

Definition one_triangle_store : Heap :=
  [Float32Array
     [S754_nan; ofZ 1; ofZ 2; ofZ 3; ofZ 4; ofZ 5; ofZ 6; ofZ 7; ofZ 8]].

Definition default_options : ResolveOptions := mkOptions None None None.

(** A parsed model with a position, an opacity and a sigma tensor for one
    triangle, each with its own float32 buffer. *)
Definition splat_header : json :=
  JObj [("tensors"%string,
         JArr [JObj [("name"%string, JStr "positions");
                     ("shape"%string, JArr [JNum (ofZ 1); JNum (ofZ 3); JNum (ofZ 3)])];
               JObj [("name"%string, JStr "opacity");
                     ("shape"%string, JArr [JNum (ofZ 1)])];
               JObj [("name"%string, JStr "sigma");
                     ("shape"%string, JArr [JNum (ofZ 1)])]])].

Definition splat_model : ParsedModel :=
  {| format := FmtTSGD;
     version := 1;
     header := splat_header;
     tensors :=
       <["positions"%string := {| data := 0%nat; shape := [1; 3; 3]; dtype := f32 |}]>
         (<["opacity"%string := {| data := 1%nat; shape := [1]; dtype := f32 |}]>
            (<["sigma"%string := {| data := 2%nat; shape := [1]; dtype := f32 |}]> ∅));
     metadata :=
       {| meta_format := FmtTSGD; meta_version := 1; tensorCount := 3;
          names := ["positions"; "opacity"; "sigma"]%string;
          dataSectionStart := 300 |} |}.

Definition splat_store : Heap :=
  [Float32Array [ofZ 0; ofZ 0; ofZ 0; ofZ 1; ofZ 0; ofZ 0; ofZ 0; ofZ 1; ofZ 0];
   Float32Array [ofZ 2];
   Float32Array [ofZ 0]].

(** A metadata definition of a tensor named positions of shape [0, 3, 3],
    one of shape [2, 3, 3], and 36 bytes of payload. *)
Definition zero_dim_defs : list json :=
  [JObj [("name"%string, JStr "positions");
         ("shape"%string, JArr [JNum (ofZ 0); JNum (ofZ 3); JNum (ofZ 3)])]].

Definition two_triangle_defs : list json :=
  [JObj [("name"%string, JStr "positions");
         ("shape"%string, JArr [JNum (ofZ 2); JNum (ofZ 3); JNum (ofZ 3)])]].

Definition payload_36 : ArrayBuffer := replicate 36 Byte.x00.

(** A parsed model with a position tensor of one triangle and a colour
    tensor features_dc of three bytes, each with its own buffer. *)
Definition colored_header : json :=
  JObj [("tensors"%string,
         JArr [JObj [("name"%string, JStr "positions");
                     ("shape"%string, JArr [JNum (ofZ 1); JNum (ofZ 3); JNum (ofZ 3)])];
               JObj [("name"%string, JStr "features_dc");
                     ("shape"%string, JArr [JNum (ofZ 1); JNum (ofZ 3)])]])].

Definition colored_model : ParsedModel :=
  {| format := FmtTSGD;
     version := 1;
     header := colored_header;
     tensors :=
       <["positions"%string := {| data := 0%nat; shape := [1; 3; 3]; dtype := f32 |}]>
         (<["features_dc"%string := {| data := 1%nat; shape := [1; 3]; dtype := u8 |}]> ∅);
     metadata :=
       {| meta_format := FmtTSGD; meta_version := 1; tensorCount := 2;
          names := ["positions"; "features_dc"]%string;
          dataSectionStart := 200 |} |}.

Definition colored_store : Heap :=
  [Float32Array [ofZ 0; ofZ 0; ofZ 0; ofZ 1; ofZ 0; ofZ 0; ofZ 0; ofZ 1; ofZ 0];
   IntArray Uint8 [255; 0; 51]].

(** A container in the TGSD dialect whose only tensor, positions, declares
    the shape [2^53, 3, 3, 0] and no bytes: the element count of the shape is
    0, so the parser compares no byte length and attaches an empty buffer.
    Its metadata header is the JSON text
    {tensors:[{name:positions,shape:[9007199254740992,3,3,0]}]} with the
    keys and the name in double quotes. *)
Definition oversized_fixed_header : list Byte.byte :=
  [Byte.x54; Byte.x47; Byte.x53; Byte.x44; Byte.x01; Byte.x00; Byte.x00; Byte.x00;
   Byte.x43; Byte.x00; Byte.x00; Byte.x00; Byte.x20; Byte.x00; Byte.x00; Byte.x00;
   Byte.x00; Byte.x00; Byte.x00; Byte.x00; Byte.x00; Byte.x00; Byte.x00; Byte.x00;
   Byte.x00; Byte.x00; Byte.x00; Byte.x00; Byte.x00; Byte.x00; Byte.x00; Byte.x00].

Definition oversized_header_bytes : list Byte.byte :=
  [Byte.x7b; Byte.x22; Byte.x74; Byte.x65; Byte.x6e; Byte.x73; Byte.x6f; Byte.x72;
   Byte.x73; Byte.x22; Byte.x3a; Byte.x5b; Byte.x7b; Byte.x22; Byte.x6e; Byte.x61;
   Byte.x6d; Byte.x65; Byte.x22; Byte.x3a; Byte.x22; Byte.x70; Byte.x6f; Byte.x73;
   Byte.x69; Byte.x74; Byte.x69; Byte.x6f; Byte.x6e; Byte.x73; Byte.x22; Byte.x2c;
   Byte.x22; Byte.x73; Byte.x68; Byte.x61; Byte.x70; Byte.x65; Byte.x22; Byte.x3a;
   Byte.x5b; Byte.x39; Byte.x30; Byte.x30; Byte.x37; Byte.x31; Byte.x39; Byte.x39;
   Byte.x32; Byte.x35; Byte.x34; Byte.x37; Byte.x34; Byte.x30; Byte.x39; Byte.x39;
   Byte.x32; Byte.x2c; Byte.x33; Byte.x2c; Byte.x33; Byte.x2c; Byte.x30; Byte.x5d;
   Byte.x7d; Byte.x5d; Byte.x7d].

Definition oversized_toc : list Byte.byte :=
  [Byte.x88; Byte.x77; Byte.x66; Byte.x55; Byte.x44; Byte.x33; Byte.x22; Byte.x11;
   Byte.x00; Byte.x00; Byte.x00; Byte.x00; Byte.x00; Byte.x00; Byte.x00; Byte.x00;
   Byte.x00; Byte.x00; Byte.x00; Byte.x00; Byte.x00; Byte.x00; Byte.x00; Byte.x00;
   Byte.x02; Byte.x00; Byte.x00; Byte.x00; Byte.x00; Byte.x00; Byte.x00; Byte.x00].

Definition oversized_container : ArrayBuffer :=
  oversized_fixed_header ++ oversized_header_bytes ++ oversized_toc.

Definition oversized_header : json :=
  JObj [("tensors"%string,
         JArr [JObj [("name"%string, JStr "positions");
                     ("shape"%string,
                      JArr [JNum (ofZ (2 ^ 53)); JNum (ofZ 3); JNum (ofZ 3);
                            JNum (ofZ 0)])]])].

(** A host that parses that header, with the typed arrays of the host of the
    other examples. *)
Definition oversized_host : Host :=
  {| JSON_parse := fun bs =>
       if bytes_eqb bs oversized_header_bytes
       then inr oversized_header
       else inl "Unexpected token"%string;
     Number_toString := fun _ => "NaN"%string;
     StringToNumber := fun _ => S754_nan;
     Math_exp := table_exp;
     maxArrayLength := 2 ^ 32 - 1 |}.

(** The Parsed Model and the store that parsing that container yields. *)
Definition oversized_model : ParsedModel :=
  {| format := FmtTSGD;
     version := 1;
     header := oversized_header;
     tensors :=
       <["positions"%string :=
           {| data := 0%nat; shape := [2 ^ 53; 3; 3; 0]; dtype := f32 |}]> ∅;
     metadata :=
       {| meta_format := FmtTSGD; meta_version := 1; tensorCount := 1;
          names := ["positions"%string]; dataSectionStart := 131 |} |}.

Definition oversized_store : Heap := [Float32Array []].

(** * Properties *)

(** ** Numbers: multiplication by a power of two is exact *)



Lemma spec_float_eqb_eq (a b : spec_float) : spec_float_eqb a b = true -> a = b.
Proof.
  destruct a, b; simpl; try discriminate; try reflexivity.
  - intros E. apply Bool.eqb_prop in E. congruence.
  - intros E. apply Bool.eqb_prop in E. congruence.
  - intros E. apply andb_prop in E as [E Ee]. apply andb_prop in E as [Es Em].
    apply Bool.eqb_prop in Es. apply Pos.eqb_eq in Em. apply Z.eqb_eq in Ee.
    congruence.
Qed.

(** A boolean check that holds on [0 .. n-1] holds at every integer of
    that range. *)
Lemma forallb_range (P : Z -> bool) (n : nat) :
  forallb P (map Z.of_nat (seq 0 n)) = true ->
  forall z, 0 <= z < Z.of_nat n -> P z = true.
Proof.
  intros Hall z Hz.
  rewrite forallb_forall in Hall. apply Hall.
  apply in_map_iff. exists (Z.to_nat z). split; [lia|].
  apply in_seq. lia.
Qed.

Lemma shr_fexp_shift52 (M : positive) (x : Z) :
  digits2_pos M = 53%positive ->
  -1074 <= x + 52 ->
  shr_fexp prec64 emax64 (Z.pos (Pos.iter xO M 52)) x loc_Exact
  = ({| shr_m := Z.pos M; shr_r := false; shr_s := false |}, x + 52).
Proof.
  intros HM Hx.
  assert (Hd : digits2_pos (Pos.iter xO M 52) = 105%positive)
    by (cbn; rewrite HM; reflexivity).
  unfold shr_fexp, Zdigits2. rewrite Hd.
  replace (fexp prec64 emax64 (105 + x) - x) with 52
    by (unfold fexp, SpecFloat.emin, prec64, emax64; lia).
  reflexivity.
Qed.

Lemma shr_fexp_canonical (M : positive) (x : Z) :
  digits2_pos M = 53%positive ->
  -1074 <= x ->
  shr_fexp prec64 emax64 (Z.pos M) x loc_Exact
  = ({| shr_m := Z.pos M; shr_r := false; shr_s := false |}, x).
Proof.
  intros HM Hx.
  unfold shr_fexp, Zdigits2. rewrite HM.
  replace (fexp prec64 emax64 (53 + x) - x) with 0
    by (unfold fexp, SpecFloat.emin, prec64, emax64; lia).
  reflexivity.
Qed.

Lemma mul_pow2_l (s sm : bool) (k e : Z) (M : positive) :
  digits2_pos M = 53%positive ->
  -1074 <= k + e + 52 <= 971 ->
  mul (S754_finite s 4503599627370496 k) (S754_finite sm M e)
  = S754_finite (xorb s sm) M (k + e + 52).
Proof.
  intros HM Hr.
  unfold mul, SFmul.
  change (4503599627370496 * M)%positive with (Pos.iter xO M 52).
  unfold binary_round_aux.
  rewrite (shr_fexp_shift52 M (k + e) HM) by lia.
  cbn [shr_m loc_of_shr_record round_nearest_even].
  rewrite (shr_fexp_canonical M (k + e + 52) HM) by lia.
  cbn [shr_m].
  replace (k + e + 52 <=? emax64 - prec64) with true; [reflexivity|].
  symmetry. apply Z.leb_le. unfold emax64, prec64. lia.
Qed.

(** ** Numbers: significands, shifts and the store into a [Float32Array] *)

Lemma iter_pos_iter {A} (f : A -> A) (n : positive) (x : A) :
  SpecFloat.iter_pos f n x = Pos.iter f x n.
Proof.
  revert x. induction n as [n IH|n IH|]; intros x; cbn.
  - rewrite !IH. rewrite <- Pos.iter_swap. rewrite <- Pos.iter_swap. reflexivity.
  - rewrite !IH. reflexivity.
  - reflexivity.
Qed.

Lemma shr_1_xO (m : positive) :
  shr_1 {| shr_m := Z.pos m~0; shr_r := false; shr_s := false |}
  = {| shr_m := Z.pos m; shr_r := false; shr_s := false |}.
Proof. reflexivity. Qed.

Lemma iter_shr_1_exact (n m : positive) :
  SpecFloat.iter_pos shr_1 n {| shr_m := Z.pos (Pos.iter xO m n); shr_r := false; shr_s := false |}
  = {| shr_m := Z.pos m; shr_r := false; shr_s := false |}.
Proof.
  rewrite iter_pos_iter.
  induction n as [|n IH] using Pos.peano_ind.
  - reflexivity.
  - rewrite Pos.iter_succ_r. rewrite Pos.iter_succ. rewrite shr_1_xO. exact IH.
Qed.

Lemma digits2_pos_iter (n m : positive) :
  Z.pos (digits2_pos (Pos.iter xO m n)) = Z.pos (digits2_pos m) + Z.pos n.
Proof.
  induction n as [|n IH] using Pos.peano_ind.
  - cbn. lia.
  - rewrite Pos.iter_succ. cbn [digits2_pos]. lia.
Qed.

Lemma pos_iter_xO_mul (n m : positive) :
  Z.pos (Pos.iter xO m n) = Z.pos m * 2 ^ Z.pos n.
Proof.
  induction n as [|n IH] using Pos.peano_ind.
  - cbn. lia.
  - rewrite Pos.iter_succ. rewrite Pos2Z.inj_xO, IH.
    rewrite Pos2Z.inj_succ, Z.pow_succ_r by lia. ring.
Qed.

(** A double whose significand fits the 24 bits of a binary32, and whose
    exponent is in its range, survives the store into a [Float32Array]. *)
Lemma fround_exact (s : bool) (M m : positive) (E : Z) (n : positive) :
  Z.pos M = Z.pos m * 2 ^ Z.pos n ->
  digits2_pos M = 53%positive ->
  E + Z.pos n = Z.max (E + 29) (-149) ->
  E + Z.pos n <= 104 ->
  -1074 <= E ->
  fround (S754_finite s M E) = S754_finite s M E.
Proof.
  intros HM Hd HF Hhi Hlo.
  assert (HMi : M = Pos.iter xO m n).
  { apply Pos2Z.inj. rewrite pos_iter_xO_mul. exact HM. }
  assert (Hdm : Z.pos (digits2_pos m) = 53 - Z.pos n).
  { pose proof (digits2_pos_iter n m) as Hi. rewrite <- HMi, Hd in Hi. lia. }
  assert (Hf32 : fexp prec32 emax32 (53 + E) = E + Z.pos n).
  { unfold fexp, SpecFloat.emin, prec32, emax32. lia. }
  assert (Hf64 : fexp prec64 emax64 (53 + E) = E).
  { unfold fexp, SpecFloat.emin, prec64, emax64. lia. }
  assert (Hshift : shr_fexp prec32 emax32 (Z.pos M) E loc_Exact
                   = ({| shr_m := Z.pos m; shr_r := false; shr_s := false |},
                      E + Z.pos n)).
  { unfold shr_fexp, Zdigits2. rewrite Hd, Hf32.
    replace (E + Z.pos n - E) with (Z.pos n) by lia.
    unfold shr_record_of_loc, shr. rewrite HMi, iter_shr_1_exact. reflexivity. }
  assert (Hstay : shr_fexp prec32 emax32 (Z.pos m) (E + Z.pos n) loc_Exact
                  = ({| shr_m := Z.pos m; shr_r := false; shr_s := false |},
                     E + Z.pos n)).
  { unfold shr_fexp, Zdigits2. rewrite Hdm.
    replace (53 - Z.pos n + (E + Z.pos n)) with (53 + E) by lia.
    rewrite Hf32, Z.sub_diag. reflexivity. }
  unfold fround, round32, binary_round.
  rewrite Hd, Hf32.
  unfold shl_align. replace (E + Z.pos n - E) with (Z.pos n) by lia.
  unfold binary_round_aux. rewrite Hshift.
  cbn [shr_m loc_of_shr_record round_nearest_even shr_r shr_s].
  rewrite Hstay. cbn [shr_m].
  replace (E + Z.pos n <=? emax32 - prec32) with true
    by (symmetry; apply Z.leb_le; unfold emax32, prec32; lia).
  unfold of32, binary_round. rewrite Hdm.
  replace (53 - Z.pos n + (E + Z.pos n)) with (53 + E) by lia.
  rewrite Hf64. unfold shl_align.
  replace (E - (E + Z.pos n)) with (Z.neg n) by lia.
  rewrite <- HMi.
  unfold binary_round_aux.
  rewrite (shr_fexp_canonical M E Hd Hlo).
  cbn [shr_m loc_of_shr_record round_nearest_even shr_r shr_s].
  rewrite (shr_fexp_canonical M E Hd Hlo).
  cbn [shr_m].
  replace (E <=? emax64 - prec64) with true
    by (symmetry; apply Z.leb_le; unfold emax64, prec64; lia).
  reflexivity.
Qed.

Lemma digits2_pos_bounds (p : positive) :
  2 ^ (Z.pos (digits2_pos p) - 1) <= Z.pos p < 2 ^ Z.pos (digits2_pos p).
Proof.
  induction p as [p IH|p IH|]; cbn [digits2_pos].
  - rewrite Pos2Z.inj_succ.
    replace (Z.succ (Z.pos (digits2_pos p)) - 1)
      with (Z.succ (Z.pos (digits2_pos p) - 1)) by lia.
    rewrite !Z.pow_succ_r by lia.
    set (a := 2 ^ (Z.pos (digits2_pos p) - 1)) in *.
    set (b := 2 ^ Z.pos (digits2_pos p)) in *. lia.
  - rewrite Pos2Z.inj_succ.
    replace (Z.succ (Z.pos (digits2_pos p)) - 1)
      with (Z.succ (Z.pos (digits2_pos p) - 1)) by lia.
    rewrite !Z.pow_succ_r by lia.
    set (a := 2 ^ (Z.pos (digits2_pos p) - 1)) in *.
    set (b := 2 ^ Z.pos (digits2_pos p)) in *. lia.
  - cbn. lia.
Qed.

Lemma digits2_pos_unique (p : positive) (k : Z) :
  2 ^ (k - 1) <= Z.pos p < 2 ^ k -> Z.pos (digits2_pos p) = k.
Proof.
  intros [Hlo Hhi].
  pose proof (digits2_pos_bounds p) as [Dlo Dhi].
  assert (Hk : 0 < k).
  { destruct (Z_lt_dec 0 k) as [|Hn]; [assumption|].
    assert (2 ^ k <= 1); [|lia].
    destruct (Z.eq_dec k 0) as [->|]; [cbn; lia|].
    rewrite Z.pow_neg_r by lia. lia. }
  destruct (Z_lt_dec (Z.pos (digits2_pos p)) k) as [Hlt|Hge].
  - assert (2 ^ Z.pos (digits2_pos p) <= 2 ^ (k - 1))
      by (apply Z.pow_le_mono_r; lia). lia.
  - destruct (Z_lt_dec k (Z.pos (digits2_pos p))) as [Hgt|]; [|lia].
    assert (2 ^ k <= 2 ^ (Z.pos (digits2_pos p) - 1))
      by (apply Z.pow_le_mono_r; lia). lia.
Qed.

(** A binary32 significand and exponent, read as a double. *)
Lemma of32_canonical (s : bool) (m : positive) (F : Z) :
  Z.pos (digits2_pos m) <= 24 -> -149 <= F <= 104 ->
  of32 (S754_finite s m F)
  = S754_finite s (Pos.iter xO m (Z.to_pos (53 - Z.pos (digits2_pos m))))
      (F - (53 - Z.pos (digits2_pos m))).
Proof.
  intros Hd HF.
  set (d := Z.pos (digits2_pos m)) in *.
  assert (Hn : Z.pos (Z.to_pos (53 - d)) = 53 - d) by (apply Z2Pos.id; lia).
  set (n := Z.to_pos (53 - d)) in *.
  assert (HdM : digits2_pos (Pos.iter xO m n) = 53%positive).
  { apply Pos2Z.inj. rewrite digits2_pos_iter. fold d. lia. }
  unfold of32, binary_round. fold d.
  replace (fexp prec64 emax64 (d + F)) with (F - Z.pos n)
    by (unfold fexp, SpecFloat.emin, prec64, emax64; lia).
  unfold shl_align. replace (F - Z.pos n - F) with (Z.neg n) by lia.
  unfold binary_round_aux.
  rewrite (shr_fexp_canonical _ (F - Z.pos n) HdM) by lia.
  cbn [shr_m loc_of_shr_record round_nearest_even shr_r shr_s].
  rewrite (shr_fexp_canonical _ (F - Z.pos n) HdM) by lia.
  cbn [shr_m].
  replace (F - Z.pos n <=? emax64 - prec64) with true
    by (symmetry; apply Z.leb_le; unfold emax64, prec64; lia).
  rewrite Hn. reflexivity.
Qed.

Lemma of32_is_float32 (s : bool) (m : positive) (F : Z) :
  Z.pos (digits2_pos m) <= 24 -> -149 <= F <= 104 ->
  F = Z.max (Z.pos (digits2_pos m) + F - 24) (-149) ->
  is_float32 (of32 (S754_finite s m F)).
Proof.
  intros Hd HF Hcan. unfold is_float32.
  rewrite (of32_canonical s m F Hd HF).
  set (d := Z.pos (digits2_pos m)) in *.
  assert (Hn : Z.pos (Z.to_pos (53 - d)) = 53 - d) by (apply Z2Pos.id; lia).
  set (n := Z.to_pos (53 - d)) in *.
  apply (fround_exact s _ m _ n).
  - apply pos_iter_xO_mul.
  - apply Pos2Z.inj. rewrite digits2_pos_iter. fold d. lia.
  - lia.
  - lia.
  - lia.
Qed.

(** ** Numbers: rounding to binary32 is idempotent *)

Lemma shr_1_div2 (r : shr_record) :
  0 <= shr_m r -> shr_m (shr_1 r) = shr_m r / 2.
Proof.
  destruct r as [m rb sb]. cbn [shr_m]. intros Hm.
  destruct m as [|[p|p|]|p]; cbn [shr_1 shr_m]; try lia; try reflexivity.
  - apply (Z.div_unique (Z.pos p~1) 2 (Z.pos p) 1); lia.
  - apply (Z.div_unique (Z.pos p~0) 2 (Z.pos p) 0); lia.
Qed.

Lemma iter_shr_1_div (n : positive) (r : shr_record) :
  0 <= shr_m r ->
  shr_m (SpecFloat.iter_pos shr_1 n r) = shr_m r / 2 ^ Z.pos n.
Proof.
  intros Hm. rewrite iter_pos_iter.
  induction n as [|n IH] using Pos.peano_ind.
  - cbn [Pos.iter]. rewrite shr_1_div2 by exact Hm. reflexivity.
  - rewrite Pos.iter_succ, shr_1_div2.
    + rewrite IH, Pos2Z.inj_succ, Z.pow_succ_r by lia.
      rewrite Z.div_div by (try apply Z.pow_pos_nonneg; lia).
      f_equal. lia.
    + rewrite IH. apply Z.div_pos; [exact Hm | apply Z.pow_pos_nonneg; lia].
Qed.


Lemma shr_fexp32_m (mz : positive) (ez : Z) :
  ez <= fexp prec32 emax32 (Z.pos (digits2_pos mz) + ez) ->
  let e1 := fexp prec32 emax32 (Z.pos (digits2_pos mz) + ez) in
  let res := shr_fexp prec32 emax32 (Z.pos mz) ez loc_Exact in
  res.2 = e1 /\ 0 <= shr_m res.1 < 2 ^ 24 /\
  (-149 < e1 -> 2 ^ 23 <= shr_m res.1).
Proof.
  intros Hle e1 res. subst res. unfold shr_fexp, Zdigits2. fold e1.
  pose proof (digits2_pos_bounds mz) as [Dlo Dhi].
  set (dz := Z.pos (digits2_pos mz)) in *.
  assert (He1 : e1 = Z.max (dz + ez - 24) (-149))
    by (unfold e1, fexp, SpecFloat.emin, prec32, emax32; lia).
  destruct (e1 - ez) as [|n|n] eqn:En; try lia.
  - cbn [shr shr_record_of_loc fst snd shr_m].
    split; [lia|]. split.
    + split; [lia|]. eapply Z.lt_le_trans; [exact Dhi|].
      apply Z.pow_le_mono_r; lia.
    + intros Hbig. eapply Z.le_trans; [|exact Dlo].
      apply Z.pow_le_mono_r; lia.
  - cbn [shr fst snd]. split; [lia|].
    rewrite iter_shr_1_div by (cbn; lia). cbn [shr_record_of_loc shr_m].
    assert (Hpn : 0 < 2 ^ Z.pos n) by (apply Z.pow_pos_nonneg; lia).
    split; [split|].
    + apply Z.div_pos; lia.
    + apply Z.div_lt_upper_bound; [exact Hpn|].
      eapply Z.lt_le_trans; [exact Dhi|].
      rewrite <- Z.pow_add_r by lia. apply Z.pow_le_mono_r; lia.
    + intros Hbig. apply Z.div_le_lower_bound; [exact Hpn|].
      eapply Z.le_trans; [|exact Dlo].
      rewrite <- Z.pow_add_r by lia. apply Z.pow_le_mono_r; lia.
Qed.

Lemma round_nearest_even_step (m : Z) (l : location) :
  round_nearest_even m l = m \/ round_nearest_even m l = m + 1.
Proof.
  destruct l as [|[]]; cbn; try (left; reflexivity); try (right; reflexivity).
  destruct (Z.even m); [left | right]; reflexivity.
Qed.

Lemma binary_round_aux32_canonical (s : bool) (mz : positive) (ez : Z) :
  ez <= fexp prec32 emax32 (Z.pos (digits2_pos mz) + ez) ->
  match binary_round_aux prec32 emax32 s (Z.pos mz) ez loc_Exact with
  | S754_finite _ m F => canonical32 m F /\ F <= 104
  | S754_nan => False
  | _ => True
  end.
Proof.
  intros Hle. unfold binary_round_aux.
  destruct (shr_fexp32_m mz ez Hle) as (He1 & [Hm0 Hm24] & Hm23).
  destruct (shr_fexp prec32 emax32 (Z.pos mz) ez loc_Exact) as [mrs e1] eqn:E1.
  cbn [fst snd] in *.
  rewrite <- He1 in Hm23.
  assert (Hmin : -149 <= e1)
    by (rewrite He1; unfold fexp, SpecFloat.emin, prec32, emax32; lia).
  set (m2 := round_nearest_even (shr_m mrs) (loc_of_shr_record mrs)).
  assert (Hm2 : m2 = shr_m mrs \/ m2 = shr_m mrs + 1)
    by apply round_nearest_even_step.
  change (2 ^ 24) with 16777216 in *. change (2 ^ 23) with 8388608 in *.
  destruct m2 as [|p|p] eqn:Ep; try lia.
  - (* rounded to zero *)
    unfold shr_fexp, Zdigits2.
    replace (fexp prec32 emax32 (0 + e1) - e1) with (Z.min 0 (-149 - e1) + 0 - 0 + (Z.max (e1 - 24) (-149) - e1 - Z.min 0 (-149 - e1)))
      by (unfold fexp, SpecFloat.emin, prec32, emax32; lia).
    destruct (Z.min 0 (-149 - e1) + 0 - 0 + (Z.max (e1 - 24) (-149) - e1 - Z.min 0 (-149 - e1)))
      as [|n|n] eqn:En; try lia; cbn; exact I.
  - pose proof (digits2_pos_bounds p) as [Plo Phi].
    set (dp := Z.pos (digits2_pos p)) in *.
    destruct (Z.eq_dec (Z.pos p) 16777216) as [Hcarry|Hno].
    + (* the significand overflowed to 2^24: one more shift *)
      injection Hcarry as ->.
      unfold shr_fexp, Zdigits2.
      change (Z.pos (digits2_pos 16777216)) with 25.
      replace (fexp prec32 emax32 (25 + e1) - e1) with 1
        by (unfold fexp, SpecFloat.emin, prec32, emax32; lia).
      cbn [shr shr_record_of_loc SpecFloat.iter_pos shr_1 fst snd shr_m].
      destruct (e1 + 1 <=? emax32 - prec32) eqn:Efit; [|exact I].
      apply Z.leb_le in Efit. unfold emax32, prec32 in Efit.
      split; [|lia]. unfold canonical32.
      change (Z.pos (digits2_pos 8388608)) with 24. lia.
    + assert (Hp24 : Z.pos p < 16777216) by lia.
      assert (Hdp : dp <= 24).
      { destruct (Z_le_dec dp 24) as [|Hn]; [assumption|exfalso].
        assert (2 ^ 24 <= 2 ^ (dp - 1)) by (apply Z.pow_le_mono_r; lia).
        change (2 ^ 24) with 16777216 in *. lia. }
      unfold shr_fexp, Zdigits2. fold dp.
      assert (Hn2 : fexp prec32 emax32 (dp + e1) - e1 <= 0)
        by (unfold fexp, SpecFloat.emin, prec32, emax32; lia).
      destruct (fexp prec32 emax32 (dp + e1) - e1) as [|n|n] eqn:En; try lia;
        cbn [shr shr_record_of_loc fst snd shr_m];
        (destruct (e1 <=? emax32 - prec32) eqn:Efit; [|exact I]);
        apply Z.leb_le in Efit; unfold emax32, prec32 in Efit;
        (split; [|lia]); unfold canonical32; fold dp;
        (split; [exact Hdp|]); (split; [exact Hmin|]);
        (destruct (Z_lt_dec (-149) e1) as [Hbig|Hsmall]; [|lia]);
        specialize (Hm23 Hbig);
        assert (Hd24 : dp = 24)
          by (apply digits2_pos_unique; change (2 ^ (24 - 1)) with 8388608;
              change (2 ^ 24) with 16777216; lia);
        lia.
Qed.

Lemma round32_canonical (x : number) :
  match round32 x with
  | S754_finite _ m F => canonical32 m F /\ F <= 104
  | _ => True
  end.
Proof.
  destruct x as [s|s| |s M E]; cbn [round32]; try exact I.
  unfold binary_round.
  set (e0 := fexp prec32 emax32 (Z.pos (digits2_pos M) + E)).
  unfold shl_align.
  destruct (e0 - E) as [|n|n] eqn:En.
  - pose proof (binary_round_aux32_canonical s M E ltac:(fold e0; lia)) as Hc.
    destruct (binary_round_aux prec32 emax32 s (Z.pos M) E loc_Exact); tauto.
  - pose proof (binary_round_aux32_canonical s M E ltac:(fold e0; lia)) as Hc.
    destruct (binary_round_aux prec32 emax32 s (Z.pos M) E loc_Exact); tauto.
  - assert (Hd : Z.pos (digits2_pos (Pos.iter xO M n)) + e0
                 = Z.pos (digits2_pos M) + E)
      by (rewrite digits2_pos_iter; lia).
    pose proof (binary_round_aux32_canonical s (Pos.iter xO M n) e0
                  ltac:(rewrite Hd; fold e0; lia)) as Hc.
    destruct (binary_round_aux prec32 emax32 s (Z.pos (Pos.iter xO M n)) e0 loc_Exact);
      tauto.
Qed.

(** [Math.fround] is idempotent: what a [Float32Array] holds is stored
    again without change. *)
Lemma fround_is_float32 (x : number) : is_float32 (fround x).
Proof.
  unfold is_float32. unfold fround at 2 3.
  pose proof (round32_canonical x) as Hc.
  destruct (round32 x) as [s|s| |s m F]; try reflexivity.
  destruct Hc as [(Hd & Hmin & Hcan) Hmax].
  apply of32_is_float32; [exact Hd | lia | exact Hcan].
Qed.

(** ** Numbers: the rounding of the arithmetic operations *)

Lemma shr_record_of_loc_m (m : Z) (l : location) : shr_m (shr_record_of_loc m l) = m.
Proof. destruct l as [|[]]; reflexivity. Qed.

Lemma Zdigits2_bounds (m : Z) :
  0 < m -> 2 ^ (Zdigits2 m - 1) <= m < 2 ^ Zdigits2 m.
Proof.
  destruct m as [|p|p]; try lia. intros _. apply digits2_pos_bounds.
Qed.

Lemma Zdigits2_unique (m k : Z) :
  2 ^ (k - 1) <= m < 2 ^ k -> 0 < m -> Zdigits2 m = k.
Proof.
  destruct m as [|p|p]; try lia. intros Hb _. apply digits2_pos_unique. exact Hb.
Qed.

Lemma shr_1_exact_step (m : Z) :
  0 <= m ->
  shr_1 {| shr_m := 2 * m; shr_r := false; shr_s := false |}
  = {| shr_m := m; shr_r := false; shr_s := false |}.
Proof. destruct m as [|p|p]; try lia; reflexivity. Qed.

Lemma iter_shr_1_exact_Z (n : positive) (q : Z) :
  0 <= q ->
  SpecFloat.iter_pos shr_1 n {| shr_m := q * 2 ^ Z.pos n; shr_r := false; shr_s := false |}
  = {| shr_m := q; shr_r := false; shr_s := false |}.
Proof.
  intros Hq. rewrite iter_pos_iter. revert q Hq.
  induction n as [|n IH] using Pos.peano_ind; intros q Hq.
  - cbn [Pos.iter]. replace (q * 2 ^ 1) with (2 * q) by lia.
    apply shr_1_exact_step. exact Hq.
  - rewrite Pos.iter_succ_r.
    replace (q * 2 ^ Z.pos (Pos.succ n)) with (2 * (q * 2 ^ Z.pos n))
      by (rewrite Pos2Z.inj_succ, Z.pow_succ_r by lia; ring).
    rewrite shr_1_exact_step.
    + apply IH. exact Hq.
    + apply Z.mul_nonneg_nonneg; [exact Hq | apply Z.pow_nonneg; lia].
Qed.

Section RoundAux.
Variables prec emax : Z.
Hypothesis Hprec : 0 < prec.


(** The first shift of [binary_round_aux] and the rounding that follows. *)
Lemma shr_fexp_round (mz ez : Z) (l : location) :
  0 <= mz ->
  ez <= fexp prec emax (Zdigits2 mz + ez) ->
  let e1 := fexp prec emax (Zdigits2 mz + ez) in
  let q := mz / 2 ^ (e1 - ez) in
  let res := shr_fexp prec emax mz ez l in
  let R := round_nearest_even (shr_m res.1) (loc_of_shr_record res.1) in
  res.2 = e1 /\ (R = q \/ R = q + 1) /\
  (l = loc_Exact -> mz mod 2 ^ (e1 - ez) = 0 -> R = q) /\
  0 <= q < 2 ^ prec /\
  ((SpecFloat.emin prec emax) < e1 -> 2 ^ (prec - 1) <= q).
Proof.
  intros Hmz Hle e1 q res R.
  assert (Hm : shr_m res.1 = q /\ res.2 = e1 /\
               (l = loc_Exact -> mz mod 2 ^ (e1 - ez) = 0 ->
                loc_of_shr_record res.1 = loc_Exact)).
  { subst res q. unfold shr_fexp. fold e1.
    destruct (e1 - ez) as [|n|n] eqn:En; try lia.
    - cbn [shr fst snd]. rewrite shr_record_of_loc_m, Z.pow_0_r, Z.div_1_r.
      split; [reflexivity|]. split; [lia|]. intros -> _. reflexivity.
    - cbn [shr fst snd]. rewrite iter_shr_1_div by (rewrite shr_record_of_loc_m; exact Hmz).
      rewrite shr_record_of_loc_m. split; [reflexivity|]. split; [lia|].
      intros -> Hmod. cbn [shr_record_of_loc].
      assert (Hpn : 0 < 2 ^ Z.pos n) by (apply Z.pow_pos_nonneg; lia).
      rewrite (Z.div_mod mz (2 ^ Z.pos n)) at 1 by lia. rewrite Hmod, Z.add_0_r.
      rewrite (Z.mul_comm (2 ^ Z.pos n)).
      rewrite iter_shr_1_exact_Z by (apply Z.div_pos; lia). reflexivity. }
  destruct Hm as (Hq & He & Hexact).
  split; [exact He|].
  split; [subst R; rewrite Hq; apply round_nearest_even_step|].
  split.
  { intros Hl Hmod. subst R. rewrite (Hexact Hl Hmod), Hq. reflexivity. }
  assert (He1 : e1 = Z.max (Zdigits2 mz + ez - prec) (SpecFloat.emin prec emax)) by reflexivity.
  assert (Hn : 0 <= e1 - ez) by lia.
  assert (Hpn : 0 < 2 ^ (e1 - ez)) by (apply Z.pow_pos_nonneg; lia).
  destruct (Z.eq_dec mz 0) as [->|Hnz].
  - subst q. rewrite Z.div_0_l by lia.
    split; [split; [lia | apply Z.pow_pos_nonneg; lia]|].
    intros Hbig. cbn [Zdigits2] in He1. lia.
  - pose proof (Zdigits2_bounds mz ltac:(lia)) as [Dlo Dhi].
    set (d := Zdigits2 mz) in *.
    assert (Hd : 0 < d).
    { destruct (Z_lt_dec 0 d) as [|Hn0]; [assumption|exfalso].
      assert (2 ^ d <= 1); [|lia].
      destruct (Z.eq_dec d 0) as [->|]; [cbn; lia|].
      rewrite Z.pow_neg_r by lia. lia. }
    split; [split|].
    + apply Z.div_pos; lia.
    + apply Z.div_lt_upper_bound; [exact Hpn|].
      eapply Z.lt_le_trans; [exact Dhi|].
      rewrite <- Z.pow_add_r by lia. apply Z.pow_le_mono_r; lia.
    + intros Hbig. apply Z.div_le_lower_bound; [exact Hpn|].
      eapply Z.le_trans; [|exact Dlo].
      rewrite <- Z.pow_add_r by lia. apply Z.pow_le_mono_r; lia.
Qed.

(** [binary_round_aux] on a significand that has all the digits the format
    keeps: the rounded significand [R] is the quotient or its successor, and
    the result is zero, or [R] at the exponent of the format, or the next
    power of two when the rounding carries, or an infinity. *)
Lemma binary_round_aux_cases (s : bool) (mz ez : Z) (l : location) :
  0 <= mz ->
  ez <= fexp prec emax (Zdigits2 mz + ez) ->
  let e1 := fexp prec emax (Zdigits2 mz + ez) in
  let q := mz / 2 ^ (e1 - ez) in
  exists R : Z,
    (R = q \/ R = q + 1) /\
    (l = loc_Exact -> mz mod 2 ^ (e1 - ez) = 0 -> R = q) /\
    0 <= R <= 2 ^ prec /\
    ((SpecFloat.emin prec emax) < e1 -> 2 ^ (prec - 1) <= R) /\
    binary_round_aux prec emax s mz ez l
    = (if R =? 0 then S754_zero s
       else if R =? 2 ^ prec then
         if e1 + 1 <=? emax - prec
         then S754_finite s (Z.to_pos (2 ^ (prec - 1))) (e1 + 1)
         else S754_infinity s
       else
         if e1 <=? emax - prec
         then S754_finite s (Z.to_pos R) e1
         else S754_infinity s).
Proof.
  intros Hmz Hle e1 q.
  destruct (shr_fexp_round mz ez l Hmz Hle) as (He & HR & Hexact & [Hq0 Hq1] & Hbig).
  fold e1 q in He, HR, Hexact, Hq0, Hq1, Hbig.
  unfold binary_round_aux.
  destruct (shr_fexp prec emax mz ez l) as [mrs e'] eqn:E1. cbn [fst snd] in *. subst e'.
  set (R := round_nearest_even (shr_m mrs) (loc_of_shr_record mrs)) in *.
  assert (Hmin : (SpecFloat.emin prec emax) <= e1) by (unfold e1, fexp; lia).
  assert (HP : 0 < 2 ^ prec) by (apply Z.pow_pos_nonneg; lia).
  assert (HPh : 2 ^ prec = 2 * 2 ^ (prec - 1)).
  { replace prec with (Z.succ (prec - 1)) at 1 by lia. apply Z.pow_succ_r. lia. }
  exists R. split; [exact HR|]. split; [exact Hexact|].
  split; [lia|]. split; [intros Hb; specialize (Hbig Hb); lia|].
  destruct (R =? 0) eqn:R0.
  { apply Z.eqb_eq in R0. rewrite R0. unfold shr_fexp. cbn [Zdigits2].
    destruct (fexp prec emax (0 + e1) - e1) as [|n|n] eqn:En;
      [reflexivity | unfold fexp in En; lia | reflexivity]. }
  apply Z.eqb_neq in R0.
  destruct (R =? 2 ^ prec) eqn:RP.
  { apply Z.eqb_eq in RP. rewrite RP.
    assert (Hd : Zdigits2 (2 ^ prec) = prec + 1).
    { apply Zdigits2_unique; [|lia].
      replace (prec + 1 - 1) with prec by lia.
      rewrite Z.pow_add_r, Z.pow_1_r by lia. lia. }
    unfold shr_fexp. rewrite Hd.
    replace (fexp prec emax (prec + 1 + e1) - e1) with 1 by (unfold fexp; lia).
    cbn [shr fst snd SpecFloat.iter_pos shr_record_of_loc].
    rewrite shr_1_div2 by (cbn [shr_m]; lia). cbn [shr_m].
    replace (2 ^ prec / 2) with (2 ^ (prec - 1))
      by (rewrite HPh, Z.mul_comm, Z.div_mul by lia; reflexivity).
    assert (Hh : 0 < 2 ^ (prec - 1)) by (apply Z.pow_pos_nonneg; lia).
    destruct (2 ^ (prec - 1)) as [|h|h] eqn:Eh; try lia. reflexivity. }
  apply Z.eqb_neq in RP.
  assert (HRr : 0 < R < 2 ^ prec) by lia.
  pose proof (Zdigits2_bounds R ltac:(lia)) as [Dlo Dhi].
  assert (Hd : Zdigits2 R <= prec).
  { destruct (Z_le_dec (Zdigits2 R) prec) as [|Hn]; [assumption|exfalso].
    assert (2 ^ prec <= 2 ^ (Zdigits2 R - 1)) by (apply Z.pow_le_mono_r; lia). lia. }
  unfold shr_fexp.
  destruct (fexp prec emax (Zdigits2 R + e1) - e1) as [|n|n] eqn:En;
    [| unfold fexp in En; lia |];
    cbn [shr fst snd shr_record_of_loc shr_m];
    (destruct R as [|r|r]; [lia | reflexivity | lia]).
Qed.

(** Rounding a non-negative significand never makes a NaN. *)
Lemma shr_nonneg (r : shr_record) (e n : Z) :
  0 <= shr_m r -> 0 <= shr_m (shr r e n).1.
Proof.
  intros Hr. destruct n as [|n|n]; cbn [shr fst]; try exact Hr.
  rewrite iter_shr_1_div by exact Hr.
  apply Z.div_pos; [exact Hr | apply Z.pow_pos_nonneg; lia].
Qed.

Lemma binary_round_aux_not_nan (s : bool) (mz ez : Z) (l : location) :
  0 <= mz -> binary_round_aux prec emax s mz ez l <> S754_nan.
Proof.
  intros Hmz. unfold binary_round_aux.
  pose proof (shr_nonneg (shr_record_of_loc mz l) ez
                (fexp prec emax (Zdigits2 mz + ez) - ez)
                ltac:(rewrite shr_record_of_loc_m; exact Hmz)) as H1.
  change (shr (shr_record_of_loc mz l) ez (fexp prec emax (Zdigits2 mz + ez) - ez))
    with (shr_fexp prec emax mz ez l) in H1.
  destruct (shr_fexp prec emax mz ez l) as [mrs e']. cbn [fst] in H1.
  set (R := round_nearest_even (shr_m mrs) (loc_of_shr_record mrs)).
  assert (HR : 0 <= R).
  { destruct (round_nearest_even_step (shr_m mrs) (loc_of_shr_record mrs)) as [E|E];
      fold R in E; lia. }
  pose proof (shr_nonneg (shr_record_of_loc R loc_Exact) e'
                (fexp prec emax (Zdigits2 R + e') - e')
                ltac:(rewrite shr_record_of_loc_m; exact HR)) as H2.
  change (shr (shr_record_of_loc R loc_Exact) e' (fexp prec emax (Zdigits2 R + e') - e'))
    with (shr_fexp prec emax R e' loc_Exact) in H2.
  destruct (shr_fexp prec emax R e' loc_Exact) as [mrs2 e2]. cbn [fst] in H2.
  destruct (shr_m mrs2) as [|p|p]; try lia; try discriminate.
  destruct (e2 <=? emax - prec); discriminate.
Qed.

(** The result of [binary_round_aux] on such a significand is a number of
    the format. *)
Lemma binary_round_aux_valid (s : bool) (mz ez : Z) (l : location) :
  0 <= mz ->
  ez <= fexp prec emax (Zdigits2 mz + ez) ->
  valid_binary prec emax (binary_round_aux prec emax s mz ez l) = true.
Proof.
  intros Hmz Hle.
  destruct (binary_round_aux_cases s mz ez l Hmz Hle)
    as (R & _ & _ & [HR0 HRP] & Hbig & ->).
  set (e1 := fexp prec emax (Zdigits2 mz + ez)) in *.
  assert (Hmin : (SpecFloat.emin prec emax) <= e1) by (unfold e1, fexp; lia).
  assert (Hh : 0 < 2 ^ (prec - 1)) by (apply Z.pow_pos_nonneg; lia).
  assert (HPh : 2 ^ prec = 2 * 2 ^ (prec - 1)).
  { replace prec with (Z.succ (prec - 1)) at 1 by lia. apply Z.pow_succ_r. lia. }
  destruct (R =? 0) eqn:R0; [reflexivity|]. apply Z.eqb_neq in R0.
  destruct (R =? 2 ^ prec) eqn:RP.
  - destruct (e1 + 1 <=? emax - prec) eqn:Efit; [|reflexivity].
    cbn [valid_binary]. unfold bounded, canonical_mantissa. rewrite Efit, andb_true_r.
    apply Z.eqb_eq.
    assert (Hd : Z.pos (digits2_pos (Z.to_pos (2 ^ (prec - 1)))) = prec).
    { apply digits2_pos_unique. rewrite Z2Pos.id by lia. lia. }
    rewrite Hd. unfold fexp. lia.
  - apply Z.eqb_neq in RP.
    destruct (e1 <=? emax - prec) eqn:Efit; [|reflexivity].
    cbn [valid_binary]. unfold bounded, canonical_mantissa. rewrite Efit, andb_true_r.
    apply Z.eqb_eq.
    pose proof (digits2_pos_bounds (Z.to_pos R)) as [Dlo Dhi].
    rewrite Z2Pos.id in Dlo, Dhi by lia.
    set (d := Z.pos (digits2_pos (Z.to_pos R))) in *.
    assert (Hd : d <= prec).
    { destruct (Z_le_dec d prec) as [|Hn]; [assumption|exfalso].
      assert (2 ^ prec <= 2 ^ (d - 1)) by (apply Z.pow_le_mono_r; lia). lia. }
    destruct (Z_lt_dec (SpecFloat.emin prec emax) e1) as [Hb|Hs].
    + specialize (Hbig Hb).
      assert (Hdp : d = prec) by (apply digits2_pos_unique; lia).
      unfold fexp. fold (SpecFloat.emin prec emax). unfold e1, fexp in Hb |- *. lia.
    + unfold fexp. lia.
Qed.

Lemma shl_align_fexp_le (m : positive) (e : Z) :
  let '(mz, ez) := shl_align m e (fexp prec emax (Z.pos (digits2_pos m) + e)) in
  ez <= fexp prec emax (Zdigits2 (Z.pos mz) + ez).
Proof.
  set (e0 := fexp prec emax (Z.pos (digits2_pos m) + e)).
  unfold shl_align. destruct (e0 - e) as [|n|n] eqn:En; cbn [Zdigits2]; fold e0; try lia.
  rewrite digits2_pos_iter.
  replace (Z.pos (digits2_pos m) + Z.pos n + e0) with (Z.pos (digits2_pos m) + e) by lia.
  fold e0. lia.
Qed.

Lemma binary_round_valid (s : bool) (m : positive) (e : Z) :
  valid_binary prec emax (binary_round prec emax s m e) = true /\
  binary_round prec emax s m e <> S754_nan.
Proof.
  unfold binary_round. pose proof (shl_align_fexp_le m e) as Hle.
  destruct (shl_align m e (fexp prec emax (Z.pos (digits2_pos m) + e))) as [mz ez].
  split; [apply binary_round_aux_valid | apply binary_round_aux_not_nan];
    first [lia | exact Hle].
Qed.

Lemma binary_normalize_valid (m e : Z) (sz : bool) :
  valid_binary prec emax (binary_normalize prec emax m e sz) = true /\
  binary_normalize prec emax m e sz <> S754_nan.
Proof.
  destruct m as [|p|p]; cbn [binary_normalize];
    [split; [reflexivity | discriminate] | apply binary_round_valid..].
Qed.

End RoundAux.

Section DivCore.
Variables prec emax : Z.
Hypothesis Hprec : 0 < prec.

(** The quotient that [SFdiv] hands to the rounding has all the digits the
    format keeps. *)
Lemma SFdiv_core_binary_digits (m1 m2 : positive) (e1 e2 : Z) :
  let '(q, e', l) := SFdiv_core_binary prec emax (Z.pos m1) e1 (Z.pos m2) e2 in
  0 <= q /\ e' <= fexp prec emax (Zdigits2 q + e').
Proof.
  unfold SFdiv_core_binary. cbn [Zdigits2].
  pose proof (digits2_pos_bounds m1) as [D1lo D1hi].
  pose proof (digits2_pos_bounds m2) as [D2lo D2hi].
  set (d1 := Z.pos (digits2_pos m1)) in *. set (d2 := Z.pos (digits2_pos m2)) in *.
  set (e' := Z.min (fexp prec emax (d1 + e1 - (d2 + e2))) (e1 - e2)).
  set (s := e1 - e2 - e').
  assert (Hs : 0 <= s) by (unfold s, e'; lia).
  set (m' := match s with
             | 0 => Z.pos m1
             | Z.pos _ => Z.shiftl (Z.pos m1) s
             | Z.neg _ => 0
             end).
  assert (Hm' : m' = Z.pos m1 * 2 ^ s).
  { unfold m'. generalize Hs. generalize s. intros [|p|p] Hp; try lia.
    apply Z.shiftl_mul_pow2. lia. }
  pose proof (Z_div_mod m' (Z.pos m2) ltac:(lia)) as Hdiv.
  destruct (Z.div_eucl m' (Z.pos m2)) as [q r]. destruct Hdiv as [Hq Hr].
  assert (Hps : 0 < 2 ^ s) by (apply Z.pow_pos_nonneg; lia).
  assert (Hm0 : 0 < m') by (rewrite Hm'; apply Z.mul_pos_pos; lia).
  assert (Hq0 : 0 <= q).
  { destruct (Z_le_dec 0 q) as [|Hn]; [assumption|exfalso].
    assert (Z.pos m2 * q <= Z.pos m2 * (-1)) by (apply Z.mul_le_mono_nonneg_l; lia).
    lia. }
  split; [exact Hq0|].
  unfold fexp. fold (SpecFloat.emin prec emax).
  set (emin' := SpecFloat.emin prec emax).
  destruct (Z_le_dec e' emin') as [Hsmall|Hbig]; [lia|].
  assert (He' : e' <= d1 + e1 - (d2 + e2) - prec) by (unfold e', fexp in *; lia).
  assert (Hdq : d1 + s - d2 <= Zdigits2 q).
  { set (k := d1 + s - 1 - d2).
    assert (Hk : 0 <= k) by (unfold k, s; lia).
    assert (Hd1 : 0 < d1) by (unfold d1; lia).
    assert (Hd2 : 0 < d2) by (unfold d2; lia).
    assert (HK : 2 ^ k * 2 ^ d2 = 2 ^ (d1 - 1) * 2 ^ s).
    { rewrite <- !Z.pow_add_r by lia. f_equal. unfold k. lia. }
    assert (Hkq : 2 ^ k <= q).
    { assert (Hlt : 2 ^ k * 2 ^ d2 < 2 ^ d2 * (q + 1)) by nia.
      assert (Hp2 : 0 < 2 ^ d2) by (apply Z.pow_pos_nonneg; lia).
      rewrite (Z.mul_comm (2 ^ k)) in Hlt.
      apply Z.mul_lt_mono_pos_l in Hlt; lia. }
    assert (Hqpos : 0 < q).
    { assert (0 < 2 ^ k) by (apply Z.pow_pos_nonneg; lia). lia. }
    pose proof (Zdigits2_bounds q Hqpos) as [_ Qhi].
    destruct (Z_le_dec (d1 + s - d2) (Zdigits2 q)) as [|Hn]; [assumption|exfalso].
    assert (2 ^ Zdigits2 q <= 2 ^ k).
    { apply Z.pow_le_mono_r; [lia|]. unfold k. lia. }
    lia. }
  unfold s in Hdq. lia.
Qed.

End DivCore.

(** ** Numbers: the operations return numbers in normal form, and no NaN
    from other numbers *)

Lemma add_valid (x y : number) : valid64 x -> valid64 y -> valid64 (add x y).
Proof.
  unfold valid64, add.
  destruct x as [sx|sx| |sx mx ex], y as [sy|sy| |sy my ey]; intros Hx Hy;
    cbn [SFadd]; try assumption; try reflexivity;
    try (destruct sx, sy; reflexivity).
  apply (binary_normalize_valid prec64 emax64); reflexivity.
Qed.

Lemma add_finite_valid (s : bool) (m : positive) (e : Z) (y : number) :
  valid64 (S754_finite s m e) -> valid64 (add (S754_finite s m e) y).
Proof.
  unfold valid64, add. intros Hx.
  destruct y as [sy|sy| |sy my ey]; cbn [SFadd]; try assumption; try reflexivity.
  apply (binary_normalize_valid prec64 emax64); reflexivity.
Qed.

Lemma add_not_nan (x : number) (s : bool) (m : positive) (e : Z) :
  isNaN (add x (S754_finite s m e)) = isNaN x.
Proof.
  unfold add. destruct x as [sx|sx| |sx mx ex]; cbn [SFadd isNaN]; try reflexivity.
  pose proof (proj2 (binary_normalize_valid prec64 emax64 ltac:(reflexivity)
                       (cond_Zopp sx (Z.pos (shl_align mx ex (Z.min ex e)).1)
                        + cond_Zopp s (Z.pos (shl_align m e (Z.min ex e)).1))
                       (Z.min ex e) false)) as Hn.
  destruct (binary_normalize _ _ _ _ _); try reflexivity. contradiction Hn. reflexivity.
Qed.

Lemma mul_not_nan (x : number) (s : bool) (m : positive) (e : Z) :
  isNaN (mul x (S754_finite s m e)) = isNaN x.
Proof.
  unfold mul. destruct x as [sx|sx| |sx mx ex]; cbn [SFmul isNaN]; try reflexivity.
  pose proof (binary_round_aux_not_nan prec64 emax64 (xorb sx s)
                (Z.pos (mx * m)) (ex + e) loc_Exact ltac:(lia)) as Hn.
  destruct (binary_round_aux _ _ _ _ _ _); try reflexivity. contradiction Hn. reflexivity.
Qed.

Lemma div_valid (x y : number) : valid64 (div x y).
Proof.
  unfold valid64, div.
  destruct x as [sx|sx| |sx mx ex], y as [sy|sy| |sy my ey]; cbn [SFdiv];
    try reflexivity.
  pose proof (SFdiv_core_binary_digits prec64 emax64 ltac:(reflexivity) mx my ex ey)
    as Hcore.
  destruct (SFdiv_core_binary prec64 emax64 (Z.pos mx) ex (Z.pos my) ey) as [[q e'] l].
  destruct Hcore as [Hq He].
  apply binary_round_aux_valid; [reflexivity | exact Hq | exact He].
Qed.

Lemma div_not_nan (x : number) (s : bool) (m : positive) (e : Z) :
  isNaN (div x (S754_finite s m e)) = isNaN x.
Proof.
  unfold div. destruct x as [sx|sx| |sx mx ex]; cbn [SFdiv isNaN]; try reflexivity.
  pose proof (SFdiv_core_binary_digits prec64 emax64 ltac:(reflexivity) mx m ex e)
    as Hcore.
  destruct (SFdiv_core_binary prec64 emax64 (Z.pos mx) ex (Z.pos m) e) as [[q e'] l].
  destruct Hcore as [Hq _].
  pose proof (binary_round_aux_not_nan prec64 emax64 (xorb sx s) q e' l Hq) as Hn.
  destruct (binary_round_aux _ _ _ _ _ _); try reflexivity. contradiction Hn. reflexivity.
Qed.

Lemma add_finite_isNaN (s : bool) (m : positive) (e : Z) (y : number) :
  isNaN (add (S754_finite s m e) y) = isNaN y.
Proof.
  unfold add. destruct y as [sy|sy| |sy my ey]; cbn [SFadd isNaN]; try reflexivity.
  pose proof (proj2 (binary_normalize_valid prec64 emax64 ltac:(reflexivity)
                       (cond_Zopp s (Z.pos (shl_align m e (Z.min e ey)).1)
                        + cond_Zopp sy (Z.pos (shl_align my ey (Z.min e ey)).1))
                       (Z.min e ey) false)) as Hn.
  destruct (binary_normalize _ _ _ _ _); try reflexivity. contradiction Hn. reflexivity.
Qed.

Lemma div_finite_isNaN (s : bool) (m : positive) (e : Z) (y : number) :
  isNaN (div (S754_finite s m e) y) = isNaN y.
Proof.
  unfold div. destruct y as [sy|sy| |sy my ey]; cbn [SFdiv isNaN]; try reflexivity.
  pose proof (SFdiv_core_binary_digits prec64 emax64 ltac:(reflexivity) m my e ey)
    as Hcore.
  destruct (SFdiv_core_binary prec64 emax64 (Z.pos m) e (Z.pos my) ey) as [[q e'] l].
  destruct Hcore as [Hq _].
  pose proof (binary_round_aux_not_nan prec64 emax64 (xorb s sy) q e' l Hq) as Hn.
  destruct (binary_round_aux _ _ _ _ _ _); try reflexivity. contradiction Hn. reflexivity.
Qed.

(** ** Numbers: the order, [Math.min], [Math.max] and the clamp *)

Lemma le_finite_pos (m1 m2 : positive) (e1 e2 : Z) :
  le (S754_finite false m1 e1) (S754_finite false m2 e2) = true <->
  e1 < e2 \/ (e1 = e2 /\ Z.pos m1 <= Z.pos m2).
Proof.
  unfold le, SFleb. cbn [SFcompare].
  change PosDef.Pos.compare_cont with Pos.compare_cont.
  change (Pos.compare_cont Eq m1 m2) with (Pos.compare m1 m2).
  destruct (Z.compare_spec e1 e2) as [He|He|He].
  - destruct (Pos.compare_spec m1 m2) as [Hm|Hm|Hm];
      split; intros Hx; try reflexivity; try discriminate Hx; lia.
  - split; intros Hx; [lia | reflexivity].
  - split; intros Hx; [discriminate Hx | lia].
Qed.

Lemma le_lower_bound_weaken (m1 m2 : positive) (e : Z) (x : number) :
  Z.pos m1 <= Z.pos m2 ->
  le (S754_finite false m2 e) x = true -> le (S754_finite false m1 e) x = true.
Proof.
  intros Hm. destruct x as [s|s| |s m ex]; try (intros Hx; exact Hx).
  destruct s; [intros Hx; exact Hx|].
  rewrite !le_finite_pos. lia.
Qed.

Lemma Math_min_cases (a b : number) : Math_min a b = a \/ Math_min a b = b.
Proof.
  unfold Math_min.
  destruct a as [sa|sa| |sa ma ea], b as [sb|sb| |sb mb eb]; auto;
    match goal with |- context [if lt ?x ?y then _ else _] => destruct (lt x y) end;
    auto;
    match goal with |- context [if lt ?x ?y then _ else _] => destruct (lt x y) end;
    auto; destruct sa; auto.
Qed.

Lemma Math_max_cases (a b : number) : Math_max a b = a \/ Math_max a b = b.
Proof.
  unfold Math_max.
  destruct a as [sa|sa| |sa ma ea], b as [sb|sb| |sb mb eb]; auto;
    match goal with |- context [if lt ?x ?y then _ else _] => destruct (lt x y) end;
    auto;
    match goal with |- context [if lt ?x ?y then _ else _] => destruct (lt x y) end;
    auto; destruct sa; auto.
Qed.

(** The clamp returns one of its three arguments. *)
Lemma clamp_cases (lo hi x : number) :
  clamp lo hi x = lo \/ clamp lo hi x = hi \/ clamp lo hi x = x.
Proof.
  unfold clamp.
  destruct (Math_max_cases lo (Math_min hi x)) as [E|E]; rewrite E; [auto|].
  destruct (Math_min_cases hi x) as [E'|E']; rewrite E'; auto.
Qed.

Lemma isNaN_Math_min (a b : number) :
  isNaN (Math_min a b) = isNaN a || isNaN b.
Proof.
  destruct (Math_min_cases a b) as [E|E];
    destruct a as [sa|sa| |sa ma ea], b as [sb|sb| |sb mb eb];
    try reflexivity; rewrite E; reflexivity.
Qed.

Lemma isNaN_Math_max (a b : number) :
  isNaN (Math_max a b) = isNaN a || isNaN b.
Proof.
  destruct (Math_max_cases a b) as [E|E];
    destruct a as [sa|sa| |sa ma ea], b as [sb|sb| |sb mb eb];
    try reflexivity; rewrite E; reflexivity.
Qed.

(** With bounds that are numbers, the clamp is NaN exactly on NaN. *)
Lemma isNaN_clamp (lo hi x : number) :
  isNaN lo = false -> isNaN hi = false -> isNaN (clamp lo hi x) = isNaN x.
Proof.
  intros Hlo Hhi. unfold clamp.
  rewrite isNaN_Math_max, isNaN_Math_min, Hlo, Hhi. reflexivity.
Qed.

(** ** Numbers: what a store into a [Float32Array] does to a double *)

Lemma fround_isNaN (x : number) : isNaN (fround x) = isNaN x.
Proof.
  destruct x as [s|s| |s m e]; try reflexivity.
  unfold fround. cbn [round32 isNaN].
  pose proof (proj2 (binary_round_valid prec32 emax32 ltac:(reflexivity) s m e)) as H1.
  destruct (binary_round prec32 emax32 s m e) as [s'|s'| |s' m' e'];
    try reflexivity; [contradiction H1; reflexivity|].
  cbn [of32].
  pose proof (proj2 (binary_round_valid prec64 emax64 ltac:(reflexivity) s' m' e')) as H2.
  destruct (binary_round prec64 emax64 s' m' e'); try reflexivity.
  contradiction H2; reflexivity.
Qed.

Lemma fround_valid (x : number) : valid64 (fround x).
Proof.
  unfold valid64, fround.
  destruct (round32 x) as [s|s| |s m e]; try reflexivity.
  cbn [of32]. apply binary_round_valid. reflexivity.
Qed.

Lemma is_float32_valid (x : number) : is_float32 x -> valid64 x.
Proof. intros Hx. rewrite <- Hx. apply fround_valid. Qed.

Lemma valid64_finite (s : bool) (m : positive) (e : Z) :
  valid64 (S754_finite s m e) ->
  Z.pos (digits2_pos m) <= 53 /\ -1074 <= e <= 971 /\
  (-1074 < e -> Z.pos (digits2_pos m) = 53).
Proof.
  unfold valid64. cbn [valid_binary]. unfold bounded, canonical_mantissa.
  intros Hv. apply andb_prop in Hv as [Hc He].
  apply Z.eqb_eq in Hc. apply Z.leb_le in He.
  unfold fexp, SpecFloat.emin, prec64, emax64 in *. lia.
Qed.

Lemma round32_valid64 (s : bool) (m : positive) (e : Z) :
  valid64 (S754_finite s m e) ->
  round32 (S754_finite s m e)
  = binary_round_aux prec32 emax32 s (Z.pos m) e loc_Exact.
Proof.
  intros Hv. destruct (valid64_finite s m e Hv) as (Hd & He & Hn).
  cbn [round32]. unfold binary_round, shl_align.
  assert (Hge : 0 <= fexp prec32 emax32 (Z.pos (digits2_pos m) + e) - e)
    by (unfold fexp, SpecFloat.emin, prec32, emax32; lia).
  destruct (fexp prec32 emax32 (Z.pos (digits2_pos m) + e) - e) as [|n|n];
    [reflexivity | reflexivity | lia].
Qed.

(** The binary32 nearest to a double in normal form: in the normal range of
    binary32 the significand keeps 24 bits, rounded to nearest, and a carry
    moves to the next exponent; below it the result is zero or at most the
    least normal number. *)
Lemma fround_finite_cases (s : bool) (m : positive) (e : Z) :
  valid64 (S754_finite s m e) ->
  let q := Z.pos m / 2 ^ 29 in
  (-178 <= e ->
     (fround (S754_finite s m e) = S754_infinity s /\ 75 <= e) \/
     (fround (S754_finite s m e) = S754_finite s 4503599627370496 (e + 1) /\
      q = 2 ^ 24 - 1 /\ Z.pos m mod 2 ^ 29 <> 0) \/
     (exists R : Z,
        (R = q \/ R = q + 1) /\ (Z.pos m mod 2 ^ 29 = 0 -> R = q) /\
        2 ^ 23 <= R < 2 ^ 24 /\
        fround (S754_finite s m e) = S754_finite s (Z.to_pos (R * 2 ^ 29)) e)) /\
  (e < -178 ->
     fround (S754_finite s m e) = S754_zero s \/
     exists (M : positive) (E : Z),
       fround (S754_finite s m e) = S754_finite s M E /\
       (E < -178 \/ (E = -178 /\ M = 4503599627370496%positive))).
Proof.
  intros Hv q. destruct (valid64_finite s m e Hv) as (Hd & He & Hn).
  pose proof (digits2_pos_bounds m) as [Dlo Dhi].
  set (d := Z.pos (digits2_pos m)) in *.
  unfold fround. rewrite (round32_valid64 s m e Hv).
  assert (Hfe : e <= fexp prec32 emax32 (Zdigits2 (Z.pos m) + e)).
  { cbn [Zdigits2]. fold d. unfold fexp, SpecFloat.emin, prec32, emax32. lia. }
  destruct (binary_round_aux_cases prec32 emax32 ltac:(reflexivity) s (Z.pos m) e
              loc_Exact ltac:(lia) Hfe)
    as (R & HR & Hexact & [HR0 HRP] & _ & ->).
  cbn [Zdigits2] in *. fold d in HR, Hexact |- *.
  change (2 ^ prec32) with 16777216 in *.
  change (emax32 - prec32) with 104.
  change (Z.to_pos (2 ^ (prec32 - 1))) with 8388608%positive.
  split.
  - intros Hbig.
    assert (Hd53 : d = 53) by (apply Hn; lia).
    assert (He1 : fexp prec32 emax32 (d + e) = e + 29)
      by (rewrite Hd53; unfold fexp, SpecFloat.emin, prec32, emax32; lia).
    rewrite He1 in *.
    replace (e + 29 - e) with 29 in * by lia.
    fold q in HR, Hexact.
    assert (Hq : 2 ^ 23 <= q < 2 ^ 24).
    { rewrite Hd53 in Dlo, Dhi. unfold q.
      change (2 ^ (53 - 1)) with (2 ^ 23 * 2 ^ 29) in Dlo.
      change (2 ^ 53) with (2 ^ 24 * 2 ^ 29) in Dhi.
      split.
      - apply Z.div_le_lower_bound; lia.
      - apply Z.div_lt_upper_bound; lia. }
    change (2 ^ 23) with 8388608 in *. change (2 ^ 24) with 16777216 in *.
    replace (R =? 0) with false by (symmetry; apply Z.eqb_neq; lia).
    destruct (R =? 16777216) eqn:ER.
    + destruct (e + 29 + 1 <=? 104) eqn:Efit.
      * apply Z.leb_le in Efit. right; left.
        apply Z.eqb_eq in ER.
        split; [|split; [lia | intros E0; specialize (Hexact eq_refl E0); lia]].
        rewrite (of32_canonical s 8388608 (e + 29 + 1)) by (cbn; lia).
        cbn. f_equal. lia.
      * apply Z.leb_gt in Efit. left. split; [reflexivity | lia].
    + apply Z.eqb_neq in ER.
      destruct (e + 29 <=? 104) eqn:Efit.
      * apply Z.leb_le in Efit. right; right. exists R.
        split; [exact HR|]. split; [exact (Hexact eq_refl)|]. split; [lia|].
        assert (HdR : Z.pos (digits2_pos (Z.to_pos R)) = 24).
        { apply digits2_pos_unique. rewrite Z2Pos.id by lia.
          change (2 ^ (24 - 1)) with 8388608. change (2 ^ 24) with 16777216. lia. }
        rewrite (of32_canonical s (Z.to_pos R) (e + 29)) by lia.
        rewrite HdR. change (Z.to_pos (53 - 24)) with 29%positive.
        f_equal; [|lia].
        apply Pos2Z.inj. rewrite pos_iter_xO_mul, !Z2Pos.id by lia. reflexivity.
      * apply Z.leb_gt in Efit. left. split; [reflexivity | lia].
  - intros Hsmall.
    assert (He1 : fexp prec32 emax32 (d + e) = -149)
      by (unfold fexp, SpecFloat.emin, prec32, emax32; lia).
    rewrite He1 in *.
    assert (Hq : Z.pos m / 2 ^ (-149 - e) < 2 ^ 23).
    { apply Z.div_lt_upper_bound; [apply Z.pow_pos_nonneg; lia|].
      assert (Hm : Z.pos m < 2 ^ 53).
      { eapply Z.lt_le_trans; [exact Dhi|]. apply Z.pow_le_mono_r; lia. }
      assert (Hp : 2 ^ 30 <= 2 ^ (-149 - e)) by (apply Z.pow_le_mono_r; lia).
      change (2 ^ 53) with (2 ^ 30 * 2 ^ 23) in Hm. nia. }
    change (2 ^ 23) with 8388608 in *.
    destruct (R =? 0) eqn:R0; [left; reflexivity|]. apply Z.eqb_neq in R0.
    replace (R =? 16777216) with false by (symmetry; apply Z.eqb_neq; lia).
    change (-149 <=? 104) with true. cbv iota.
    right.
    pose proof (digits2_pos_bounds (Z.to_pos R)) as [Rlo Rhi].
    rewrite Z2Pos.id in Rlo, Rhi by lia.
    set (dR := Z.pos (digits2_pos (Z.to_pos R))) in *.
    assert (HdR : dR <= 24).
    { destruct (Z_le_dec dR 24) as [|Hc]; [assumption|exfalso].
      assert (2 ^ 24 <= 2 ^ (dR - 1)) by (apply Z.pow_le_mono_r; lia).
      change (2 ^ 24) with 16777216 in *. lia. }
    rewrite (of32_canonical s (Z.to_pos R) (-149)) by (fold dR; lia).
    fold dR. eexists _, _. split; [reflexivity|].
    destruct (Z.eq_dec dR 24) as [E24|N24]; [right | left; lia].
    split; [lia|].
    rewrite E24 in Rlo. change (2 ^ (24 - 1)) with 8388608 in Rlo.
    assert (ER : R = 8388608) by lia.
    rewrite E24, ER. reflexivity.
Qed.

Lemma fround_le_zero (x : number) :
  valid64 x -> le (ofZ 0) x = true -> le (ofZ 0) (fround x) = true.
Proof.
  intros Hv Hx. destruct x as [s|s| |s m e]; try exact Hx.
  destruct s; [discriminate Hx|].
  destruct (fround_finite_cases false m e Hv) as [Hbig Hsmall].
  destruct (Z_le_dec (-178) e) as [Hc|Hc].
  - destruct (Hbig Hc) as [[-> _]|[[-> _]|(R & _ & _ & _ & ->)]]; reflexivity.
  - destruct (Hsmall ltac:(lia)) as [->|(M & E & -> & _)]; reflexivity.
Qed.

(** Rounding to binary32 does not cross a normal binary32 number. *)
Lemma fround_le_upper (x : number) (qb eb : Z) :
  2 ^ 23 <= qb < 2 ^ 24 -> -178 <= eb <= 74 ->
  valid64 x ->
  le x (S754_finite false (Z.to_pos (qb * 2 ^ 29)) eb) = true ->
  le (fround x) (S754_finite false (Z.to_pos (qb * 2 ^ 29)) eb) = true.
Proof.
  intros Hqb Heb Hv Hx.
  change (2 ^ 23) with 8388608 in *. change (2 ^ 24) with 16777216 in *.
  change (2 ^ 29) with 536870912 in *.
  destruct x as [s|s| |s m e]; try exact Hx.
  destruct (fround_finite_cases s m e Hv) as [Hbig Hsmall].
  change (2 ^ 29) with 536870912 in *.
  destruct s.
  { destruct (Z_le_dec (-178) e) as [Hc|Hc].
    - destruct (Hbig Hc) as [[-> _]|[[-> _]|(R & _ & _ & _ & ->)]]; reflexivity.
    - destruct (Hsmall ltac:(lia)) as [->|(M & E & -> & _)]; reflexivity. }
  apply le_finite_pos in Hx. rewrite Z2Pos.id in Hx by lia.
  destruct (Z_le_dec (-178) e) as [Hc|Hc].
  - pose proof (Z.div_mod (Z.pos m) 536870912 ltac:(lia)) as Hdm.
    pose proof (Z.mod_pos_bound (Z.pos m) 536870912 ltac:(lia)) as Hmod.
    destruct (Hbig Hc) as [[_ Hinf]|[(-> & Hq & Hne)|(R & HR & Hexact & HR24 & ->)]].
    + lia.
    + apply le_finite_pos. rewrite Z2Pos.id by lia. lia.
    + apply le_finite_pos. rewrite !Z2Pos.id by lia.
      destruct Hx as [Hx|[Hx Hm]]; [left; exact Hx|right].
      split; [exact Hx|].
      destruct (Z.eq_dec (Z.pos m mod 536870912) 0) as [E0|N0].
      * rewrite (Hexact E0). lia.
      * destruct HR as [->| ->]; lia.
  - destruct (Hsmall ltac:(lia)) as [->|(M & E & -> & HE)]; [reflexivity|].
    apply le_finite_pos. rewrite Z2Pos.id by lia.
    destruct HE as [HE|[HE ->]]; lia.
Qed.

Lemma fround_le_lower (x : number) (qb eb : Z) :
  2 ^ 23 <= qb < 2 ^ 24 -> -178 <= eb <= 74 ->
  valid64 x ->
  le (S754_finite false (Z.to_pos (qb * 2 ^ 29)) eb) x = true ->
  le (S754_finite false (Z.to_pos (qb * 2 ^ 29)) eb) (fround x) = true.
Proof.
  intros Hqb Heb Hv Hx.
  change (2 ^ 23) with 8388608 in *. change (2 ^ 24) with 16777216 in *.
  change (2 ^ 29) with 536870912 in *.
  destruct x as [s|s| |s m e]; try exact Hx.
  destruct s; [discriminate Hx|].
  destruct (fround_finite_cases false m e Hv) as [Hbig _].
  change (2 ^ 23) with 8388608 in *. change (2 ^ 24) with 16777216 in *.
  change (2 ^ 29) with 536870912 in *.
  apply le_finite_pos in Hx. rewrite Z2Pos.id in Hx by lia.
  destruct (Hbig ltac:(lia)) as [[-> _]|[[-> _]|(R & HR & _ & HR24 & ->)]].
  - reflexivity.
  - apply le_finite_pos. rewrite Z2Pos.id by lia. lia.
  - apply le_finite_pos. rewrite !Z2Pos.id by lia.
    destruct Hx as [Hx|[Hx Hm]]; [left; exact Hx|right].
    split; [exact Hx|].
    assert (Hq : qb <= Z.pos m / 536870912)
      by (apply Z.div_le_lower_bound; lia).
    destruct HR as [->| ->]; lia.
Qed.

(** ** Half-precision decoder *)

Lemma land_below (a b k : Z) :
  0 <= a -> 0 < b -> Z.log2 b < k -> 0 <= Z.land a b < 2 ^ k.
Proof.
  intros Ha Hb Hk.
  assert (Hn : 0 <= Z.land a b) by (apply Z.land_nonneg; lia).
  split; [exact Hn|].
  destruct (Z.eq_dec (Z.land a b) 0) as [E|E].
  - rewrite E. apply Z.pow_pos_nonneg; [lia|]. pose proof (Z.log2_nonneg b). lia.
  - apply Z.log2_lt_pow2; [lia|].
    pose proof (Z.log2_land a b Ha ltac:(lia)). lia.
Qed.

Lemma half_fields_range (fp16 : Z) :
  0 <= fp16 < 65536 ->
  0 <= sign_field fp16 <= 1 /\
  0 <= exponent_field fp16 <= 31 /\
  0 <= fraction_field fp16 <= 1023.
Proof.
  intros Hr. unfold sign_field, exponent_field, fraction_field.
  rewrite !Z.shiftr_div_pow2 by lia.
  pose proof (land_below fp16 0x8000 16 ltac:(lia) ltac:(lia) ltac:(reflexivity)) as H1.
  pose proof (land_below fp16 0x7c00 15 ltac:(lia) ltac:(lia) ltac:(reflexivity)) as H2.
  pose proof (land_below fp16 0x03ff 10 ltac:(lia) ltac:(lia) ltac:(reflexivity)) as H3.
  change (2 ^ 16) with 65536 in H1. change (2 ^ 15) with 32768 in *.
  change (2 ^ 10) with 1024 in *.
  repeat split; try lia.
  - apply Z.div_pos; lia.
  - apply Z.lt_succ_r, Z.div_lt_upper_bound; lia.
  - apply Z.div_pos; lia.
  - apply Z.lt_succ_r, Z.div_lt_upper_bound; lia.
Qed.

Lemma fraction_check_all :
  forallb fraction_check (map Z.of_nat (seq 0 1024)) = true.
Proof. vm_compute. reflexivity. Qed.

Lemma scale_check_all : forallb scale_check (map Z.of_nat (seq 0 62)) = true.
Proof. vm_compute. reflexivity. Qed.

Lemma scale_value (s e : Z) :
  0 <= s <= 1 -> 0 <= e <= 30 ->
  mul (sign_factor s) (pow2 (e - 15))
  = S754_finite (negb (s =? 0)) 4503599627370496 (e - 15 - 52).
Proof.
  intros Hs He.
  pose proof (forallb_range scale_check 62 scale_check_all (s * 31 + e)) as Hc.
  unfold scale_check in Hc.
  replace ((s * 31 + e) / 31) with s in Hc.
  2:{ rewrite Z.div_add_l by lia. rewrite Z.div_small by lia. lia. }
  replace ((s * 31 + e) mod 31) with e in Hc.
  2:{ rewrite Z.add_comm, Z.mod_add by lia. symmetry. apply Z.mod_small. lia. }
  apply spec_float_eqb_eq, Hc. lia.
Qed.

Lemma fraction_facts (f : Z) :
  0 <= f <= 1023 ->
  significand f = S754_finite false (significand_expected f) (-52) /\
  digits2_pos (significand_expected f) = 53%positive /\
  (f <> 0 ->
   exists M e, div (ofZ f) (pow2 10) = S754_finite false M e /\
     digits2_pos M = 53%positive /\ -1000 <= e < 0 /\
     Z.pos M * 1024 = f * 2 ^ (- e)).
Proof.
  intros Hf.
  pose proof (forallb_range fraction_check 1024 fraction_check_all f ltac:(lia)) as Hc.
  unfold fraction_check in Hc.
  apply andb_prop in Hc as [Hc Hd]. apply andb_prop in Hc as [Ha Hb].
  split; [exact (spec_float_eqb_eq _ _ Ha)|].
  split; [apply Pos.eqb_eq, Hb|].
  intros Hnz. apply Z.eqb_neq in Hnz. rewrite Hnz in Hd.
  destruct (div (ofZ f) (pow2 10)) as [| | |[] M e]; try discriminate.
  repeat (apply andb_prop in Hd as [Hd ?]).
  exists M, e. split; [reflexivity|].
  split; [apply Pos.eqb_eq; assumption|].
  split; [lia|]. apply Z.eqb_eq; assumption.
Qed.

Lemma Qpower2_split (a b : Z) : (2 ^ (a + b) == 2 ^ a * 2 ^ b)%Q.
Proof. apply Qpower_plus. discriminate. Qed.

Lemma Qpower2_neg (e : Z) :
  e < 0 -> (2 ^ e == 1 / inject_Z (2 ^ (- e)))%Q.
Proof.
  intros He.
  replace e with (- (- e)) at 1 by lia.
  rewrite Qpower_opp.
  rewrite Zpower_Qpower by lia.
  change (inject_Z 2) with 2%Q. field.
  apply Qpower_not_0. discriminate.
Qed.

Lemma toQ_finite (s : bool) (M : positive) (e : Z) :
  (toQ (S754_finite s M e)
   == (if s then -1 else 1) * inject_Z (Z.pos M) * 2 ^ e)%Q.
Proof. reflexivity. Qed.

Lemma half_normal_value (fp16 : Z) :
  0 <= fp16 < 65536 ->
  exponent_field fp16 <> 0 -> exponent_field fp16 <> 31 ->
  isFinite (float16ToFloat32 fp16) = true /\
  (toQ (float16ToFloat32 fp16)
   == sign_value fp16 * 2 ^ (exponent_field fp16 - 15)
      * (1 + inject_Z (fraction_field fp16) / 1024))%Q.
Proof.
  intros Hr He0 He31.
  destruct (half_fields_range fp16 Hr) as (Hs & He & Hf).
  unfold float16ToFloat32, sign_value.
  apply Z.eqb_neq in He0, He31. rewrite He0, He31.
  rewrite scale_value by (apply Z.eqb_neq in He0, He31; lia).
  destruct (fraction_facts (fraction_field fp16) Hf) as (Hsig & Hdig & _).
  unfold significand in Hsig. rewrite Hsig.
  apply Z.eqb_neq in He0, He31.
  rewrite mul_pow2_l by (try assumption; lia).
  split; [reflexivity|].
  rewrite toQ_finite.
  unfold significand_expected.
  rewrite Z2Pos.id by lia.
  rewrite inject_Z_mult, inject_Z_plus.
  replace (exponent_field fp16 - 15 - 52 + -52 + 52)
    with ((exponent_field fp16 - 15) + (-52)) by lia.
  rewrite Qpower2_split.
  rewrite Bool.xorb_false_r.
  set (P := (2 ^ (exponent_field fp16 - 15))%Q).
  set (F := inject_Z (fraction_field fp16)).
  change (2 ^ (-52))%Q with (1 # 4503599627370496)%Q.
  change (inject_Z (2 ^ 42)) with (4398046511104 # 1)%Q.
  change (inject_Z 1024) with (1024 # 1)%Q.
  destruct (sign_field fp16 =? 0); simpl negb; cbv iota; field.
Qed.

Lemma half_subnormal_value (fp16 : Z) :
  0 <= fp16 < 65536 ->
  exponent_field fp16 = 0 -> fraction_field fp16 <> 0 ->
  isFinite (float16ToFloat32 fp16) = true /\
  (toQ (float16ToFloat32 fp16)
   == sign_value fp16 * 2 ^ (-14) * (inject_Z (fraction_field fp16) / 1024))%Q.
Proof.
  intros Hr He0 Hf0.
  destruct (half_fields_range fp16 Hr) as (Hs & He & Hf).
  unfold float16ToFloat32, sign_value.
  rewrite He0. apply Z.eqb_neq in Hf0. rewrite Hf0. apply Z.eqb_neq in Hf0.
  change (0 =? 0) with true. cbv iota.
  change (pow2 (-14)) with (pow2 (1 - 15)).
  rewrite scale_value by lia.
  destruct (fraction_facts (fraction_field fp16) Hf) as (_ & _ & Hd).
  destruct (Hd Hf0) as (M & e & Hdiv & Hdig & Hrange & Hval).
  rewrite Hdiv.
  rewrite mul_pow2_l by (try assumption; lia).
  split; [reflexivity|].
  rewrite toQ_finite, Bool.xorb_false_r.
  replace (1 - 15 - 52 + e + 52) with (-14 + e) by lia.
  rewrite Qpower2_split, (Qpower2_neg e) by lia.
  assert (Hq : (inject_Z (Z.pos M) * 1024
                == inject_Z (fraction_field fp16) * inject_Z (2 ^ (- e)))%Q).
  { change 1024%Q with (inject_Z 1024).
    rewrite <- !inject_Z_mult. rewrite Hval. reflexivity. }
  assert (Hp : ~ (inject_Z (2 ^ (- e)) == 0)%Q).
  { change 0%Q with (inject_Z 0). rewrite inject_Z_injective.
    apply Z.pow_nonzero; lia. }
  set (P := inject_Z (2 ^ (- e))) in *.
  set (F := inject_Z (fraction_field fp16)) in *.
  set (X := inject_Z (Z.pos M)) in *.
  assert (HX : (X == F * P / 1024)%Q) by (rewrite <- Hq; field).
  rewrite HX.
  destruct (sign_field fp16 =? 0); simpl negb; cbv iota; field; exact Hp.
Qed.

(** C3, as stated, fails: on the pattern 0x8000 (sign bit set, exponent and
    mantissa zero) the decoder returns +0, not the zero that carries the
    sign bit. *)
Lemma float16ToFloat32_zero_not_signed :
  ~ (forall fp16 : Z, 0 <= fp16 < 65536 ->
       exponent_field fp16 = 0 -> fraction_field fp16 = 0 ->
       float16ToFloat32 fp16 = signed_zero fp16).
Proof.
  intros Hclaim.
  specialize (Hclaim 0x8000 ltac:(lia) eq_refl eq_refl).
  vm_compute in Hclaim. discriminate Hclaim.
Qed.

(** C3 (amended): for every 16-bit pattern the decoder returns +0 when the
    exponent field and the mantissa are 0, whatever the sign bit; the
    subnormal value sign * 2^-14 * (mantissa/1024) when the exponent field is
    0 and the mantissa is not; +65504 or -65504, by the sign bit, when the
    exponent field is 31, whatever the mantissa; and
    sign * 2^(exponent-15) * (1 + mantissa/1024) otherwise.  In particular
    0x3C00 gives 1, 0x0000 gives 0, 0xC000 gives -2, 0x7C00 gives 65504 and
    0xFC00 gives -65504. *)
Theorem float16ToFloat32_cases (fp16 : Z) :
  0 <= fp16 < 65536 ->
  let e := exponent_field fp16 in
  let m := fraction_field fp16 in
  let r := float16ToFloat32 fp16 in
  (e = 0 -> m = 0 -> r = S754_zero false) /\
  (e = 0 -> m <> 0 ->
     isFinite r = true /\
     (toQ r == sign_value fp16 * 2 ^ (-14) * (inject_Z m / 1024))%Q) /\
  (e = 31 -> r = if sign_field fp16 =? 0 then ofZ 65504 else ofZ (-65504)) /\
  (e <> 0 -> e <> 31 ->
     isFinite r = true /\
     (toQ r == sign_value fp16 * 2 ^ (e - 15) * (1 + inject_Z m / 1024))%Q) /\
  float16ToFloat32 0x3C00 = ofZ 1 /\
  float16ToFloat32 0x0000 = ofZ 0 /\
  float16ToFloat32 0xC000 = ofZ (-2) /\
  float16ToFloat32 0x7C00 = ofZ 65504 /\
  float16ToFloat32 0xFC00 = ofZ (-65504).
Proof.
  intros Hr e m r. subst e m r.
  split; [|split; [|split; [|split]]].
  - intros He Hm. unfold float16ToFloat32. rewrite He, Hm. reflexivity.
  - intros He Hm. apply half_subnormal_value; assumption.
  - intros He. unfold float16ToFloat32. rewrite He. reflexivity.
  - intros He0 He31. apply half_normal_value; assumption.
  - repeat split; vm_compute; reflexivity.
Qed.

Lemma float16ToFloat32_cases_witness :
  0 <= 0x3555 < 65536 /\
  isFinite (float16ToFloat32 0x3555) = true /\
  (toQ (float16ToFloat32 0x3555)
   == sign_value 0x3555 * 2 ^ (exponent_field 0x3555 - 15)
      * (1 + inject_Z (fraction_field 0x3555) / 1024))%Q.
Proof.
  split; [lia|].
  apply (float16ToFloat32_cases 0x3555); [lia | vm_compute; discriminate
                                          | vm_compute; discriminate].
Defined.

(** ** Sanitization of non-finite entries *)

Lemma finite_at_Some (w : list number) (k : Z) (v : number) :
  finite_at w k = Some v -> v ∈ w /\ isFinite v = true.
Proof.
  unfold finite_at. destruct (_ && _); [|discriminate].
  destruct (w !! Z.to_nat k) as [x|] eqn:E; [|discriminate].
  destruct (isFinite x) eqn:F; [|discriminate].
  intros [= <-]. split; [eapply list_elem_of_lookup_2; eassumption | assumption].
Qed.

Lemma findReplacement_outward (w : list number) (i : Z) (steps j : nat) :
  findReplacement w i (Z.of_nat j) steps
  = first_finite_among w i (outward_offsets_from j steps).
Proof.
  revert j. induction steps as [|steps IH]; intros j; [reflexivity|].
  unfold first_finite_among, outward_offsets_from in *. cbn [findReplacement seq flat_map].
  cbn [app omap list_omap].
  change (i - Z.of_nat j) with (i + - Z.of_nat j).
  destruct (finite_at w (i + - Z.of_nat j)) as [v|]; [reflexivity|].
  destruct (finite_at w (i + Z.of_nat j)) as [v|]; [reflexivity|].
  replace (Z.of_nat j + 1) with (Z.of_nat (S j)) by lia.
  apply IH.
Qed.

Lemma first_finite_among_props (w : list number) (i : Z) (offsets : list Z) :
  let r := first_finite_among w i offsets in
  isFinite r = true /\ (r = ofZ 0 \/ r ∈ w).
Proof.
  unfold first_finite_among.
  induction offsets as [|o offsets IH]; cbn.
  - split; [reflexivity | left; reflexivity].
  - destruct (finite_at w (i + o)) as [v|] eqn:E; cbn.
    + apply finite_at_Some in E as [Hin Hf]. split; [assumption | right; assumption].
    + exact IH.
Qed.

Lemma fround_zero : fround (ofZ 0) = ofZ 0.
Proof. reflexivity. Qed.

Lemma count_non_finite_snoc (l : list number) (v : number) :
  count_non_finite (l ++ [v])
  = count_non_finite l + (if isFinite v then 0 else 1).
Proof.
  unfold count_non_finite. rewrite List.filter_app, length_app. cbn [List.filter].
  destruct (isFinite v); cbn [negb length]; lia.
Qed.

Lemma sanitizeStep_inv (vs : list number) (k : nat) (st : list number * Z) :
  (k < length vs)%nat ->
  sanitize_inv vs k st -> sanitize_inv vs (S k) (sanitizeStep st k).
Proof.
  intros Hk (Hlen & Hrest & Hdone & Hcount & Hf32 & Hfin).
  destruct st as [cur cnt]. cbn [fst snd] in *.
  destruct (lookup_lt_is_Some_2 vs k Hk) as [v Hv].
  assert (Hcur : cur !! k = Some v).
  { rewrite <- Hv. rewrite <- (Nat.add_0_r k) at 1.
    rewrite <- lookup_drop, Hrest, lookup_drop. f_equal. lia. }
  assert (Hrest' : forall c : list number,
             drop (S k) c = drop 1 (drop k c)).
  { intros c. rewrite drop_drop. f_equal. lia. }
  unfold sanitizeStep. rewrite Hcur.
  destruct (isFinite v) eqn:Fv.
  - repeat split; cbn [fst snd].
    + exact Hlen.
    + rewrite !Hrest'. congruence.
    + intros i x Hi Hx. destruct (decide (i = k)) as [->|Hne].
      * rewrite Hx in Hv. injection Hv as ->. rewrite Fv. exact Hcur.
      * apply Hdone; [lia | exact Hx].
    + rewrite (take_S_r _ _ _ Hv), count_non_finite_snoc, Fv. lia.
    + exact Hf32.
    + intros i y Hi Hy. destruct (decide (i = k)) as [->|Hne].
      * congruence.
      * apply (Hfin i); [lia | exact Hy].
  - change 1 with (Z.of_nat 1) at 1.
    rewrite findReplacement_outward.
    fold outward_offsets. fold (first_finite_outward cur (Z.of_nat k)).
    destruct (first_finite_among_props cur (Z.of_nat k) outward_offsets)
      as [Hrf Hrin].
    fold (first_finite_outward cur (Z.of_nat k)) in Hrf, Hrin.
    set (r := first_finite_outward cur (Z.of_nat k)) in *.
    assert (Hr32 : fround r = r).
    { destruct Hrin as [->|Hin]; [exact fround_zero|].
      rewrite Forall_forall in Hf32. apply Hf32, Hin. }
    rewrite Hr32.
    repeat split; cbn [fst snd].
    + rewrite length_insert. exact Hlen.
    + rewrite drop_insert_lt by lia. rewrite !Hrest'. congruence.
    + intros i x Hi Hx. rewrite take_insert_ge by lia.
      destruct (decide (i = k)) as [->|Hne].
      * rewrite list_lookup_insert_eq by lia.
        rewrite Hx in Hv. injection Hv as ->. rewrite Fv.
        rewrite <- Hrest, take_drop. reflexivity.
      * rewrite list_lookup_insert_ne by lia. apply Hdone; [lia | exact Hx].
    + rewrite (take_S_r _ _ _ Hv), count_non_finite_snoc, Fv. lia.
    + apply Forall_insert; [exact Hf32 | exact Hr32].
    + intros i y Hi. destruct (decide (i = k)) as [->|Hne].
      * rewrite list_lookup_insert_eq by lia. intros [= <-]. exact Hrf.
      * rewrite list_lookup_insert_ne by lia. apply Hfin. lia.
Qed.

Lemma sanitize_steps_inv (vs : list number) (m k : nat) (st : list number * Z) :
  (k + m = length vs)%nat ->
  sanitize_inv vs k st ->
  sanitize_inv vs (k + m) (fold_left sanitizeStep (seq k m) st).
Proof.
  revert k st. induction m as [|m IH]; intros k st Hkm Hinv.
  - rewrite Nat.add_0_r. exact Hinv.
  - cbn [seq fold_left].
    replace (k + S m)%nat with (S k + m)%nat by lia.
    apply IH; [lia|]. apply sanitizeStep_inv; [lia | exact Hinv].
Qed.

Lemma sanitize_loop_inv (vs : list number) :
  Forall is_float32 vs ->
  sanitize_inv vs (length vs) (sanitize_loop vs).
Proof.
  intros Hf32. unfold sanitize_loop.
  apply (sanitize_steps_inv vs (length vs) 0 (vs, 0)); [lia|].
  repeat split; cbn [fst snd]; try reflexivity; try assumption; intros; lia.
Qed.

Lemma first_finite_among_hit (w : list number) (i o : Z) (os : list Z) (v : number) :
  finite_at w (i + o) = Some v -> first_finite_among w i (o :: os) = v.
Proof.
  intros E. unfold first_finite_among. cbn [omap list_omap]. rewrite E. reflexivity.
Qed.

Lemma first_finite_outward_back (w : list number) (i : nat) (y : number) :
  w !! i = Some y -> isFinite y = true ->
  first_finite_outward w (Z.of_nat (S i)) = y.
Proof.
  intros Hy Hf.
  unfold first_finite_outward.
  change outward_offsets with (-1 :: tl outward_offsets).
  apply first_finite_among_hit.
  unfold finite_at.
  pose proof (lookup_lt_Some _ _ _ Hy) as Hlt.
  replace (Z.of_nat (S i) + -1) with (Z.of_nat i) by lia.
  rewrite Nat2Z.id, Hy, Hf.
  replace ((0 <=? Z.of_nat i) && (Z.of_nat i <? Z.of_nat (length w))) with true;
    [reflexivity|].
  symmetry. apply andb_true_intro. split; [apply Z.leb_le | apply Z.ltb_lt]; lia.
Qed.

(** C4, read over the input buffer, fails: in [1, NaN, NaN, 5] the entry at
    index 2 has a non-finite input neighbour at offset -1 and the finite 5 at
    offset +1, yet it receives 1, the value that index 1 was given just
    before. *)
Lemma sanitize_not_over_input :
  ~ (forall values : list number,
       Forall is_float32 values ->
       (sanitize_loop values).1 = sanitize_over_input values).
Proof.
  intros Hclaim.
  specialize (Hclaim [ofZ 1; S754_nan; S754_nan; ofZ 5]).
  assert (H32 : Forall is_float32 [ofZ 1; S754_nan; S754_nan; ofZ 5])
    by (repeat constructor).
  specialize (Hclaim H32). vm_compute in Hclaim. discriminate Hclaim.
Qed.

(** Two more buffers.  In [7, NaN x 70, 1] the entry at index 35 has no
    finite input value within 31 steps on either side, and receives 7, carried
    forward from index 0, not 0.  In [NaN x 40, 1] the entry at index 39 has
    the finite 1 at offset +1, and receives 0, carried forward from index 0,
    which found nothing within 31 steps. *)
Example sanitize_long_gap :
  let values := ofZ 7 :: replicate 70 S754_nan ++ [ofZ 1] in
  first_finite_outward values 35 = ofZ 0 /\
  (sanitize_loop values).1 !! 35%nat = Some (ofZ 7) /\
  (sanitize_loop values).2 = 70.
Proof. vm_compute. repeat split; reflexivity. Qed.

Example sanitize_leading_gap :
  let values := replicate 40 S754_nan ++ [ofZ 1] in
  first_finite_outward values 39 = ofZ 1 /\
  (sanitize_loop values).1 !! 39%nat = Some (ofZ 0) /\
  (sanitize_loop values).2 = 40.
Proof. vm_compute. repeat split; reflexivity. Qed.

(** C4 (amended): sanitization never fails and keeps the length and every
    finite entry; each non-finite entry is replaced by the first finite value
    found searching outward up to 31 steps (offsets -1, +1, -2, +2, ...,
    backward first) in the buffer as it stands when that entry is reached,
    that is with the entries before it already sanitized and the entries
    from it on still the input's, and by 0 when that window holds no finite
    value; so a non-finite entry after the first takes the sanitized value
    just before it.  Every entry of the result is finite, and the returned
    count is the number of non-finite entries of the input, all of them
    replaced; e.g. [NaN, 1.0, 2.0] becomes [1.0, 1.0, 2.0] with count 1. *)
Theorem sanitizeFiniteInPlace_spec (values : list number) :
  Forall is_float32 values ->
  let out := (sanitize_loop values).1 in
  let replaced := (sanitize_loop values).2 in
  length out = length values /\
  (forall (i : nat) x,
     values !! i = Some x -> isFinite x = true -> out !! i = Some x) /\
  (forall (i : nat) x,
     values !! i = Some x -> isFinite x = false ->
     out !! i
     = Some (first_finite_outward (take i out ++ drop i values) (Z.of_nat i))) /\
  (forall (i : nat) x,
     values !! S i = Some x -> isFinite x = false -> out !! S i = out !! i) /\
  Forall (fun y => isFinite y = true) out /\
  replaced = count_non_finite values /\
  (forall (h : Heap) (l : loc),
     h !! l = Some (Float32Array values) ->
     sanitizeFiniteInPlace l h = (inr replaced, <[l := Float32Array out]> h)) /\
  sanitize_loop [S754_nan; ofZ 1; ofZ 2] = ([ofZ 1; ofZ 1; ofZ 2], 1).
Proof.
  intros Hf32 out replaced.
  destruct (sanitize_loop_inv values Hf32)
    as (Hlen & _ & Hdone & Hcount & _ & Hfin).
  fold out in Hlen, Hdone, Hfin. fold replaced in Hcount.
  assert (Hnf : forall (i : nat) x,
             values !! i = Some x -> isFinite x = false ->
             out !! i
             = Some (first_finite_outward (take i out ++ drop i values)
                       (Z.of_nat i))).
  { intros i x Hx Fx.
    rewrite (Hdone i x (lookup_lt_Some _ _ _ Hx) Hx), Fx. reflexivity. }
  split; [|split; [|split; [|split; [|split; [|split; [|split]]]]]].
  - exact Hlen.
  - intros i x Hx Fx.
    rewrite (Hdone i x (lookup_lt_Some _ _ _ Hx) Hx), Fx. reflexivity.
  - exact Hnf.
  - intros i x Hx Fx. rewrite (Hnf _ _ Hx Fx).
    pose proof (lookup_lt_Some _ _ _ Hx) as Hlt.
    destruct (lookup_lt_is_Some_2 out i ltac:(lia)) as [y Hy].
    rewrite Hy. f_equal.
    apply first_finite_outward_back; [|apply (Hfin i); [lia | exact Hy]].
    rewrite lookup_app_l by (rewrite length_take; lia).
    rewrite lookup_take_lt by lia. exact Hy.
  - apply Forall_forall. intros y Hy.
    apply list_elem_of_lookup_1 in Hy as [i Hi].
    apply (Hfin i); [|exact Hi].
    apply lookup_lt_Some in Hi. lia.
  - rewrite Hcount, firstn_all. reflexivity.
  - intros h l Hl. unfold sanitizeFiniteInPlace. rewrite Hl.
    subst out replaced. destruct (sanitize_loop values). reflexivity.
  - vm_compute. reflexivity.
Qed.

Lemma sanitizeFiniteInPlace_spec_witness :
  Forall is_float32 [S754_nan; ofZ 1; ofZ 2] /\
  (sanitize_loop [S754_nan; ofZ 1; ofZ 2]).2
  = count_non_finite [S754_nan; ofZ 1; ofZ 2].
Proof.
  assert (H32 : Forall is_float32 [S754_nan; ofZ 1; ofZ 2])
    by (repeat constructor).
  split; [exact H32|].
  apply (sanitizeFiniteInPlace_spec [S754_nan; ofZ 1; ofZ 2] H32).
Defined.

(** ** Classification policies *)

Lemma lookup_map {A B} (f : A -> B) (l : list A) (i : nat) :
  map f l !! i = f <$> (l !! i).
Proof.
  revert i. induction l as [|a l IH]; intros [|i]; cbn; try reflexivity. apply IH.
Qed.

Lemma existsb_outside01 (values : list number) :
  existsb outside01 values = true <-> some_outside01 values.
Proof.
  rewrite existsb_exists. unfold some_outside01, outside01.
  split; intros (v & Hin & Hv); exists v.
  - split; [apply list_elem_of_In, Hin|]. apply orb_prop, Hv.
  - split; [apply list_elem_of_In, Hin|]. destruct Hv as [-> | ->]; [reflexivity|].
    apply orb_true_r.
Qed.

Lemma existsb_non_positive (values : list number) :
  existsb (fun v => le v (ofZ 0)) values = true <-> some_non_positive values.
Proof.
  rewrite existsb_exists. unfold some_non_positive.
  split; intros (v & Hin & Hv); exists v; (split; [apply list_elem_of_In, Hin | exact Hv]).
Qed.

(** [SFcompare] is antisymmetric, and a number compares equal to itself
    unless it is NaN. *)
Lemma SFcompare_antisym (x y : number) (c : comparison) :
  SFcompare x y = Some c -> SFcompare y x = Some (CompOpp c).
Proof.
  destruct x as [sx|sx| |sx mx ex], y as [sy|sy| |sy my ey]; cbn;
    try discriminate; intros [= <-];
    try (destruct sx; reflexivity); try (destruct sy; reflexivity);
    try (destruct sx, sy; reflexivity).
  destruct sx, sy; cbn; try reflexivity.
  - rewrite (Z.compare_antisym ex ey).
    destruct (ex ?= ey); cbn; try reflexivity.
    change PosDef.Pos.compare_cont with Pos.compare_cont.
    rewrite (Pos.compare_cont_antisym mx my Eq). reflexivity.
  - rewrite (Z.compare_antisym ex ey).
    destruct (ex ?= ey); cbn; try reflexivity.
    change PosDef.Pos.compare_cont with Pos.compare_cont.
    rewrite (Pos.compare_cont_antisym mx my Eq). reflexivity.
Qed.

Lemma SFcompare_not_nan (x y : number) :
  isNaN x = false -> isNaN y = false -> exists c, SFcompare x y = Some c.
Proof.
  destruct x as [sx|sx| |sx mx ex], y as [sy|sy| |sy my ey]; cbn;
    try discriminate; intros _ _; eauto.
Qed.

(** [clamp lo hi x] lies between the bounds, unless [x] is NaN. *)
Lemma clamp_between (lo hi x : number) :
  le lo hi = true -> isNaN x = false ->
  le lo (clamp lo hi x) = true /\ le (clamp lo hi x) hi = true.
Proof.
  intros Hlh Hx.
  assert (Hlo : isNaN lo = false) by (destruct lo, hi; cbn in *; congruence).
  assert (Hhi : isNaN hi = false)
    by (destruct lo as [?|?| |[] ? ?], hi; cbn in *; congruence).
  assert (Hrefl : le lo lo = true).
  { unfold le, SFleb.
    destruct (SFcompare_not_nan lo lo Hlo Hlo) as [c Hc].
    pose proof (SFcompare_antisym _ _ _ Hc) as Hc'. rewrite Hc in Hc'.
    rewrite Hc. destruct c; try reflexivity; discriminate. }
  (* the inner minimum is at most hi and is not NaN *)
  assert (Hmin : le (Math_min hi x) hi = true /\ isNaN (Math_min hi x) = false).
  { unfold Math_min, le, lt, SFleb, SFltb.
    destruct (SFcompare_not_nan hi x Hhi Hx) as [c Hc].
    pose proof (SFcompare_antisym _ _ _ Hc) as Hc'.
    destruct hi as [sh|sh| |sh mh eh]; try discriminate;
      destruct x as [s|s| |s m e]; try discriminate;
      rewrite Hc, Hc'; destruct c; cbn [CompOpp];
      try (split; [|reflexivity]; try rewrite Hc'; try reflexivity);
      try (destruct sh; split; try reflexivity; rewrite ?Hc'; reflexivity).
    all: try (unfold le, SFleb in Hrefl; 
              destruct (SFcompare_not_nan _ _ Hhi Hhi) as [c2 Hc2];
              pose proof (SFcompare_antisym _ _ _ Hc2) as Hc2';
              rewrite Hc2 in Hc2' |- *; destruct c2; try reflexivity; discriminate). }
  destruct Hmin as [Hmin Hmn].
  set (m := Math_min hi x) in *.
  unfold clamp. fold m.
  unfold Math_max, le, lt, SFleb, SFltb in *.
  destruct (SFcompare_not_nan lo m Hlo Hmn) as [c Hc].
  pose proof (SFcompare_antisym _ _ _ Hc) as Hc'.
  destruct lo as [sl|sl| |sl ml el]; try discriminate;
    destruct m as [s|s| |s mm e]; try discriminate;
    rewrite Hc, Hc'; destruct c; cbn [CompOpp];
    try (split; [rewrite ?Hc; reflexivity | assumption]);
    try (split; assumption);
    try (destruct sl; split; first [assumption | rewrite ?Hc; reflexivity]).
Qed.

(** ** What the policies store *)

Lemma clamp_valid (lo hi x : number) :
  valid64 lo -> valid64 hi -> valid64 x -> valid64 (clamp lo hi x).
Proof.
  intros Hlo Hhi Hx.
  destruct (clamp_cases lo hi x) as [-> | [-> | ->]]; assumption.
Qed.

Lemma clamp_float32 (lo hi x : number) :
  is_float32 lo -> is_float32 hi -> is_float32 x -> is_float32 (clamp lo hi x).
Proof.
  intros Hlo Hhi Hx.
  destruct (clamp_cases lo hi x) as [-> | [-> | ->]]; assumption.
Qed.

(** The colour policy clamps what the first loop stored, a binary32: the
    clamp is stored as it is. *)
Lemma stored_color_range (t : number) :
  let y := fround (clamp (ofZ 0) (ofZ 1) (fround t)) in
  isNaN y = isNaN t /\
  (isNaN y = false -> le (ofZ 0) y = true /\ le y (ofZ 1) = true).
Proof.
  intros y.
  assert (Hy : y = clamp (ofZ 0) (ofZ 1) (fround t)).
  { apply clamp_float32; [reflexivity | reflexivity | apply fround_is_float32]. }
  assert (Hnan : isNaN y = isNaN t).
  { rewrite Hy, isNaN_clamp by reflexivity. apply fround_isNaN. }
  split; [exact Hnan|]. intros Hn. rewrite Hy.
  apply clamp_between; [reflexivity|].
  rewrite fround_isNaN, <- Hnan. exact Hn.
Qed.

(** The opacity policy clamps a double and stores the clamp. *)
Lemma stored_unit_range (t : number) :
  let y := fround (clamp (ofZ 0) (ofZ 1) t) in
  isNaN y = isNaN t /\
  (isNaN y = false -> valid64 t -> le (ofZ 0) y = true /\ le y (ofZ 1) = true).
Proof.
  intros y.
  assert (Hnan : isNaN y = isNaN t).
  { unfold y. rewrite fround_isNaN. apply isNaN_clamp; reflexivity. }
  split; [exact Hnan|]. intros Hn Hv. rewrite Hnan in Hn.
  destruct (clamp_between (ofZ 0) (ofZ 1) t eq_refl Hn) as [Hlo Hhi].
  assert (Hvc : valid64 (clamp (ofZ 0) (ofZ 1) t))
    by (apply clamp_valid; [reflexivity | reflexivity | exact Hv]).
  split.
  - apply fround_le_zero; assumption.
  - apply (fround_le_upper _ 8388608 (-52)); [lia | lia | exact Hvc | exact Hhi].
Qed.

(** The sigma policy clamps a double to [1e-4, 10] and stores the clamp:
    the least value stored is the binary32 nearest to 1e-4. *)
Lemma stored_sigma_range (t : number) :
  let y := fround (clamp c_1e_4 (ofZ 10) t) in
  isNaN y = isNaN t /\
  (isNaN y = false -> valid64 t ->
   le (fround c_1e_4) y = true /\ le y (ofZ 10) = true).
Proof.
  intros y.
  assert (Hnan : isNaN y = isNaN t).
  { unfold y. rewrite fround_isNaN. apply isNaN_clamp; reflexivity. }
  split; [exact Hnan|]. intros Hn Hv. rewrite Hnan in Hn.
  destruct (clamp_between c_1e_4 (ofZ 10) t eq_refl Hn) as [Hlo Hhi].
  assert (Hvc : valid64 (clamp c_1e_4 (ofZ 10) t))
    by (apply clamp_valid; [reflexivity | reflexivity | exact Hv]).
  split.
  - change (fround c_1e_4)
      with (S754_finite false (Z.to_pos (13743895 * 2 ^ 29)) (-66)).
    apply (fround_le_lower _ 13743895 (-66)); [lia | lia | exact Hvc|].
    apply (le_lower_bound_weaken _ 7378697629483821); [lia | exact Hlo].
  - apply (fround_le_upper _ 10485760 (-49)); [lia | lia | exact Hvc | exact Hhi].
Qed.

Section PolicyValues.
Context `{Host}.

Lemma sigmoid_valid (x : number) : valid64 (sigmoid x).
Proof. apply div_valid. Qed.

Lemma sigmoid_isNaN (x : number) : isNaN (sigmoid x) = isNaN (Math_exp (neg x)).
Proof.
  unfold sigmoid. change (ofZ 1) with (S754_finite false 4503599627370496 (-52)).
  rewrite div_finite_isNaN. apply add_finite_isNaN.
Qed.

Lemma log_sigma_valid (x : number) : valid64 (add c_0_01 (Math_exp x)).
Proof. apply add_finite_valid. reflexivity. Qed.

Lemma log_sigma_isNaN (x : number) :
  isNaN (add c_0_01 (Math_exp x)) = isNaN (Math_exp x).
Proof. apply add_finite_isNaN. Qed.

End PolicyValues.

Lemma sh_color_isNaN (v : number) : isNaN (add (mul v SH_C0) c_half) = isNaN v.
Proof.
  change c_half with (S754_finite false 4503599627370496 (-53)).
  rewrite add_not_nan. apply mul_not_nan.
Qed.

Lemma u8_color_isNaN (v : number) : isNaN (div v (ofZ 255)) = isNaN v.
Proof.
  change (ofZ 255) with (S754_finite false 8972014882652160 (-45)).
  apply div_not_nan.
Qed.

(** Every output of [decodeColorDC] is the stored clamp of what the first
    loop stored, which is NaN exactly when the component is. *)
Lemma decodeColorDC_lookup (colorValues : list number) (dtype : TensorDType)
    (mode : ColorMode) (i : nat) (v : number) :
  colorValues !! i = Some v ->
  exists t : number,
    (decodeColorDC colorValues dtype mode).1 !! i
    = Some (fround (clamp (ofZ 0) (ofZ 1) (fround t))) /\
    isNaN t = isNaN v.
Proof.
  intros Hv. unfold decodeColorDC.
  set (sh := match mode with
             | color_sh => true
             | color_auto => existsb outside01 colorValues
             | color_linear => false
             end).
  destruct dtype; cbn [fst];
    try (exists (if sh then add (mul v SH_C0) c_half else v);
         split; [rewrite !lookup_map, Hv; reflexivity
                |destruct sh; [apply sh_color_isNaN | reflexivity]]).
  exists (div v (ofZ 255)).
  split; [rewrite !lookup_map, Hv; reflexivity | apply u8_color_isNaN].
Qed.

(** Not every output lies in [0,1]: [Math.max(0, Math.min(1, NaN))] is NaN,
    so a NaN component comes out as NaN, in every mode. *)
Lemma decodeColorDC_NaN_not_clamped :
  ~ (forall (colorValues : list number) (dtype : TensorDType) (mode : ColorMode)
            (i : nat) (y : number),
       (decodeColorDC colorValues dtype mode).1 !! i = Some y ->
       le (ofZ 0) y = true /\ le y (ofZ 1) = true).
Proof.
  intros Hclaim.
  destruct (Hclaim [S754_nan] f32 color_linear 0%nat S754_nan eq_refl) as [Hlo _].
  discriminate Hlo.
Qed.

(** C5 (amended): [decodeColorDC] on every buffer.  With dtype uint8 every
    component is divided by 255 and the interpretation is "u8".  Otherwise
    mode "sh" gives "sh", mode "linear" gives "linear", and mode "auto" gives
    "sh" exactly when some component is below 0 or above 1, and "linear"
    otherwise; an SH component [v] becomes [v * SH_C0 + 0.5], where [SH_C0]
    is the double 0.28209479177387814 (0.282095 to six decimals), a linear
    component passes through; every output is then clamped by
    [max(0, min(1, .))] and stored as a binary32.  The output at an index is
    NaN exactly when the component at that index is NaN; every other output
    lies in [0,1].  A raw component 1.0 in a buffer that "auto" resolves to
    SH yields 0.782095 (to six decimals). *)
Theorem decodeColorDC_spec (colorValues : list number) (dtype : TensorDType)
    (mode : ColorMode) :
  let values := (decodeColorDC colorValues dtype mode).1 in
  let interpretation := (decodeColorDC colorValues dtype mode).2 in
  length values = length colorValues /\
  (dtype = u8 ->
     interpretation = "u8"%string /\
     forall (i : nat) v, colorValues !! i = Some v ->
       values !! i
       = Some (fround (clamp (ofZ 0) (ofZ 1) (fround (div v (ofZ 255)))))) /\
  (dtype <> u8 ->
     (mode = color_sh -> interpretation = "sh"%string) /\
     (mode = color_linear -> interpretation = "linear"%string) /\
     (mode = color_auto ->
        (interpretation = "sh"%string <-> some_outside01 colorValues) /\
        (interpretation = "linear"%string <-> ~ some_outside01 colorValues)) /\
     (interpretation = "sh"%string ->
        forall (i : nat) v, colorValues !! i = Some v ->
          values !! i
          = Some (fround (clamp (ofZ 0) (ofZ 1)
                            (fround (add (mul v SH_C0) c_half))))) /\
     (interpretation = "linear"%string ->
        forall (i : nat) v, colorValues !! i = Some v ->
          values !! i = Some (fround (clamp (ofZ 0) (ofZ 1) (fround v))))) /\
  (forall (i : nat) v y, colorValues !! i = Some v -> values !! i = Some y ->
     isNaN y = isNaN v /\
     (isNaN y = false -> le (ofZ 0) y = true /\ le y (ofZ 1) = true)) /\
  within SH_C0 0.282095 0.0000005 /\
  (dtype <> u8 -> mode = color_auto -> some_outside01 colorValues ->
     forall i : nat, colorValues !! i = Some (ofZ 1) ->
       exists y, values !! i = Some y /\ within y 0.782095 0.0000005).
Proof.
  intros values interpretation.
  set (sh := match mode with
             | color_sh => true
             | color_auto => existsb outside01 colorValues
             | color_linear => false
             end).
  assert (Hdec : dtype <> u8 ->
            decodeColorDC colorValues dtype mode
            = (map (fun o => fround (clamp (ofZ 0) (ofZ 1) o))
                 (map (fun v => fround (if sh then add (mul v SH_C0) c_half else v))
                    colorValues),
               if sh then "sh"%string else "linear"%string)).
  { intros Hd. unfold decodeColorDC. destruct dtype; try reflexivity.
    contradiction Hd; reflexivity. }
  assert (Hsh : dtype <> u8 -> interpretation = "sh"%string ->
            forall (i : nat) v, colorValues !! i = Some v ->
              values !! i
              = Some (fround (clamp (ofZ 0) (ofZ 1)
                                (fround (add (mul v SH_C0) c_half))))).
  { intros Hd Hi i v Hv. subst values interpretation.
    rewrite (Hdec Hd) in *. cbn [fst snd] in *.
    destruct sh; [|discriminate Hi].
    rewrite !lookup_map, Hv. reflexivity. }
  split; [|split; [|split; [|split; [|split]]]].
  - subst values. unfold decodeColorDC.
    destruct dtype, mode; cbn [fst]; rewrite !length_map; reflexivity.
  - intros ->. subst values interpretation. unfold decodeColorDC. cbn [fst snd].
    split; [reflexivity|]. intros i v Hv. rewrite !lookup_map, Hv. reflexivity.
  - intros Hd.
    split; [|split; [|split; [|split]]].
    + intros Hm. subst interpretation. rewrite (Hdec Hd). subst sh. rewrite Hm.
      reflexivity.
    + intros Hm. subst interpretation. rewrite (Hdec Hd). subst sh. rewrite Hm.
      reflexivity.
    + intros Hm. subst interpretation. rewrite (Hdec Hd). cbn [snd].
      assert (E : sh = existsb outside01 colorValues) by (subst sh; rewrite Hm; reflexivity).
      rewrite E. destruct (existsb outside01 colorValues) eqn:Ex.
      * apply existsb_outside01 in Ex. split; split; try tauto; discriminate.
      * assert (Hn : ~ some_outside01 colorValues).
        { intros Hc. apply existsb_outside01 in Hc. congruence. }
        split; split; try tauto; try discriminate.
    + exact (Hsh Hd).
    + intros Hi i v Hv. subst values interpretation.
      rewrite (Hdec Hd) in *. cbn [fst snd] in *.
      destruct sh; [discriminate Hi|].
      rewrite !lookup_map, Hv. reflexivity.
  - intros i v y Hv Hy.
    destruct (decodeColorDC_lookup colorValues dtype mode i v Hv) as (t & Ht & Hnan).
    fold values in Ht. rewrite Ht in Hy. apply (inj Some) in Hy. subst y.
    destruct (stored_color_range t) as [Hnan' Hrange].
    split; [rewrite Hnan'; exact Hnan | exact Hrange].
  - split; [reflexivity|]. vm_compute. discriminate.
  - intros Hd Hm Hout i Hi.
    assert (Hint : interpretation = "sh"%string).
    { subst interpretation. rewrite (Hdec Hd). cbn [snd].
      apply existsb_outside01 in Hout. subst sh. rewrite Hm, Hout. reflexivity. }
    eexists. split; [apply (Hsh Hd Hint i _ Hi)|].
    split; [reflexivity|]. vm_compute. discriminate.
Qed.

(** ** The resolver and the store *)

Section Frame.
Context `{Host}.

Lemma allocates_ret {E A} (a : A) : allocates_only (@ret E A a).
Proof. intros h. reflexivity. Qed.

Lemma allocates_throw {E A} (e : E) : allocates_only (@throw E A e).
Proof. intros h. reflexivity. Qed.

Lemma allocates_of_result {E A} (r : E + A) : allocates_only (of_result r).
Proof. intros h. reflexivity. Qed.

Lemma allocates_bind {E A B} (c : M E A) (k : A -> M E B) :
  allocates_only c -> (forall a, allocates_only (k a)) ->
  allocates_only (bind c k).
Proof.
  intros Hc Hk h. unfold bind. specialize (Hc h).
  destruct (c h) as [[e|a] h1]; cbn [snd] in *; [exact Hc|].
  etransitivity; [exact Hc | apply Hk].
Qed.

Lemma allocates_new_array {E} (d : TensorData) : allocates_only (@new_array E d).
Proof. intros h. unfold new_array, alloc. cbn. apply prefix_app_r. reflexivity. Qed.

Lemma allocates_toFloat32Array (input : loc) : allocates_only (toFloat32Array input).
Proof.
  intros h. unfold toFloat32Array.
  destruct (h !! input) as [[]|]; try apply allocates_new_array; reflexivity.
Qed.

Lemma allocates_float32_contents (l : loc) : allocates_only (float32_contents l).
Proof.
  intros h. unfold float32_contents. destruct (h !! l) as [[]|]; reflexivity.
Qed.

Lemma allocates_resolveColor t mode n colors0 :
  allocates_only (resolveColor t mode n colors0).
Proof.
  unfold resolveColor. destruct t; [|apply allocates_ret].
  apply allocates_bind; [apply allocates_toFloat32Array|]. intros src.
  apply allocates_bind; [apply allocates_float32_contents|]. intros vs.
  apply allocates_ret.
Qed.

Lemma allocates_resolveScalar policy fallback t n total :
  allocates_only (resolveScalar policy fallback t n total).
Proof.
  unfold resolveScalar. destruct t; [|apply allocates_ret].
  apply allocates_bind; [apply allocates_toFloat32Array|]. intros src.
  apply allocates_bind; [apply allocates_float32_contents|]. intros vs.
  apply allocates_bind; [apply allocates_of_result|]. intros out0.
  apply allocates_bind; [apply allocates_new_array|]. intros l.
  apply allocates_ret.
Qed.

Lemma allocates_resolveFields m om cm sm pt pd rep n v :
  allocates_only (resolveFields m om cm sm pt pd rep n v).
Proof.
  unfold resolveFields.
  apply allocates_bind; [apply allocates_of_result|]. intros colors0.
  apply allocates_bind; [apply allocates_resolveColor|]. intros [colors ci].
  apply allocates_bind; [apply allocates_resolveScalar|]. intros [alphas oi].
  apply allocates_bind; [apply allocates_resolveScalar|]. intros [sigmas si].
  apply allocates_bind; [apply allocates_new_array|]. intros l.
  apply allocates_ret.
Qed.


Lemma sanitize_loop_finite (vs : list number) :
  Forall (fun v => isFinite v = true) vs -> sanitize_loop vs = (vs, 0).
Proof.
  intros Hfin. unfold sanitize_loop.
  assert (Hgen : forall (idx : list nat) (cnt : Z),
             fold_left sanitizeStep idx (vs, cnt) = (vs, cnt)).
  { induction idx as [|i idx IH]; intros cnt; [reflexivity|].
    cbn [fold_left]. unfold sanitizeStep at 2.
    destruct (vs !! i) as [v|] eqn:E; [|apply IH].
    rewrite Forall_forall in Hfin.
    rewrite (Hfin v (list_elem_of_lookup_2 _ _ _ E)). apply IH. }
  apply Hgen.
Qed.

(** C1 (amended): resolving semantics, whether it returns or throws, leaves
    every array of the store as it was, with one exception: when the
    position tensor's data is a [Float32Array], that very array is sanitized
    in place, so the Parsed Model's position buffer afterwards holds the
    sanitized values.  When the position buffer has no non-finite entry, or
    is not a [Float32Array] (the sanitized array is then a fresh copy), every
    array of the model holds the same values as before. *)
Theorem resolveSemantics_frame (parsedModel : ParsedModel) (options : ResolveOptions)
    (h : Heap) :
  let h' := (resolveSemantics parsedModel options h).2 in
  (forall (l : loc) (arr : TensorData),
     h !! l = Some arr ->
     h' !! l
     = Some match findTensor (tensors parsedModel) positions_aliases, arr with
            | Some positionTensor, Float32Array vs =>
                if decide (l = data positionTensor)
                then Float32Array (sanitize_loop vs).1
                else arr
            | _, _ => arr
            end) /\
  (forall positionTensor : TensorRecord,
     findTensor (tensors parsedModel) positions_aliases = Some positionTensor ->
     (forall vs, h !! data positionTensor = Some (Float32Array vs) ->
        Forall (fun v => isFinite v = true) vs) ->
     forall (l : loc) (arr : TensorData), h !! l = Some arr -> h' !! l = Some arr).
Proof.
  intros h'.
  assert (Hmain : forall (l : loc) (arr : TensorData),
     h !! l = Some arr ->
     h' !! l
     = Some match findTensor (tensors parsedModel) positions_aliases, arr with
            | Some positionTensor, Float32Array vs =>
                if decide (l = data positionTensor)
                then Float32Array (sanitize_loop vs).1
                else arr
            | _, _ => arr
            end).
  { intros l arr Hl. subst h'. unfold resolveSemantics.
    destruct (findTensor (tensors parsedModel) positions_aliases) as [pt|];
      [|exact Hl].
    set (tail := fun (pd : loc) (rep : Z) =>
                   match shape pt with
                   | n :: v :: c :: _ =>
                       if negb (v =? 3) || negb (c =? 3)
                       then throw (UnsupportedPositionShape n v c)
                       else resolveFields parsedModel
                              (default opacity_auto (opacityMode options))
                              (default color_auto (colorMode options))
                              (default sigma_auto (sigmaMode options))
                              pt pd rep n v
                   | dims => throw (InvalidPositionShape dims)
                   end).
    assert (Htail : forall pd rep, allocates_only (tail pd rep)).
    { intros pd rep. unfold tail.
      destruct (shape pt) as [|n [|v [|c rest]]]; try apply allocates_throw.
      destruct (negb (v =? 3) || negb (c =? 3));
        [apply allocates_throw | apply allocates_resolveFields]. }
    change (((let* positionData := toFloat32Array (data pt) in
              let* replaced := sanitizeFiniteInPlace positionData in
              tail positionData replaced) h).2 !! l = 
            Some match arr with
                 | Float32Array vs =>
                     if decide (l = data pt)
                     then Float32Array (sanitize_loop vs).1 else arr
                 | _ => arr
                 end).
    pose proof (lookup_lt_Some _ _ _ Hl) as Hlt.
    assert (Hcopy : forall d : TensorData,
              h !! data pt = Some d ->
              (forall vs, d <> Float32Array vs) ->
              ((let* replaced := sanitizeFiniteInPlace (length h) in
                tail (length h) replaced)
                 (h ++ [Float32Array (float32_values d)])).2 !! l
              = Some match arr with
                     | Float32Array vs =>
                         if decide (l = data pt)
                         then Float32Array (sanitize_loop vs).1 else arr
                     | _ => arr
                     end).
    { (* the position buffer is another typed array: a copy is sanitized *)
      intros d Hd Hnot. unfold bind at 1. unfold sanitizeFiniteInPlace.
      rewrite list_lookup_middle by reflexivity.
      destruct (sanitize_loop (float32_values d)) as [out rep].
      eapply prefix_lookup_Some; [|apply Htail]. cbn [snd].
      rewrite list_lookup_insert_ne by lia.
      rewrite lookup_app_l by lia. rewrite Hl.
      destruct arr as [vs| | |]; try reflexivity.
      case_decide; [|reflexivity]. subst l. rewrite Hd in Hl.
      injection Hl as ->. contradiction (Hnot vs). reflexivity. }
    unfold bind at 1. unfold toFloat32Array.
    destruct (h !! data pt) as [d|] eqn:Hd.
    - destruct d as [vs0|vs0|k vs0|k vs0].
      + (* the position buffer is a Float32Array: sanitized where it is *)
        cbn [ret]. unfold bind at 1. unfold sanitizeFiniteInPlace. rewrite Hd.
        destruct (sanitize_loop vs0) as [out rep] eqn:Hs.
        eapply prefix_lookup_Some; [|apply Htail].
        cbn [snd].
        destruct (decide (l = data pt)) as [->|Hne].
        * rewrite Hd in Hl. injection Hl as <-.
          rewrite list_lookup_insert_eq by lia.
          rewrite Hs. reflexivity.
        * rewrite list_lookup_insert_ne by congruence. rewrite Hl.
          destruct arr; reflexivity.
      + apply (Hcopy (Float64Array vs0)); [reflexivity | discriminate].
      + apply (Hcopy (IntArray k vs0)); [reflexivity | discriminate].
      + apply (Hcopy (BigIntArray k vs0)); [reflexivity | discriminate].
    - cbn [throw snd]. rewrite Hl. destruct arr; try reflexivity.
      case_decide; [congruence | reflexivity]. }
  split; [exact Hmain|].
  intros pt Hpt Hfin l arr Hl. rewrite (Hmain l arr Hl), Hpt.
  destruct arr as [vs| | |]; try reflexivity.
  destruct (decide (l = data pt)) as [->|]; [|reflexivity].
  rewrite (sanitize_loop_finite vs (Hfin vs Hl)). reflexivity.
Qed.

End Frame.

(** C1, as stated, fails: the position buffer of a float32 position tensor
    is sanitized where it lies, in the Parsed Model.  Here its first entry
    is NaN before the call and 1.0 after it. *)
Lemma resolveSemantics_mutates_positions :
  ~ (forall (H : Host) (parsedModel : ParsedModel) (options : ResolveOptions)
            (h : Heap) (name : string) (t : TensorRecord),
       tensors parsedModel !! name = Some t ->
       (resolveSemantics parsedModel options h).2 !! data t = h !! data t).
Proof.
  intros Hclaim.
  specialize (Hclaim sample_host one_triangle_model default_options
                one_triangle_store "positions"%string
                {| data := 0%nat; shape := [1; 3; 3]; dtype := f32 |} eq_refl).
  vm_compute in Hclaim. discriminate Hclaim.
Qed.

(** ** Running the resolver *)

Section Run.
Context `{Host}.

Lemma toFloat32Array_run (l : loc) (d : TensorData) (h : Heap) :
  h !! l = Some d ->
  exists (l' : loc) (h1 : Heap),
    toFloat32Array l h = (inr l', h1) /\
    h `prefix_of` h1 /\
    h1 !! l' = Some (Float32Array (float32_values d)) /\
    (l' = l \/ l' = length h).
Proof.
  intros Hd. unfold toFloat32Array. rewrite Hd.
  assert (Hnew : exists (l' : loc) (h1 : Heap),
             @new_array ResolveError (Float32Array (float32_values d)) h
             = (inr l', h1) /\
             h `prefix_of` h1 /\
             h1 !! l' = Some (Float32Array (float32_values d)) /\
             (l' = l \/ l' = length h)).
  { exists (length h), (h ++ [Float32Array (float32_values d)]).
    split; [reflexivity|]. split; [apply prefix_app_r; reflexivity|].
    split; [apply list_lookup_middle; reflexivity | right; reflexivity]. }
  destruct d; try exact Hnew.
  exists l, h. split; [reflexivity|]. split; [reflexivity|].
  split; [exact Hd | left; reflexivity].
Qed.

Lemma float32_contents_run (l : loc) (vs : list number) (h : Heap) :
  h !! l = Some (Float32Array vs) -> float32_contents l h = (inr vs, h).
Proof. intros Hl. unfold float32_contents. rewrite Hl. reflexivity. Qed.

Lemma filled_ok (n : Z) (v : number) :
  0 <= n <= arrayLimit -> filled n v = inr (replicate (Z.to_nat n) (fround v)).
Proof.
  intros Hn. unfold filled.
  destruct (n <? 0) eqn:E; [lia|]. destruct (arrayLimit <? n) eqn:E'; [lia|].
  reflexivity.
Qed.

Lemma filled_error (n : Z) (v : number) :
  n < 0 \/ arrayLimit < n -> filled n v = inl InvalidArrayLength.
Proof.
  intros Hn. unfold filled.
  destruct (n <? 0) eqn:E; [reflexivity|]. destruct (arrayLimit <? n) eqn:E'; [reflexivity|].
  lia.
Qed.

Lemma resolveColor_run (tensor : option TensorRecord) (mode : ColorMode)
    (n : Z) (colors0 : list number) (h : Heap) :
  (forall t, tensor = Some t -> is_Some (h !! data t)) ->
  exists (colors : list number) (tag : string) (h1 : Heap),
    resolveColor tensor mode n colors0 h = (inr (colors, tag), h1) /\
    h `prefix_of` h1 /\
    match tensor with
    | Some t =>
        exists d, h !! data t = Some d /\
          tag = (decodeColorDC (float32_values d) (dtype t) mode).2
    | None => tag = "none"%string
    end.
Proof.
  intros Hwf. unfold resolveColor. destruct tensor as [t|].
  - destruct (Hwf t eq_refl) as [d Hd].
    destruct (toFloat32Array_run _ _ _ Hd) as (l' & h1 & Hrun & Hpre & Hl' & _).
    unfold bind at 1. rewrite Hrun.
    unfold bind at 1. rewrite (float32_contents_run _ _ _ Hl').
    eexists _, _, h1. split; [reflexivity|]. split; [exact Hpre|].
    exists d. split; [exact Hd | reflexivity].
  - eexists _, _, h. split; [reflexivity|]. split; reflexivity.
Qed.

Lemma resolveScalar_run (policy : list number -> list number * string)
    (fallback : number) (tensor : option TensorRecord) (n total : Z) (h : Heap) :
  (forall t, tensor = Some t -> is_Some (h !! data t)) ->
  0 <= total <= arrayLimit ->
  exists (out : option loc) (tag : string) (h1 : Heap),
    resolveScalar policy fallback tensor n total h = (inr (out, tag), h1) /\
    h `prefix_of` h1 /\
    match tensor with
    | Some t =>
        exists d l, h !! data t = Some d /\ out = Some l /\
          tag = (policy (float32_values d)).2 /\
          h1 !! l
          = Some (Float32Array
                    (fold_left (broadcastScalar fallback (policy (float32_values d)).1)
                       (seq 0 (Z.to_nat n))
                       (replicate (Z.to_nat total) (fround (ofZ 0)))))
    | None => out = None /\ tag = "none"%string
    end.
Proof.
  intros Hwf Htotal. unfold resolveScalar. destruct tensor as [t|].
  - destruct (Hwf t eq_refl) as [d Hd].
    destruct (toFloat32Array_run _ _ _ Hd) as (l' & h1 & Hrun & Hpre & Hl' & _).
    unfold bind at 1. rewrite Hrun.
    unfold bind at 1. rewrite (float32_contents_run _ _ _ Hl').
    rewrite (filled_ok _ _ Htotal).
    unfold bind at 1. unfold of_result at 1.
    unfold bind at 1. unfold new_array, alloc. cbn [ret].
    eexists _, _, _. split; [reflexivity|].
    split; [apply prefix_app_r; exact Hpre|].
    exists d, (length h1). split; [exact Hd|]. split; [reflexivity|].
    split; [reflexivity|]. apply list_lookup_middle. reflexivity.
  - eexists _, _, h. split; [reflexivity|]. split; [reflexivity|].
    split; reflexivity.
Qed.


Lemma findTensor_Some (tensors : gmap string TensorRecord) (aliases : list string)
    (t : TensorRecord) :
  findTensor tensors aliases = Some t ->
  exists k, k ∈ aliases /\ tensors !! k = Some t.
Proof.
  induction aliases as [|k rest IH]; cbn; [discriminate|].
  destruct (tensors !! k) as [t'|] eqn:E.
  - intros [= ->]. exists k. split; [left | exact E].
  - intros Hr. destruct (IH Hr) as (k' & Hin & Hk'). exists k'.
    split; [right; exact Hin | exact Hk'].
Qed.

Lemma findTensor_None (tensors : gmap string TensorRecord) (aliases : list string) :
  findTensor tensors aliases = None <->
  (forall k, k ∈ aliases -> tensors !! k = None).
Proof.
  induction aliases as [|k rest IH]; cbn.
  - split; [|reflexivity]. intros _ k Hk. inversion Hk.
  - destruct (tensors !! k) as [t'|] eqn:E.
    + split; [discriminate|]. intros Hall.
      rewrite (Hall k) in E by left. discriminate.
    + rewrite IH. split.
      * intros Hall k' Hk'. apply elem_of_cons in Hk' as [->|Hk'];
          [exact E | apply Hall, Hk'].
      * intros Hall k' Hk'. apply Hall. right. exact Hk'.
Qed.

Lemma model_in_store_prefix (m : ParsedModel) (h h1 : Heap) :
  model_in_store m h -> h `prefix_of` h1 -> model_in_store m h1.
Proof.
  intros Hwf Hpre name t Ht. destruct (Hwf name t Ht) as [d Hd].
  exists d. eapply prefix_lookup_Some; eassumption.
Qed.

Lemma model_in_store_find (m : ParsedModel) (h : Heap) (aliases : list string) :
  model_in_store m h ->
  forall t, findTensor (tensors m) aliases = Some t -> is_Some (h !! data t).
Proof.
  intros Hwf t Ht. destruct (findTensor_Some _ _ _ Ht) as (k & _ & Hk).
  exact (Hwf k t Hk).
Qed.

Lemma scalar_resolved_prefix policy fallback tensor n total (h0 h h1 h' : Heap)
    field tag :
  (forall t, tensor = Some t -> is_Some (h0 !! data t)) ->
  h0 `prefix_of` h -> h1 `prefix_of` h' ->
  scalar_resolved policy fallback tensor n total h h1 field tag ->
  scalar_resolved policy fallback tensor n total h0 h' field tag.
Proof.
  intros Hwf Hp0 Hp1. unfold scalar_resolved. destruct tensor as [t|]; [|tauto].
  intros (d & l & Hd & Hf & Ht & Hl).
  destruct (Hwf t eq_refl) as [d0 Hd0].
  pose proof (prefix_lookup_Some _ _ _ _ Hd0 Hp0) as Hd0'.
  rewrite Hd in Hd0'. injection Hd0' as ->.
  exists d0, l. repeat split; try assumption.
  eapply prefix_lookup_Some; eassumption.
Qed.

Lemma resolveFields_run (m : ParsedModel) (om : OpacityMode) (cm : ColorMode)
    (sm : SigmaMode) (pt : TensorRecord) (pd : loc) (rep n v : Z) (h : Heap) :
  model_in_store m h ->
  0 <= n * v -> n * v * 3 <= arrayLimit ->
  exists (sd : SemanticData) (h' : Heap),
    resolveFields m om cm sm pt pd rep n v h = (inr sd, h') /\
    h `prefix_of` h' /\
    triangleCount (stats sd) = n /\
    totalVertices (stats sd) = n * v /\
    replacedPositionValues (stats sd) = rep /\
    pos_data (positions sd) = pd /\
    scalar_resolved (fun vs => applyOpacityPolicy vs om) (ofZ 1)
      (findTensor (tensors m) opacity_aliases) n (n * v) h h'
      (opacity sd) (opacityInterpretation (stats sd)) /\
    scalar_resolved (fun vs => applySigmaPolicy vs sm) c_0_1
      (findTensor (tensors m) sigma_aliases) n (n * v) h h'
      (sigma sd) (sigmaInterpretation (stats sd)).
Proof.
  intros Hwf Hnv0 Hlimit.
  assert (Hnv : 0 <= n * v <= arrayLimit) by lia.
  unfold resolveFields.
  rewrite (filled_ok (n * v * 3) c_half) by lia.
  unfold bind at 1. unfold of_result at 1.
  destruct (resolveColor_run (findTensor (tensors m) colorDC_aliases) cm n
              (replicate (Z.to_nat (n * v * 3)) (fround c_half)) h
              (model_in_store_find m h _ Hwf))
    as (colors & ctag & h1 & Hc & Hp1 & _).
  unfold bind at 1. rewrite Hc.
  pose proof (model_in_store_prefix _ _ _ Hwf Hp1) as Hwf1.
  destruct (resolveScalar_run (fun vs => applyOpacityPolicy vs om) (ofZ 1)
              (findTensor (tensors m) opacity_aliases) n (n * v) h1
              (model_in_store_find m h1 _ Hwf1) Hnv)
    as (alphas & otag & h2 & Ho & Hp2 & Hodesc).
  unfold bind at 1. rewrite Ho.
  pose proof (model_in_store_prefix _ _ _ Hwf1 Hp2) as Hwf2.
  destruct (resolveScalar_run (fun vs => applySigmaPolicy vs sm) c_0_1
              (findTensor (tensors m) sigma_aliases) n (n * v) h2
              (model_in_store_find m h2 _ Hwf2) Hnv)
    as (sigmas & stag & h3 & Hs & Hp3 & Hsdesc).
  unfold bind at 1. rewrite Hs.
  unfold bind at 1. unfold new_array, alloc. cbn [ret].
  eexists _, _. split; [reflexivity|]. cbn [stats triangleCount totalVertices
    replacedPositionValues positions pos_data opacity sigma opacityInterpretation
    sigmaInterpretation].
  assert (Hp4 : h3 `prefix_of` h3 ++ [Float32Array colors])
    by (apply prefix_app_r; reflexivity).
  split; [do 3 (etransitivity; [eassumption|]); exact Hp4|].
  do 4 (split; [reflexivity|]).
  split.
  - apply (scalar_resolved_prefix _ _ _ _ _ h h1 h2);
      [apply model_in_store_find, Hwf | exact Hp1
       | etransitivity; [exact Hp3 | exact Hp4] |].
    unfold scalar_resolved in *.
    destruct (findTensor (tensors m) opacity_aliases) as [t|].
    + destruct Hodesc as (d & l & Hd & -> & -> & Hl). exists d, l.
      repeat split; assumption.
    + destruct Hodesc as [-> ->]. split; reflexivity.
  - apply (scalar_resolved_prefix _ _ _ _ _ h h2 h3);
      [apply model_in_store_find, Hwf | etransitivity; [exact Hp1 | exact Hp2]
       | exact Hp4 |].
    unfold scalar_resolved in *.
    destruct (findTensor (tensors m) sigma_aliases) as [t|].
    + destruct Hsdesc as (d & l & Hd & -> & -> & Hl). exists d, l.
      repeat split; assumption.
    + destruct Hsdesc as [-> ->]. split; reflexivity.
Qed.

(** Beyond the largest array length, the allocation of the colours at
    line 81 throws, before any other array is made. *)
Lemma resolveFields_error (m : ParsedModel) (om : OpacityMode) (cm : ColorMode)
    (sm : SigmaMode) (pt : TensorRecord) (pd : loc) (rep n v : Z) (h : Heap) :
  n * v * 3 < 0 \/ arrayLimit < n * v * 3 ->
  resolveFields m om cm sm pt pd rep n v h = (inl InvalidArrayLength, h).
Proof.
  intros Hbig. unfold resolveFields.
  rewrite (filled_error (n * v * 3) c_half Hbig). reflexivity.
Qed.


(** The first part of [resolveSemantics], up to the sanitized position
    buffer: it succeeds whenever the position tensor's buffer exists. *)
Lemma resolve_positions_run (pt : TensorRecord) (h : Heap)
    (k : loc -> Z -> M ResolveError SemanticData) :
  is_Some (h !! data pt) ->
  exists (pd : loc) (rep : Z) (h2 : Heap),
    (let* positionData := toFloat32Array (data pt) in
     let* replaced := sanitizeFiniteInPlace positionData in
     k positionData replaced) h
    = k pd rep h2 /\
    (length h <= length h2)%nat /\
    (forall (l : loc) (arr : TensorData),
       h !! l = Some arr -> l <> data pt -> h2 !! l = Some arr) /\
    (forall l : loc, is_Some (h !! l) -> is_Some (h2 !! l)).
Proof.
  intros [d Hd].
  destruct (toFloat32Array_run _ _ _ Hd) as (pd & h1 & Hrun & Hpre & Hpd & Hwhere).
  unfold bind at 1. rewrite Hrun.
  unfold bind at 1. unfold sanitizeFiniteInPlace. rewrite Hpd.
  destruct (sanitize_loop (float32_values d)) as [out rep].
  exists pd, rep, (<[pd := Float32Array out]> h1).
  split; [reflexivity|].
  pose proof (prefix_length _ _ Hpre) as Hlen.
  split; [rewrite length_insert; lia|].
  split.
  - intros l arr Hl Hne.
    rewrite list_lookup_insert_ne.
    + eapply prefix_lookup_Some; eassumption.
    + apply lookup_lt_Some in Hl. destruct Hwhere as [-> | ->]; [congruence | lia].
  - intros l Hl. apply lookup_lt_is_Some. rewrite length_insert.
    apply lookup_lt_is_Some in Hl. lia.
Qed.

Lemma resolveSemantics_run (m : ParsedModel) (o : ResolveOptions) (h : Heap)
    (pt : TensorRecord) (n : Z) (rest : list Z) :
  model_in_store m h ->
  findTensor (tensors m) positions_aliases = Some pt ->
  shape pt = n :: 3 :: 3 :: rest ->
  0 <= n -> n * 3 * 3 <= arrayLimit ->
  exists (sd : SemanticData) (h' h2 : Heap),
    resolveSemantics m o h = (inr sd, h') /\
    (forall (l : loc) (arr : TensorData),
       h !! l = Some arr -> l <> data pt -> h2 !! l = Some arr) /\
    triangleCount (stats sd) = n /\
    totalVertices (stats sd) = n * 3 /\
    scalar_resolved
      (fun vs => applyOpacityPolicy vs (default opacity_auto (opacityMode o)))
      (ofZ 1) (findTensor (tensors m) opacity_aliases) n (n * 3) h2 h'
      (opacity sd) (opacityInterpretation (stats sd)) /\
    scalar_resolved
      (fun vs => applySigmaPolicy vs (default sigma_auto (sigmaMode o)))
      c_0_1 (findTensor (tensors m) sigma_aliases) n (n * 3) h2 h'
      (sigma sd) (sigmaInterpretation (stats sd)).
Proof.
  intros Hwf Hpt Hshape Hn Hlimit. unfold resolveSemantics. rewrite Hpt, Hshape.
  cbn [Z.eqb negb orb Pos.eqb].
  destruct (resolve_positions_run pt h
              (fun pd rep =>
                 resolveFields m (default opacity_auto (opacityMode o))
                   (default color_auto (colorMode o))
                   (default sigma_auto (sigmaMode o)) pt pd rep n 3)
              (model_in_store_find m h _ Hwf pt Hpt))
    as (pd & rep & h2 & Hrun & _ & Hkeep & Hsome).
  rewrite Hrun.
  assert (Hwf2 : model_in_store m h2).
  { intros name t Ht. apply Hsome. exact (Hwf name t Ht). }
  destruct (resolveFields_run m (default opacity_auto (opacityMode o))
              (default color_auto (colorMode o))
              (default sigma_auto (sigmaMode o)) pt pd rep n 3 h2 Hwf2 ltac:(lia)
              Hlimit)
    as (sd & h' & Hf & _ & Hn' & Ht' & _ & _ & Ho & Hs).
  exists sd, h', h2. rewrite Hf. repeat split; assumption.
Qed.

(** Beyond the largest array length the resolver throws at the allocation
    of the colours, after the position buffer is converted and sanitized. *)
Lemma resolveSemantics_too_large (m : ParsedModel) (o : ResolveOptions) (h : Heap)
    (pt : TensorRecord) (n : Z) (rest : list Z) :
  model_in_store m h ->
  findTensor (tensors m) positions_aliases = Some pt ->
  shape pt = n :: 3 :: 3 :: rest ->
  n * 3 * 3 < 0 \/ arrayLimit < n * 3 * 3 ->
  (resolveSemantics m o h).1 = inl InvalidArrayLength.
Proof.
  intros Hwf Hpt Hshape Hbig. unfold resolveSemantics. rewrite Hpt, Hshape.
  cbn [Z.eqb negb orb Pos.eqb].
  destruct (resolve_positions_run pt h
              (fun pd rep =>
                 resolveFields m (default opacity_auto (opacityMode o))
                   (default color_auto (colorMode o))
                   (default sigma_auto (sigmaMode o)) pt pd rep n 3)
              (model_in_store_find m h _ Hwf pt Hpt))
    as (pd & rep & h2 & Hrun & _).
  rewrite Hrun, (resolveFields_error _ _ _ _ _ _ _ _ _ _ Hbig). reflexivity.
Qed.

(** So a run that returns has allocated the 9N colour components. *)
Lemma resolveSemantics_fits (m : ParsedModel) (o : ResolveOptions) (h h' : Heap)
    (pt : TensorRecord) (n : Z) (rest : list Z) (sd : SemanticData) :
  model_in_store m h ->
  findTensor (tensors m) positions_aliases = Some pt ->
  shape pt = n :: 3 :: 3 :: rest ->
  resolveSemantics m o h = (inr sd, h') ->
  0 <= n * 9 <= arrayLimit.
Proof.
  intros Hwf Hpt Hshape Hrun.
  destruct (Z_lt_le_dec (n * 9) 0) as [Hneg|Hpos];
    [|destruct (Z_le_gt_dec (n * 9) arrayLimit) as [Hfit|Hbig]; [lia|]];
    exfalso;
    assert (Hbig' : n * 3 * 3 < 0 \/ arrayLimit < n * 3 * 3) by lia;
    pose proof (resolveSemantics_too_large m o h pt n rest Hwf Hpt Hshape Hbig')
      as Hfail;
    rewrite Hrun in Hfail; discriminate.
Qed.


End Run.

Lemma one_triangle_in_store : model_in_store one_triangle_model one_triangle_store.
Proof.
  intros name t Ht. unfold one_triangle_model in Ht. cbn [tensors] in Ht.
  apply lookup_insert_Some in Ht as [[_ <-]|[_ Ht]].
  - eexists. reflexivity.
  - rewrite lookup_empty in Ht. discriminate Ht.
Qed.

(** The container [oversized_container] parses to [oversized_model]. *)
Example oversized_parses :
  @FormatLoader_parse oversized_host oversized_container []
  = (inr oversized_model, oversized_store).
Proof. vm_compute. reflexivity. Qed.



(** ** Broadcast of one value per triangle to its three vertices *)

Lemma broadcastScalar_length (fallback : number) (applied out : list number) (tri : nat) :
  length (broadcastScalar fallback applied out tri) = length out.
Proof. unfold broadcastScalar. cbn [seq fold_left]. rewrite !length_insert. reflexivity. Qed.

Lemma broadcastScalar_other (fallback : number) (applied out : list number)
    (tri tri' v : nat) :
  tri' <> tri -> (v < 3)%nat ->
  broadcastScalar fallback applied out tri !! (tri' * 3 + v)%nat
  = out !! (tri' * 3 + v)%nat.
Proof.
  intros Hne Hv. unfold broadcastScalar. cbn [seq fold_left].
  rewrite !list_lookup_insert_ne by lia. reflexivity.
Qed.

Lemma broadcastScalar_here (fallback : number) (applied out : list number)
    (tri v : nat) :
  (tri * 3 + 2 < length out)%nat -> (v < 3)%nat ->
  broadcastScalar fallback applied out tri !! (tri * 3 + v)%nat
  = Some (fround (default fallback (applied !! tri))).
Proof.
  intros Hlen Hv. unfold broadcastScalar. cbn [seq fold_left].
  destruct v as [|[|[|v]]]; [| | |lia].
  - rewrite !list_lookup_insert_ne by lia.
    apply list_lookup_insert_eq. lia.
  - rewrite list_lookup_insert_ne by lia.
    apply list_lookup_insert_eq. rewrite length_insert. lia.
  - apply list_lookup_insert_eq. rewrite !length_insert. lia.
Qed.

Lemma broadcastScalar_fold_length (fallback : number) (applied : list number)
    (tris : list nat) (out : list number) :
  length (fold_left (broadcastScalar fallback applied) tris out) = length out.
Proof.
  revert out. induction tris as [|t tris IH]; intros out; [reflexivity|].
  cbn [fold_left]. rewrite IH. apply broadcastScalar_length.
Qed.

Lemma broadcastScalar_fold_other (fallback : number) (applied : list number)
    (tris : list nat) (out : list number) (tri v : nat) :
  tri ∉ tris -> (v < 3)%nat ->
  fold_left (broadcastScalar fallback applied) tris out !! (tri * 3 + v)%nat
  = out !! (tri * 3 + v)%nat.
Proof.
  revert out. induction tris as [|t tris IH]; intros out Hnotin Hv; [reflexivity|].
  apply not_elem_of_cons in Hnotin as [Hne Hnotin].
  cbn [fold_left]. rewrite IH by assumption.
  apply broadcastScalar_other; assumption.
Qed.

Lemma broadcastScalar_fold_here (fallback : number) (applied : list number)
    (tris : list nat) (out : list number) (tri v : nat) :
  (forall t, t ∈ tris -> (t * 3 + 2 < length out)%nat) ->
  tri ∈ tris -> (v < 3)%nat ->
  fold_left (broadcastScalar fallback applied) tris out !! (tri * 3 + v)%nat
  = Some (fround (default fallback (applied !! tri))).
Proof.
  revert out. induction tris as [|t tris IH]; intros out Hin_range Hin Hv.
  - inversion Hin.
  - cbn [fold_left].
    destruct (decide (tri ∈ tris)) as [Hlater|Hnot].
    + apply IH; [|assumption..].
      intros t' Ht'. rewrite broadcastScalar_length. apply Hin_range. right. exact Ht'.
    + apply elem_of_cons in Hin as [->|Hin]; [|contradiction].
      rewrite broadcastScalar_fold_other by assumption.
      apply broadcastScalar_here; [|assumption]. apply Hin_range. left.
Qed.

(** The array that the opacity or sigma block builds for [n] triangles:
    3n entries, and triangle [tri]'s value at its three vertices. *)
Lemma broadcast_all (fallback : number) (applied : list number) (n : Z) :
  0 <= n ->
  let out := fold_left (broadcastScalar fallback applied) (seq 0 (Z.to_nat n))
               (replicate (Z.to_nat (n * 3)) (fround (ofZ 0))) in
  length out = (Z.to_nat n * 3)%nat /\
  forall tri v : nat, (tri < Z.to_nat n)%nat -> (v < 3)%nat ->
    out !! (tri * 3 + v)%nat = Some (fround (default fallback (applied !! tri))).
Proof.
  intros Hn out. subst out. split.
  - rewrite broadcastScalar_fold_length, length_replicate. lia.
  - intros tri v Htri Hv. apply broadcastScalar_fold_here; [| |assumption].
    + intros t Ht. apply elem_of_seq in Ht. rewrite length_replicate. lia.
    + apply elem_of_seq. lia.
Qed.

(** ** Opacity and sigma policies *)

Section ScalarPolicies.
Context `{Host}.

Lemma scalar_resolved_broadcast (policy : list number -> list number * string)
    (fallback : number) (t : TensorRecord) (d : TensorData) (n : Z)
    (h2 h' : Heap) (field : option ScalarField) (tag : string) :
  0 <= n ->
  h2 !! data t = Some d ->
  scalar_resolved policy fallback (Some t) n (n * 3) h2 h' field tag ->
  exists (l : loc) (out : list number),
    field = Some {| scalar_data := l;
                    scalar_interpretation := (policy (float32_values d)).2 |} /\
    tag = (policy (float32_values d)).2 /\
    h' !! l = Some (Float32Array out) /\
    length out = (Z.to_nat n * 3)%nat /\
    forall tri v : nat, (tri < Z.to_nat n)%nat -> (v < 3)%nat ->
      out !! (tri * 3 + v)%nat
      = Some (fround (default fallback ((policy (float32_values d)).1 !! tri))).
Proof.
  intros Hn Hd (d' & l & Hd' & Hf & Ht & Hl).
  rewrite Hd in Hd'. injection Hd' as <-.
  destruct (broadcast_all fallback (policy (float32_values d)).1 n Hn) as [Hlen Hall].
  eexists l, _. split; [exact Hf|]. split; [exact Ht|].
  split; [exact Hl|]. split; [exact Hlen | exact Hall].
Qed.






End ScalarPolicies.

Lemma splat_model_in_store : model_in_store splat_model splat_store.
Proof.
  intros name t Ht. unfold splat_model in Ht. cbn [tensors] in Ht.
  repeat (apply lookup_insert_Some in Ht as [[_ <-]|[_ Ht]];
          [eexists; reflexivity|]).
  rewrite lookup_empty in Ht. discriminate Ht.
Qed.



(** ** Container parser: the size check of a TOC entry *)

Section Parser.
Context `{Host}.

Lemma product_from_spec (shape : list number) (ns : list Z) (acc : Z) :
  shape_dims shape ns -> product_from acc shape = inr (acc * dims_product ns).
Proof.
  intros Hdims. revert acc.
  induction Hdims as [|d n shape ns [Hd Hn] _ IH]; intros acc; cbn.
  - apply (f_equal inr). lia.
  - rewrite Hd. destruct (n <? 0) eqn:E; [apply Z.ltb_lt in E; lia|].
    rewrite IH. apply (f_equal inr). unfold dims_product. ring.
Qed.

Lemma product_spec (shape : list number) (ns : list Z) :
  shape <> [] -> shape_dims shape ns -> product shape = inr (dims_product ns).
Proof.
  intros Hne Hdims. unfold product. destruct shape as [|d shape]; [congruence|].
  rewrite (product_from_spec _ _ 1 Hdims). apply (f_equal inr). lia.
Qed.

Lemma product_from_error (shape : list number) (acc : Z) (e : ParseError) :
  product_from acc shape = inl e -> exists dim, e = InvalidShapeDimension dim.
Proof.
  revert acc. induction shape as [|d shape IH]; intros acc; cbn; [discriminate|].
  destruct (integerValue d) as [n|]; [|intros [= <-]; eauto].
  destruct (n <? 0); [intros [= <-]; eauto | apply IH].
Qed.

Lemma product_error (shape : list number) (e : ParseError) :
  product shape = inl e -> exists dim, e = InvalidShapeDimension dim.
Proof.
  unfold product. destruct shape; [discriminate | apply product_from_error].
Qed.

Lemma dims_product_nonneg (ns : list Z) :
  Forall (fun n => 0 <= n) ns -> 0 <= dims_product ns.
Proof.
  unfold dims_product. induction 1 as [|n ns Hn _ IH]; cbn [foldr]; [lia|].
  apply Z.mul_nonneg_nonneg; assumption.
Qed.

Lemma dims_product_zero (ns : list Z) :
  dims_product ns = 0 <-> 0 ∈ ns.
Proof.
  unfold dims_product. induction ns as [|n ns IH]; cbn [foldr].
  - split; [lia | intros Hin; inversion Hin].
  - rewrite elem_of_cons, <- IH. split.
    + intros Hz. apply Z.mul_eq_0 in Hz. destruct Hz as [->|Hz]; [left|right]; auto.
    + intros [<- | ->]; lia.
Qed.

Lemma shape_dims_nonneg (shape : list number) (ns : list Z) :
  shape_dims shape ns -> Forall (fun n => 0 <= n) ns.
Proof. induction 1 as [|d n shape ns [_ Hn] _ IH]; constructor; assumption. Qed.

Lemma typed_view_error (w : nat) (packed : list Byte.byte) (e : ParseError) :
  typed_view w packed = inl e -> e = RangeError.
Proof. unfold typed_view. destruct (_ =? _)%nat; congruence. Qed.

Lemma readTypedTensor_error (buffer : ArrayBuffer) (off n : Z) (dtype : TensorDType)
    (e : ParseError) :
  readTypedTensor buffer off n dtype = inl e -> e = RangeError.
Proof.
  unfold readTypedTensor. destruct (bytes_at buffer off n) as [packed|]; [|congruence].
  destruct dtype; try congruence; unfold map_ok;
    match goal with
    | |- context [typed_view ?w packed] =>
        destruct (typed_view w packed) eqn:E; [|discriminate];
        intros [= <-]; exact (typed_view_error _ _ _ E)
    end.
Qed.

(** Past its first two checks, [decodeEntry] is the size check followed by
    the decoding of the payload. *)
Lemma decodeEntry_checked (buffer : ArrayBuffer) (defs : list json)
    (start i rel nb code : Z) (dtype : TensorDType) (p : Z) (h : Heap) :
  DTYPE_CODE_TO_NAME code = Some dtype ->
  0 <= rel -> 0 <= nb -> start + rel + nb <= byteLength buffer ->
  product (entryShape defs i) = inr p ->
  decodeEntry buffer defs start i rel nb code h
  = if (p >? 0) && negb (p * DTYPE_BYTES dtype =? nb)
    then (inl (SizeMismatch (entryName defs i) (p * DTYPE_BYTES dtype) nb), h)
    else
      (let* d := of_result (readTypedTensor buffer (start + rel) nb dtype) in
       let* l := new_array d in
       ret (entryName defs i,
            {| data := l;
               shape := map (fun n => default 0 (integerValue n)) (entryShape defs i);
               dtype := dtype |})) h.
Proof.
  intros Hcode Hrel Hnb Hend Hp. unfold decodeEntry. rewrite Hcode.
  replace ((rel <? 0) || (nb <? 0) || (start + rel + nb >? byteLength buffer))
    with false.
  2:{ symmetry. rewrite !orb_false_iff. repeat split.
      - apply Z.ltb_ge; lia.
      - apply Z.ltb_ge; lia.
      - rewrite Z.gtb_ltb. apply Z.ltb_ge; lia. }
  rewrite Hp. unfold bind at 1. unfold of_result at 1.
  destruct ((p >? 0) && negb (p * DTYPE_BYTES dtype =? nb)); reflexivity.
Qed.


End Parser.



(** ** Container parser: the structural checks *)

Section Structure.
Context `{Host}.

Lemma header_tensors_truthy (header : json) :
  (if truthy header then prop header "tensors" else None) = prop header "tensors".
Proof. destruct header; cbn [truthy prop]; try reflexivity; destruct (_ : bool); reflexivity. Qed.

Lemma bytes_at_in_range (buffer : ArrayBuffer) (offset n : Z) :
  0 <= offset -> 0 <= n -> offset + n <= byteLength buffer ->
  bytes_at buffer offset n
  = Some (take (Z.to_nat n) (drop (Z.to_nat offset) buffer)).
Proof.
  intros Ho Hn Hend. unfold bytes_at.
  replace ((0 <=? offset) && (0 <=? n) && (offset + n <=? byteLength buffer))
    with true; [reflexivity|].
  symmetry. rewrite !andb_true_iff. repeat split; apply Z.leb_le; assumption.
Qed.

Lemma byte_val_range (b : Byte.byte) : 0 <= byte_val b < 256.
Proof.
  unfold byte_val. pose proof (Byte.to_N_bounded b) as Hb. lia.
Qed.

Lemma le_combine_nonneg (bs : list Byte.byte) : 0 <= le_combine bs.
Proof.
  induction bs as [|b bs IH]; cbn [le_combine]; [lia|].
  pose proof (byte_val_range b). lia.
Qed.

Lemma getUint32_in_range (buffer : ArrayBuffer) (offset : Z) :
  0 <= offset -> offset + 4 <= byteLength buffer ->
  exists v, getUint32 buffer offset = Some v /\ 0 <= v.
Proof.
  intros Ho Hend. unfold getUint32.
  rewrite bytes_at_in_range by lia. eexists. split; [reflexivity|].
  apply le_combine_nonneg.
Qed.

(** Past the length check, [parseContainer] is this cascade of checks. *)
Lemma parseContainer_unfold (buffer : ArrayBuffer) (expectedFormat : string)
    (h : Heap) :
  32 <= byteLength buffer ->
  let len := byteLength buffer in
  exists version headerLen tocLen : Z,
    getUint32 buffer 4 = Some version /\
    getUint32 buffer 8 = Some headerLen /\
    getUint32 buffer 12 = Some tocLen /\
    0 <= headerLen /\ 0 <= tocLen /\
    parseContainer buffer expectedFormat h
    = if negb (String.eqb (getMagic buffer) expectedFormat)
                then (inl (BadMagic expectedFormat (getMagic buffer)), h)
                else
                  if negb (tocLen mod 32 =? 0)
                  then (inl (InvalidTOCLength tocLen), h)
                  else
                    if 32 + headerLen + tocLen >? len
                    then (inl (HeaderTOCOverflow (32 + headerLen + tocLen) len), h)
                    else
                      match bytes_at buffer 32 headerLen with
                      | None => (inl RangeError, h)
                      | Some headerBytes =>
                          match JSON_parse headerBytes with
                          | inl message => (inl (InvalidHeader (BadJSON message)), h)
                          | inr header =>
                              match prop header "tensors" with
                              | Some (JArr defs) =>
                                  if Z.of_nat (length defs) <? tocLen / 32
                                  then (inl (HeaderTensorCountMismatch
                                               (Z.of_nat (length defs))
                                               (tocLen / 32)), h)
                                  else
                                    match parseEntries buffer defs
                                            (32 + headerLen + tocLen)
                                            (32 + headerLen) 0
                                            (Z.to_nat (tocLen / 32)) ∅ [] h with
                                    | (inl e, h') => (inl e, h')
                                    | (inr decoded, h') =>
                                        (inr (parsedModelOf expectedFormat version
                                                header (tocLen / 32)
                                                (32 + headerLen + tocLen) decoded),
                                         h')
                                    end
                              | _ => (inl (InvalidHeader MissingTensorsArray), h)
                              end
                          end
                      end.
Proof.
  intros Hlen len.
  destruct (getUint32_in_range buffer 4 ltac:(lia) ltac:(lia)) as (version & Hv & _).
  destruct (getUint32_in_range buffer 8 ltac:(lia) ltac:(lia))
    as (headerLen & Hh & Hh0).
  destruct (getUint32_in_range buffer 12 ltac:(lia) ltac:(lia))
    as (tocLen & Ht & Ht0).
  exists version, headerLen, tocLen.
  split; [exact Hv|]. split; [exact Hh|]. split; [exact Ht|].
  split; [exact Hh0|]. split; [exact Ht0|].
  unfold parseContainer, FILE_HEADER_SIZE, TOC_ENTRY_SIZE.
  replace (byteLength buffer <? 32) with false
    by (symmetry; apply Z.ltb_ge; exact Hlen).
  rewrite Hv, Hh, Ht. fold len.
  destruct (negb (String.eqb (getMagic buffer) expectedFormat)); [reflexivity|].
  destruct (negb (tocLen mod 32 =? 0)); [reflexivity|].
  destruct (32 + headerLen + tocLen >? len); [reflexivity|].
  destruct (bytes_at buffer 32 headerLen) as [headerBytes|]; [|reflexivity].
  destruct (JSON_parse headerBytes) as [message|header]; [reflexivity|].
  rewrite header_tensors_truthy.
  destruct (prop header "tensors") as [[| | | |defs|]|]; try reflexivity.
  destruct (Z.of_nat (length defs) <? tocLen / 32); [reflexivity|].
  unfold bind.
  destruct (parseEntries buffer defs (32 + headerLen + tocLen) (32 + headerLen) 0
              (Z.to_nat (tocLen / 32)) ∅ [] h) as [[e|decoded] h'];
    reflexivity.
Qed.

(** C9: the structural checks of [parseContainer], in the order of the
    code, each with its error: a buffer shorter than 32 bytes is
    BufferTooSmall; a magic other than the expected dialect is BadMagic; a
    TOC length that is no multiple of 32 is InvalidTOCLength; 32 + header
    length + TOC length beyond the buffer is HeaderTOCOverflow; a header
    that the host cannot decode and parse as JSON, or that has no tensors
    array, is InvalidHeader; a definitions array shorter than TOC length / 32
    is HeaderTensorCountMismatch; and when none of these holds the result is
    that of decoding the TOC entries one by one. *)
Theorem parseContainer_structure (buffer : ArrayBuffer) (expectedFormat : string)
    (h : Heap) :
  let len := byteLength buffer in
  let run := parseContainer buffer expectedFormat h in
  (len < 32 -> run = (inl (BufferTooSmall len), h)) /\
  (32 <= len ->
   exists version headerLen tocLen : Z,
     getUint32 buffer 4 = Some version /\
     getUint32 buffer 8 = Some headerLen /\
     getUint32 buffer 12 = Some tocLen /\
     (getMagic buffer <> expectedFormat ->
        run = (inl (BadMagic expectedFormat (getMagic buffer)), h)) /\
     (getMagic buffer = expectedFormat ->
        (tocLen mod 32 <> 0 -> run = (inl (InvalidTOCLength tocLen), h)) /\
        (tocLen mod 32 = 0 ->
           let start := 32 + headerLen + tocLen in
           (start > len -> run = (inl (HeaderTOCOverflow start len), h)) /\
           (start <= len ->
              exists headerBytes : list Byte.byte,
                bytes_at buffer 32 headerLen = Some headerBytes /\
                (forall message, JSON_parse headerBytes = inl message ->
                   run = (inl (InvalidHeader (BadJSON message)), h)) /\
                (forall header, JSON_parse headerBytes = inr header ->
                   ((forall defs, prop header "tensors" <> Some (JArr defs)) ->
                      run = (inl (InvalidHeader MissingTensorsArray), h)) /\
                   (forall defs, prop header "tensors" = Some (JArr defs) ->
                      let count := tocLen / 32 in
                      (Z.of_nat (length defs) < count ->
                         run = (inl (HeaderTensorCountMismatch
                                       (Z.of_nat (length defs)) count), h)) /\
                      (count <= Z.of_nat (length defs) ->
                         run
                         = match parseEntries buffer defs start (32 + headerLen) 0
                                   (Z.to_nat count) ∅ [] h with
                           | (inl e, h') => (inl e, h')
                           | (inr decoded, h') =>
                               (inr (parsedModelOf expectedFormat version header
                                       count start decoded), h')
                           end))))))).
Proof.
  intros len run. split.
  - intros Hlen. subst run. unfold parseContainer, FILE_HEADER_SIZE.
    replace (byteLength buffer <? 32) with true; [reflexivity|].
    symmetry. apply Z.ltb_lt. exact Hlen.
  - intros Hlen.
    destruct (parseContainer_unfold buffer expectedFormat h Hlen)
      as (version & headerLen & tocLen & Hv & Hh & Ht & Hh0 & Ht0 & Hstart).
    fold len run in Hstart.
    exists version, headerLen, tocLen.
    split; [exact Hv|]. split; [exact Hh|]. split; [exact Ht|].
    split.
    { intros Hm. rewrite Hstart.
      replace (String.eqb (getMagic buffer) expectedFormat) with false;
        [reflexivity|]. symmetry. apply String.eqb_neq. exact Hm. }
    intros Hm. apply String.eqb_eq in Hm. rewrite Hm in Hstart. cbn [negb] in Hstart.
    split.
    { intros Hmod. rewrite Hstart. apply Z.eqb_neq in Hmod. rewrite Hmod.
      reflexivity. }
    intros Hmod. apply Z.eqb_eq in Hmod. rewrite Hmod in Hstart. cbn [negb] in Hstart.
    split.
    { intros Hover. rewrite Hstart.
      replace (32 + headerLen + tocLen >? len) with true; [reflexivity|].
      symmetry. rewrite Z.gtb_ltb. apply Z.ltb_lt. lia. }
    intros Hfit.
    replace (32 + headerLen + tocLen >? len) with false in Hstart
      by (symmetry; rewrite Z.gtb_ltb; apply Z.ltb_ge; lia).
    rewrite bytes_at_in_range in Hstart by (fold len; lia).
    eexists. split; [apply bytes_at_in_range; fold len; lia|].
    split.
    { intros message Hj. rewrite Hstart, Hj. reflexivity. }
    intros header Hj. rewrite Hj in Hstart.
    split.
    { intros Hno. rewrite Hstart.
      destruct (prop header "tensors") as [[| | | |defs|]|]; try reflexivity.
      contradiction (Hno defs). reflexivity. }
    intros defs Hdefs. rewrite Hdefs in Hstart.
    split.
    { intros Hshort. rewrite Hstart.
      replace (Z.of_nat (length defs) <? tocLen / 32) with true; [reflexivity|].
      symmetry. apply Z.ltb_lt. exact Hshort. }
    intros Henough. rewrite Hstart.
    replace (Z.of_nat (length defs) <? tocLen / 32) with false; [reflexivity|].
    symmetry. apply Z.ltb_ge. exact Henough.
Qed.

(** ** Format detection and the magic check *)

Lemma decodeEntry_error (buffer : ArrayBuffer) (defs : list json)
    (start i rel nb code : Z) (h : Heap) (e : ParseError) :
  (decodeEntry buffer defs start i rel nb code h).1 = inl e ->
  is_entry_error e = true.
Proof.
  unfold decodeEntry.
  destruct (DTYPE_CODE_TO_NAME code) as [dtype|]; [|intros [= <-]; reflexivity].
  destruct (_ || _); [intros [= <-]; reflexivity|].
  unfold bind at 1. unfold of_result at 1.
  destruct (product (entryShape defs i)) as [e'|p] eqn:Ep.
  - intros [= <-]. destruct (product_error _ _ Ep) as [dim ->]. reflexivity.
  - destruct (_ && _); [intros [= <-]; reflexivity|].
    unfold bind at 1. unfold of_result at 1.
    destruct (readTypedTensor buffer (start + rel) nb dtype) as [e'|d] eqn:Er.
    + intros [= <-]. rewrite (readTypedTensor_error _ _ _ _ _ Er). reflexivity.
    + cbn. discriminate.
Qed.

Lemma parseEntries_error (buffer : ArrayBuffer) (defs : list json)
    (start : Z) (remaining : nat) (offset i : Z)
    (tensors : gmap string TensorRecord) (keys : list string) (h : Heap)
    (e : ParseError) :
  (parseEntries buffer defs start offset i remaining tensors keys h).1 = inl e ->
  is_entry_error e = true.
Proof.
  revert offset i tensors keys h.
  induction remaining as [|remaining IH]; intros offset i tensors keys h;
    cbn [parseEntries]; [discriminate|].
  destruct (readTocEntry buffer offset) as [[[rel nb] code]|];
    [|intros [= <-]; reflexivity].
  unfold bind.
  destruct (decodeEntry buffer defs start i rel nb code h) as [[e'|[name record]] h']
    eqn:Ed.
  - intros [= <-]. apply (decodeEntry_error buffer defs start i rel nb code h).
    rewrite Ed. reflexivity.
  - apply IH.
Qed.

Lemma parseContainer_own_magic (buffer : ArrayBuffer) (h : Heap) (e : ParseError) :
  (parseContainer buffer (getMagic buffer) h).1 = inl e -> is_BadMagic e = false.
Proof.
  destruct (Z_lt_dec (byteLength buffer) 32) as [Hshort|Hlong].
  - unfold parseContainer, FILE_HEADER_SIZE.
    replace (byteLength buffer <? 32) with true
      by (symmetry; apply Z.ltb_lt; exact Hshort).
    intros [= <-]. reflexivity.
  - destruct (parseContainer_unfold buffer (getMagic buffer) h ltac:(lia))
      as (version & headerLen & tocLen & _ & _ & _ & _ & _ & ->).
    rewrite String.eqb_refl. cbn [negb].
    destruct (negb (tocLen mod 32 =? 0)); [intros [= <-]; reflexivity|].
    destruct (32 + headerLen + tocLen >? byteLength buffer);
      [intros [= <-]; reflexivity|].
    destruct (bytes_at buffer 32 headerLen) as [headerBytes|];
      [|intros [= <-]; reflexivity].
    destruct (JSON_parse headerBytes) as [message|header];
      [intros [= <-]; reflexivity|].
    destruct (prop header "tensors") as [[| | | |defs|]|];
      try (intros [= <-]; reflexivity).
    destruct (Z.of_nat (length defs) <? tocLen / 32); [intros [= <-]; reflexivity|].
    destruct (parseEntries buffer defs (32 + headerLen + tocLen) (32 + headerLen) 0
                (Z.to_nat (tocLen / 32)) ∅ [] h) as [[e'|decoded] h'] eqn:Ee;
      [|discriminate].
    intros [= <-].
    apply (f_equal fst) in Ee. cbn [fst] in Ee.
    apply parseEntries_error in Ee.
    destruct e'; try discriminate Ee; reflexivity.
Qed.

(** C10: when format detection succeeds, the magic it read is one of
    TGSP, TSGD, TGSD and it is that very string that the parser receives as
    its expected format (for TGSD too, which [parseTSGD] gets as it is); so
    [FormatLoader.parse] never fails with BadMagic, on any buffer. *)
Theorem FormatLoader_parse_never_BadMagic (buffer : ArrayBuffer) (h : Heap) :
  (forall d : DetectedFormat,
     detectFormat buffer = inr d ->
     det_magic d = getMagic buffer /\
     (getMagic buffer = "TGSP"%string \/ getMagic buffer = "TSGD"%string \/
      getMagic buffer = "TGSD"%string) /\
     (det_parser d = parser_tsgd ->
        getMagic buffer <> "TGSP"%string /\
        FormatLoader_parse buffer = parseTSGD buffer (getMagic buffer)) /\
     FormatLoader_parse buffer = parseContainer buffer (getMagic buffer)) /\
  (4 <= byteLength buffer -> getMagic buffer = "TGSD"%string ->
     FormatLoader_parse buffer = parseTSGD buffer "TGSD") /\
  (forall e : ParseError,
     (FormatLoader_parse buffer h).1 = inl e -> is_BadMagic e = false).
Proof.
  assert (Hdetect : forall d : DetectedFormat,
     detectFormat buffer = inr d ->
     det_magic d = getMagic buffer /\
     (getMagic buffer = "TGSP"%string \/ getMagic buffer = "TSGD"%string \/
      getMagic buffer = "TGSD"%string) /\
     (det_parser d = parser_tsgd ->
        getMagic buffer <> "TGSP"%string /\
        FormatLoader_parse buffer = parseTSGD buffer (getMagic buffer)) /\
     FormatLoader_parse buffer = parseContainer buffer (getMagic buffer)).
  { intros d. unfold FormatLoader_parse, detectFormat.
    destruct (byteLength buffer <? 4); [discriminate|].
    destruct (String.eqb (getMagic buffer) "TGSP") eqn:E1.
    - apply String.eqb_eq in E1. intros [= <-]. cbn [det_magic det_parser].
      split; [reflexivity|]. split; [left; exact E1|].
      split; [discriminate|]. unfold parseTGSP. rewrite E1. reflexivity.
    - destruct (String.eqb (getMagic buffer) "TSGD" || String.eqb (getMagic buffer) "TGSD")
        eqn:E2; [|discriminate].
      intros [= <-]. cbn [det_magic det_parser].
      split; [reflexivity|]. split.
      + apply orb_prop in E2 as [E2|E2]; apply String.eqb_eq in E2; auto.
      + split; [|reflexivity]. intros _. split; [|reflexivity].
        apply String.eqb_neq. exact E1. }
  split; [exact Hdetect|]. split.
  - intros Hlen Hm. unfold FormatLoader_parse, detectFormat.
    replace (byteLength buffer <? 4) with false by (symmetry; apply Z.ltb_ge; lia).
    rewrite Hm. reflexivity.
  - intros e. destruct (detectFormat buffer) as [e'|d] eqn:Ed.
    + unfold FormatLoader_parse. rewrite Ed. intros [= <-].
      unfold detectFormat in Ed.
      destruct (byteLength buffer <? 4); [injection Ed as <-; reflexivity|].
      destruct (String.eqb (getMagic buffer) "TGSP"); [discriminate|].
      destruct (_ || _); [discriminate|]. injection Ed as <-. reflexivity.
    + destruct (Hdetect d eq_refl) as (_ & _ & _ & ->).
      apply parseContainer_own_magic.
Qed.

End Structure.

(** ** The sample container, end to end *)

(** The sample container parses to [one_triangle_model], with its buffer
    in [one_triangle_store]. *)
Example sample_parses :
  @FormatLoader_parse sample_host sample_container []
  = (inr one_triangle_model, one_triangle_store).
Proof. vm_compute. reflexivity. Qed.

(** Parsing the sample and resolving it: the position buffer of the Parsed
    Model, at location 0 of the store, holds NaN first before the resolver
    runs and 1.0 after it, and the Semantic Data refers to that same
    buffer. *)
Example sample_positions_sanitized_in_place :
  exists (m : ParsedModel) (h : Heap) (sd : SemanticData) (h' : Heap) (rest : list number),
    @FormatLoader_parse sample_host sample_container [] = (inr m, h) /\
    tensors m !! "positions"%string
    = Some {| data := 0%nat; shape := [1; 3; 3]; dtype := f32 |} /\
    h !! 0%nat = Some (Float32Array (S754_nan :: rest)) /\
    @resolveSemantics sample_host m default_options h = (inr sd, h') /\
    h' !! 0%nat = Some (Float32Array (ofZ 1 :: rest)) /\
    pos_data (positions sd) = 0%nat /\
    replacedPositionValues (stats sd) = 1.
Proof.
  do 5 eexists. split; [vm_compute; reflexivity|].
  split; [vm_compute; reflexivity|].
  split; [vm_compute; reflexivity|].
  split; [vm_compute; reflexivity|].
  split; [vm_compute; reflexivity|].
  split; vm_compute; reflexivity.
Qed.

Lemma parseContainer_structure_witness :
  32 <= byteLength sample_container /\
  getMagic sample_container = "TGSD"%string /\
  exists (m : ParsedModel) (h' : Heap),
    @parseContainer sample_host sample_container "TGSD" [] = (inr m, h') /\
    tensorCount (metadata m) = 1.
Proof.
  assert (Hlen : 32 <= byteLength sample_container) by (vm_compute; discriminate).
  split; [exact Hlen|]. split; [reflexivity|].
  destruct (proj2 (@parseContainer_structure sample_host sample_container "TGSD" [])
              Hlen)
    as (version & headerLen & tocLen & Hv & Hh & Ht & _ & Hok).
  vm_compute in Hv, Hh, Ht.
  injection Hv as <-. injection Hh as <-. injection Ht as <-.
  destruct (Hok eq_refl) as [_ Hmod].
  destruct (Hmod eq_refl) as [_ Hfit].
  destruct (Hfit ltac:(vm_compute; discriminate)) as (headerBytes & Hb & _ & Hgood).
  vm_compute in Hb. injection Hb as <-.
  destruct (Hgood sample_header eq_refl) as [_ Hdefs].
  destruct (Hdefs _ eq_refl) as [_ Henough].
  rewrite (Henough ltac:(vm_compute; discriminate)).
  eexists _, _. split; [vm_compute; reflexivity | reflexivity].
Defined.

Lemma FormatLoader_parse_never_BadMagic_witness :
  exists d : DetectedFormat,
    detectFormat sample_container = inr d /\
    det_magic d = "TGSD"%string /\
    @FormatLoader_parse sample_host sample_container
    = @parseTSGD sample_host sample_container "TGSD".
Proof.
  eexists. split; [reflexivity|]. split; [reflexivity|].
  apply (proj1 (proj2 (@FormatLoader_parse_never_BadMagic sample_host
                         sample_container []))).
  - vm_compute. discriminate.
  - reflexivity.
Defined.

(** * Further properties of the code *)

(** ** Half-precision decoder: the store of a decoded half is exact *)

(** The double that [float16ToFloat32] returns on a normal pattern. *)
Lemma half_normal_repr (fp16 : Z) :
  0 <= fp16 < 65536 ->
  exponent_field fp16 <> 0 -> exponent_field fp16 <> 31 ->
  float16ToFloat32 fp16
  = S754_finite (negb (sign_field fp16 =? 0))
      (significand_expected (fraction_field fp16)) (exponent_field fp16 - 67).
Proof.
  intros Hr He0 He31.
  destruct (half_fields_range fp16 Hr) as (Hs & He & Hf).
  unfold float16ToFloat32.
  apply Z.eqb_neq in He0, He31. rewrite He0, He31.
  apply Z.eqb_neq in He0, He31.
  rewrite scale_value by lia.
  destruct (fraction_facts (fraction_field fp16) Hf) as (Hsig & Hdig & _).
  unfold significand in Hsig. rewrite Hsig.
  rewrite mul_pow2_l by (try assumption; lia).
  rewrite Bool.xorb_false_r. f_equal. lia.
Qed.

(** The double that [float16ToFloat32] returns on a subnormal pattern:
    [fraction * 2^-24], with a full 53-bit significand. *)
Lemma half_subnormal_repr (fp16 : Z) :
  0 <= fp16 < 65536 ->
  exponent_field fp16 = 0 -> fraction_field fp16 <> 0 ->
  exists (M : positive) (k : Z),
    float16ToFloat32 fp16 = S754_finite (negb (sign_field fp16 =? 0)) M (- k - 24) /\
    digits2_pos M = 53%positive /\
    43 <= k <= 52 /\
    Z.pos M = fraction_field fp16 * 2 ^ k.
Proof.
  intros Hr He0 Hf0.
  destruct (half_fields_range fp16 Hr) as (Hs & He & Hf).
  unfold float16ToFloat32.
  rewrite He0. apply Z.eqb_neq in Hf0. rewrite Hf0. apply Z.eqb_neq in Hf0.
  change (0 =? 0) with true. cbv iota.
  change (pow2 (-14)) with (pow2 (1 - 15)).
  rewrite scale_value by lia.
  destruct (fraction_facts (fraction_field fp16) Hf) as (_ & _ & Hd).
  destruct (Hd Hf0) as (M & e & Hdiv & Hdig & Hrange & Hval).
  rewrite Hdiv.
  rewrite mul_pow2_l by (try assumption; lia).
  rewrite Bool.xorb_false_r.
  pose proof (digits2_pos_bounds M) as [Dlo Dhi]. rewrite Hdig in Dlo, Dhi.
  change (2 ^ (53 - 1)) with (2 ^ 52) in Dlo.
  set (f := fraction_field fp16) in *.
  (* 2^52 * 1024 <= f * 2^(-e) < 2^53 * 1024, with 1 <= f < 1024 *)
  assert (Hk1 : 53 <= - e).
  { destruct (Z_le_dec 53 (- e)) as [|Hn]; [assumption|exfalso].
    assert (2 ^ (- e) <= 2 ^ 52) by (apply Z.pow_le_mono_r; lia).
    assert (f * 2 ^ (- e) <= 1023 * 2 ^ 52) by nia.
    change (2 ^ 52) with 4503599627370496 in *. lia. }
  assert (Hk2 : - e <= 62).
  { destruct (Z_le_dec (- e) 62) as [|Hn]; [assumption|exfalso].
    assert (2 ^ 63 <= 2 ^ (- e)) by (apply Z.pow_le_mono_r; lia).
    assert (2 ^ 63 <= f * 2 ^ (- e)) by nia.
    change (2 ^ 63) with 9223372036854775808 in *.
    change (2 ^ 53) with 9007199254740992 in *. lia. }
  exists M, (- e - 10). split; [f_equal; lia|].
  split; [exact Hdig|]. split; [lia|].
  assert (Hp : 2 ^ (- e) = 2 ^ (- e - 10) * 1024).
  { replace (- e) with ((- e - 10) + 10) at 1 by lia.
    rewrite Z.pow_add_r by lia. reflexivity. }
  rewrite Hp in Hval. lia.
Qed.

Lemma fround_finite_not (x : number) : isFinite x = false -> fround x = x.
Proof. destruct x; try discriminate; reflexivity. Qed.

(** The store of a decoded half into a [Float32Array] is exact. *)
Lemma half_exact (fp16 : Z) :
  0 <= fp16 < 65536 ->
  fround (float16ToFloat32 fp16) = float16ToFloat32 fp16.
Proof.
  intros Hr.
  destruct (half_fields_range fp16 Hr) as (Hs & He & Hf).
  destruct (Z.eq_dec (exponent_field fp16) 0) as [He0|He0].
  - destruct (Z.eq_dec (fraction_field fp16) 0) as [Hf0|Hf0].
    + unfold float16ToFloat32. rewrite He0, Hf0. reflexivity.
    + destruct (half_subnormal_repr fp16 Hr He0 Hf0) as (M & k & -> & Hd & Hk & HM).
      apply (fround_exact _ M (Z.to_pos (fraction_field fp16 * 2 ^ (k - 29))) _ 29);
        try lia; try assumption.
      rewrite Z2Pos.id.
      * rewrite HM. replace k with ((k - 29) + 29) at 1 by lia.
        rewrite Z.pow_add_r by lia. ring.
      * apply Z.mul_pos_pos; [lia|]. apply Z.pow_pos_nonneg; lia.
  - destruct (Z.eq_dec (exponent_field fp16) 31) as [He31|He31].
    + unfold float16ToFloat32. rewrite He31. cbn [Z.eqb].
      destruct (sign_field fp16 =? 0); vm_compute; reflexivity.
    + rewrite (half_normal_repr fp16 Hr He0 He31).
      destruct (fraction_facts (fraction_field fp16) Hf) as (_ & Hdig & _).
      apply (fround_exact _ _ (Z.to_pos ((1024 + fraction_field fp16) * 2 ^ 13)) _ 29);
        try lia; try assumption.
      unfold significand_expected. rewrite !Z2Pos.id by lia.
      change (2 ^ 42) with (2 ^ 13 * 2 ^ 29). change (Z.pos 29) with 29. ring.
Qed.

Lemma toQ_abs_bound (s : bool) (M : positive) (E A B : Z) (C : Q) :
  Z.pos M <= A -> E <= B -> (inject_Z A * 2 ^ B <= C)%Q ->
  (Qabs (toQ (S754_finite s M E)) <= C)%Q.
Proof.
  intros HA HB HC.
  assert (Hp : (0 <= 2 ^ E)%Q) by (apply Qpower_0_le; discriminate).
  assert (Hm : (0 <= inject_Z (Z.pos M))%Q).
  { change 0%Q with (inject_Z 0). rewrite <- Zle_Qle. lia. }
  assert (Habs : (Qabs (toQ (S754_finite s M E)) == inject_Z (Z.pos M) * 2 ^ E)%Q).
  { rewrite toQ_finite, !Qabs_Qmult.
    rewrite (Qabs_pos (inject_Z (Z.pos M))) by exact Hm.
    rewrite (Qabs_pos (2 ^ E)) by exact Hp.
    destruct s; [change (Qabs (-1)) with 1%Q | change (Qabs 1) with 1%Q]; ring. }
  rewrite Habs.
  eapply Qle_trans; [|exact HC].
  apply Qmult_le_compat_nonneg.
  - split; [exact Hm|]. rewrite <- Zle_Qle. exact HA.
  - split; [exact Hp|]. apply Qpower_le_compat_l; [exact HB | discriminate].
Qed.

(** The half decoder returns no NaN and no infinity, and nothing beyond
    65504 in magnitude. *)
Lemma half_bounded (fp16 : Z) :
  0 <= fp16 < 65536 ->
  isFinite (float16ToFloat32 fp16) = true /\
  (Qabs (toQ (float16ToFloat32 fp16)) <= 65504)%Q.
Proof.
  intros Hr.
  destruct (half_fields_range fp16 Hr) as (Hs & He & Hf).
  destruct (Z.eq_dec (exponent_field fp16) 0) as [He0|He0].
  - destruct (Z.eq_dec (fraction_field fp16) 0) as [Hf0|Hf0].
    + unfold float16ToFloat32. rewrite He0, Hf0. split; [reflexivity | discriminate].
    + destruct (half_subnormal_repr fp16 Hr He0 Hf0) as (M & k & -> & Hd & Hk & HM).
      split; [reflexivity|].
      pose proof (digits2_pos_bounds M) as [_ Dhi]. rewrite Hd in Dhi.
      apply (toQ_abs_bound _ _ _ (2 ^ 53) (-67)); [lia | lia | vm_compute; discriminate].
  - destruct (Z.eq_dec (exponent_field fp16) 31) as [He31|He31].
    + unfold float16ToFloat32. rewrite He31. cbn [Z.eqb].
      destruct (sign_field fp16 =? 0); split; try reflexivity; vm_compute; discriminate.
    + rewrite (half_normal_repr fp16 Hr He0 He31).
      split; [reflexivity|].
      apply (toQ_abs_bound _ _ _ (2047 * 2 ^ 42) (-37));
        [|lia | vm_compute; discriminate].
      unfold significand_expected. rewrite Z2Pos.id by lia.
      apply Z.mul_le_mono_nonneg_r; lia.
Qed.

(** X1: on every 16-bit pattern the half decoder returns a finite
    number (no NaN, no infinity) of magnitude at most 65504, and that number
    is a binary32 value: the store into the [Float32Array] of an f16 tensor
    does not round it. *)
Theorem float16ToFloat32_finite_exact (fp16 : Z) :
  0 <= fp16 < 65536 ->
  isFinite (float16ToFloat32 fp16) = true /\
  (Qabs (toQ (float16ToFloat32 fp16)) <= 65504)%Q /\
  fround (float16ToFloat32 fp16) = float16ToFloat32 fp16.
Proof.
  intros Hr. destruct (half_bounded fp16 Hr) as [Hfin Hbound].
  split; [exact Hfin|]. split; [exact Hbound | exact (half_exact fp16 Hr)].
Qed.

Lemma float16ToFloat32_finite_exact_witness :
  0 <= 0x7bff < 65536 /\
  isFinite (float16ToFloat32 0x7bff) = true /\
  (Qabs (toQ (float16ToFloat32 0x7bff)) <= 65504)%Q /\
  fround (float16ToFloat32 0x7bff) = float16ToFloat32 0x7bff.
Proof.
  split; [lia|]. apply (float16ToFloat32_finite_exact 0x7bff). lia.
Defined.

(** Every binary32 bit pattern reads as a number that a [Float32Array]
    holds. *)
Lemma float32_of_bits_is_float32 (w : Z) :
  0 <= w -> is_float32 (float32_of_bits w).
Proof.
  intros Hw. unfold float32_of_bits.
  pose proof (land_below w 0x7fffff 23 Hw ltac:(lia) ltac:(reflexivity)) as Hm.
  assert (He : 0 <= Z.land (Z.shiftr w 23) 0xff < 2 ^ 8).
  { apply land_below; [apply Z.shiftr_nonneg; lia | lia | reflexivity]. }
  set (e := Z.land (Z.shiftr w 23) 0xff) in *.
  set (m := Z.land w 0x7fffff) in *.
  change (2 ^ 8) with 256 in He. change (2 ^ 23) with 8388608 in *.
  destruct (e =? 0) eqn:E0.
  - destruct (m =? 0) eqn:M0; [reflexivity|].
    apply Z.eqb_neq in M0.
    assert (Hd : Z.pos (digits2_pos (Z.to_pos m)) <= 23).
    { pose proof (digits2_pos_bounds (Z.to_pos m)) as [Dlo _].
      rewrite Z2Pos.id in Dlo by lia.
      destruct (Z_le_dec (Z.pos (digits2_pos (Z.to_pos m))) 23) as [|Hn];
        [assumption|exfalso].
      assert (2 ^ 23 <= 2 ^ (Z.pos (digits2_pos (Z.to_pos m)) - 1))
        by (apply Z.pow_le_mono_r; lia).
      change (2 ^ 23) with 8388608 in *. lia. }
    apply of32_is_float32; lia.
  - apply Z.eqb_neq in E0.
    destruct (e =? 255) eqn:E255.
    + destruct (m =? 0); reflexivity.
    + apply Z.eqb_neq in E255.
      assert (Hd : Z.pos (digits2_pos (Z.to_pos (m + 8388608))) = 24).
      { apply digits2_pos_unique. rewrite Z2Pos.id by lia.
        change (2 ^ (24 - 1)) with 8388608. change (2 ^ 24) with 16777216. lia. }
      apply of32_is_float32; lia.
Qed.

(** ** Container parser: what a parsed tensor is *)

Lemma le_combine_bound (bs : list Byte.byte) :
  0 <= le_combine bs < 256 ^ Z.of_nat (length bs).
Proof.
  induction bs as [|b bs IH]; cbn [le_combine length]; [cbn; lia|].
  rewrite Nat2Z.inj_succ, Z.pow_succ_r by lia.
  pose proof (byte_val_range b).
  set (p := 256 ^ Z.of_nat (length bs)) in *. lia.
Qed.

Lemma words_le_props (w n : nat) (packed : list Byte.byte) :
  length (words_le w n packed) = n /\
  Forall (fun z => 0 <= z < 256 ^ Z.of_nat w) (words_le w n packed).
Proof.
  revert packed. induction n as [|n IH]; intros packed; cbn [words_le].
  - split; [reflexivity | constructor].
  - destruct (IH (drop w packed)) as [Hl Hf]. split; [cbn; lia|].
    constructor; [|exact Hf].
    pose proof (le_combine_bound (take w packed)) as [Hlo Hhi].
    split; [exact Hlo|].
    eapply Z.lt_le_trans; [exact Hhi|].
    apply Z.pow_le_mono_r; [lia|]. rewrite length_take. lia.
Qed.

Lemma typed_view_ok (w : nat) (packed : list Byte.byte) (ws : list Z) :
  (0 < w)%nat ->
  typed_view w packed = inr ws ->
  (length ws * w = length packed)%nat /\
  Forall (fun z => 0 <= z < 256 ^ Z.of_nat w) ws.
Proof.
  intros Hw. unfold typed_view.
  destruct (length packed mod w =? 0)%nat eqn:E; [|discriminate].
  intros [= <-]. apply Nat.eqb_eq in E.
  destruct (words_le_props w (length packed / w) packed) as [Hl Hf].
  split; [|exact Hf]. rewrite Hl.
  pose proof (Nat.div_mod (length packed) w ltac:(lia)). lia.
Qed.

Lemma typed_view_multiple (w : nat) (packed : list Byte.byte) :
  (0 < w)%nat ->
  (exists ws, typed_view w packed = inr ws) <-> (length packed mod w = 0)%nat.
Proof.
  intros Hw. unfold typed_view.
  destruct (length packed mod w =? 0)%nat eqn:E.
  - apply Nat.eqb_eq in E. split; [intros _; exact E | intros _; eauto].
  - apply Nat.eqb_neq in E. split; [intros [ws Hws]; discriminate | intros; contradiction].
Qed.

Lemma toSigned_range (bits z : Z) :
  0 < bits -> 0 <= z < 2 ^ bits ->
  - 2 ^ (bits - 1) <= toSigned bits z < 2 ^ (bits - 1).
Proof.
  intros Hb Hz. unfold toSigned.
  assert (Hp : 2 ^ bits = 2 * 2 ^ (bits - 1)).
  { replace bits with (Z.succ (bits - 1)) at 1 by lia.
    apply Z.pow_succ_r. lia. }
  destruct (z <? 2 ^ (bits - 1)) eqn:E;
    [apply Z.ltb_lt in E | apply Z.ltb_ge in E];
    set (p := 2 ^ (bits - 1)) in *; lia.
Qed.

Lemma half_store_exact (w : Z) :
  0 <= w < 65536 ->
  fround (float16ToFloat32 w) = float16ToFloat32 w /\
  isFinite (float16ToFloat32 w) = true.
Proof.
  intros Hr. split; [exact (half_exact w Hr) | apply (half_bounded w Hr)].
Qed.

Lemma bytes_at_Some (buffer : ArrayBuffer) (off n : Z) (packed : list Byte.byte) :
  bytes_at buffer off n = Some packed ->
  0 <= off /\ 0 <= n /\ off + n <= byteLength buffer /\
  Z.of_nat (length packed) = n.
Proof.
  unfold bytes_at.
  destruct ((0 <=? off) && (0 <=? n) && (off + n <=? byteLength buffer)) eqn:E;
    [|discriminate].
  apply andb_prop in E as [E E3]. apply andb_prop in E as [E1 E2].
  apply Z.leb_le in E1, E2, E3. intros [= <-].
  repeat split; try assumption.
  unfold byteLength in E3. rewrite length_take, length_drop. lia.
Qed.

(** What [readTypedTensor] returns: the typed array of the dtype, with one
    element for each [DTYPE_BYTES] bytes. *)
Lemma readTypedTensor_ok (buffer : ArrayBuffer) (off n : Z) (dtype : TensorDType)
    (d : TensorData) :
  readTypedTensor buffer off n dtype = inr d ->
  array_of_dtype dtype d /\ data_length d * DTYPE_BYTES dtype = n.
Proof.
  unfold readTypedTensor.
  destruct (bytes_at buffer off n) as [packed|] eqn:Eb; [|discriminate].
  apply bytes_at_Some in Eb as (_ & _ & _ & Hlen).
  destruct dtype; try discriminate; unfold map_ok.
  - destruct (typed_view 2 packed) as [|ws] eqn:Ev; [discriminate|].
    intros [= <-]. apply typed_view_ok in Ev as [Hl Hf]; [|lia].
    cbn [array_of_dtype data_length DTYPE_BYTES]. rewrite length_map. split; [|lia].
    apply Forall_map. eapply Forall_impl; [exact Hf|].
    intros w Hw. cbn beta. change (256 ^ Z.of_nat 2) with 65536 in Hw.
    destruct (half_store_exact w Hw) as [Hex Hfin].
    unfold is_float32. rewrite !Hex. split; [reflexivity | exact Hfin].
  - destruct (typed_view 4 packed) as [|ws] eqn:Ev; [discriminate|].
    intros [= <-]. apply typed_view_ok in Ev as [Hl Hf]; [|lia].
    cbn [array_of_dtype data_length DTYPE_BYTES]. rewrite length_map. split; [|lia].
    apply Forall_map. eapply Forall_impl; [exact Hf|].
    intros w Hw. cbn beta. apply float32_of_bits_is_float32. exact (proj1 Hw).
  - intros [= <-]. cbn [array_of_dtype data_length DTYPE_BYTES].
    rewrite length_map. split; [|lia].
    apply Forall_map, Forall_forall. intros b _. apply byte_val_range.
  - destruct (typed_view 4 packed) as [|ws] eqn:Ev; [discriminate|].
    intros [= <-]. apply typed_view_ok in Ev as [Hl Hf]; [|lia].
    cbn [array_of_dtype data_length DTYPE_BYTES]. rewrite length_map. split; [|lia].
    apply Forall_map. eapply Forall_impl; [exact Hf|].
    intros w Hw. cbn beta. change (256 ^ Z.of_nat 4) with (2 ^ 32) in Hw.
    apply (toSigned_range 32 w); [lia | exact Hw].
  - destruct (typed_view 8 packed) as [|ws] eqn:Ev; [discriminate|].
    intros [= <-]. apply typed_view_ok in Ev as [Hl Hf]; [|lia].
    cbn [array_of_dtype data_length DTYPE_BYTES]. rewrite length_map. split; [|lia].
    apply Forall_map. eapply Forall_impl; [exact Hf|].
    intros w Hw. cbn beta. change (256 ^ Z.of_nat 8) with (2 ^ 64) in Hw.
    apply (toSigned_range 64 w); [lia | exact Hw].
Qed.

Section ParsedTensors.
Context `{Host}.

Lemma product_from_dims (shape : list number) (acc p : Z) :
  product_from acc shape = inr p ->
  shape_dims shape (map (fun n => default 0 (integerValue n)) shape).
Proof.
  revert acc. induction shape as [|dim shape IH]; intros acc; cbn [product_from map].
  - intros _. constructor.
  - destruct (integerValue dim) as [n|] eqn:En; [|discriminate].
    destruct (n <? 0) eqn:Eneg; [discriminate|]. apply Z.ltb_ge in Eneg.
    intros Hrest. constructor; [|exact (IH _ Hrest)].
    rewrite En. split; [reflexivity | exact Eneg].
Qed.

Lemma DTYPE_BYTES_pos (code : Z) (dtype : TensorDType) :
  DTYPE_CODE_TO_NAME code = Some dtype -> 0 < DTYPE_BYTES dtype /\ dtype <> unknown.
Proof.
  unfold DTYPE_CODE_TO_NAME.
  repeat (destruct (code =? _); [intros [= <-]; split; [reflexivity | discriminate]|]).
  discriminate.
Qed.

Lemma decodeEntry_fail (buffer : ArrayBuffer) (defs : list json)
    (start i rel nb code : Z) (h h' : Heap) (e : ParseError) :
  decodeEntry buffer defs start i rel nb code h = (inl e, h') -> h' = h.
Proof.
  unfold decodeEntry.
  destruct (DTYPE_CODE_TO_NAME code) as [dtype|]; [|intros [= _ <-]; reflexivity].
  destruct (_ || _); [intros [= _ <-]; reflexivity|].
  unfold bind at 1. unfold of_result at 1.
  destruct (product (entryShape defs i)) as [e'|p]; [intros [= _ <-]; reflexivity|].
  destruct (_ && _); [intros [= _ <-]; reflexivity|].
  unfold bind at 1. unfold of_result at 1.
  destruct (readTypedTensor buffer (start + rel) nb dtype) as [e'|d];
    [intros [= _ <-]; reflexivity|].
  cbn. discriminate.
Qed.

(** An entry that decodes: one array is allocated, at the end of the
    store, and the record describes it. *)
Lemma decodeEntry_ok (buffer : ArrayBuffer) (defs : list json)
    (start i rel nb code : Z) (h h' : Heap) (name : string) (t : TensorRecord) :
  decodeEntry buffer defs start i rel nb code h = (inr (name, t), h') ->
  exists d : TensorData,
    h' = h ++ [d] /\ data t = length h /\ name = entryName defs i /\
    DTYPE_CODE_TO_NAME code = Some (dtype t) /\
    array_of_dtype (dtype t) d /\
    data_length d * DTYPE_BYTES (dtype t) = nb /\
    Forall (fun n => 0 <= n) (shape t) /\
    (shape t <> [] -> 0 < dims_product (shape t) ->
     data_length d = dims_product (shape t)).
Proof.
  unfold decodeEntry.
  destruct (DTYPE_CODE_TO_NAME code) as [dt|] eqn:Ecode; [|discriminate].
  destruct (_ || _); [discriminate|].
  unfold bind at 1. unfold of_result at 1.
  destruct (product (entryShape defs i)) as [e'|p] eqn:Ep; [discriminate|].
  destruct ((p >? 0) && negb (p * DTYPE_BYTES dt =? nb)) eqn:Esize; [discriminate|].
  unfold bind at 1. unfold of_result at 1.
  destruct (readTypedTensor buffer (start + rel) nb dt) as [e'|d] eqn:Er;
    [discriminate|].
  cbn. intros [= <- <- <-].
  destruct (readTypedTensor_ok _ _ _ _ _ Er) as [Hkind Hlen].
  destruct (DTYPE_BYTES_pos _ _ Ecode) as [Hw _].
  exists d. cbn [data shape dtype].
  split; [reflexivity|]. split; [reflexivity|]. split; [reflexivity|].
  split; [reflexivity|]. split; [exact Hkind|]. split; [exact Hlen|].
  destruct (entryShape defs i) as [|dim shape] eqn:Eshape.
  - split; [constructor | intros Hne; contradiction].
  - unfold product in Ep.
    pose proof (product_from_dims _ _ _ Ep) as Hdims.
    pose proof (product_from_spec _ _ 1 Hdims) as Hspec.
    set (ns := map (fun n => default 0 (integerValue n)) (dim :: shape)) in *.
    assert (Hp : p = 1 * dims_product ns) by congruence.
    split; [exact (shape_dims_nonneg _ _ Hdims)|].
    intros _ Hpos.
    assert (Hpp : (p >? 0) = true) by (rewrite Z.gtb_ltb; apply Z.ltb_lt; lia).
    rewrite Hpp in Esize. cbn [andb] in Esize.
    apply negb_false_iff, Z.eqb_eq in Esize.
    apply (Z.mul_reg_r _ _ (DTYPE_BYTES dt)); lia.
Qed.

Lemma tensor_ok_prefix (h h1 : Heap) (t : TensorRecord) :
  h `prefix_of` h1 -> tensor_ok h t -> tensor_ok h1 t.
Proof.
  intros Hpre (d & Hd & Hrest). exists d.
  split; [eapply prefix_lookup_Some; eassumption | exact Hrest].
Qed.

Lemma entries_inv_step (h0 h : Heap) (tensors : gmap string TensorRecord)
    (keys : list string) (name : string) (t : TensorRecord) (d : TensorData) :
  entries_inv h0 tensors keys h ->
  data t = length h ->
  array_of_dtype (dtype t) d ->
  Forall (fun n => 0 <= n) (shape t) ->
  (shape t <> [] -> 0 < dims_product (shape t) ->
   data_length d = dims_product (shape t)) ->
  entries_inv h0 (<[name := t]> tensors) (add_key name keys) (h ++ [d]).
Proof.
  intros (Hpre & Hbuf & Hinj & Hnd & Hkeys) Hdata Hkind Hdims Hcount.
  pose proof (prefix_length _ _ Hpre) as Hlen0.
  assert (Hpre1 : h `prefix_of` h ++ [d]) by (apply prefix_app_r; reflexivity).
  split; [etransitivity; eassumption|].
  split; [|split; [|split]].
  - intros name' t' Hl. apply lookup_insert_Some in Hl as [[<- <-]|[Hne Hl]].
    + split; [rewrite length_app; cbn [length]; lia|].
      exists d. split; [rewrite Hdata; apply list_lookup_middle; reflexivity|].
      split; [exact Hkind|]. split; assumption.
    + destruct (Hbuf _ _ Hl) as [Hb Hok].
      split; [rewrite length_app; cbn [length]; lia|].
      exact (tensor_ok_prefix _ _ _ Hpre1 Hok).
  - intros n1 n2 t1 t2 H1 H2 Heq.
    apply lookup_insert_Some in H1 as [[<- <-]|[Hne1 H1]];
      apply lookup_insert_Some in H2 as [[<- <-]|[Hne2 H2]].
    + reflexivity.
    + destruct (Hbuf _ _ H2) as [Hb _]. lia.
    + destruct (Hbuf _ _ H1) as [Hb _]. lia.
    + exact (Hinj _ _ _ _ H1 H2 Heq).
  - unfold add_key. destruct (decide (name ∈ keys)) as [Hin|Hout]; [exact Hnd|].
    apply NoDup_app. split; [exact Hnd|]. split; [|apply NoDup_singleton].
    intros x Hx Hx'. apply list_elem_of_singleton in Hx'. subst x. contradiction.
  - intros name'. unfold add_key.
    destruct (decide (name' = name)) as [->|Hne].
    + rewrite lookup_insert_eq. split; [intros _; eauto|]. intros _.
      destruct (decide (name ∈ keys)); [assumption|].
      apply elem_of_app. right. apply list_elem_of_singleton. reflexivity.
    + rewrite lookup_insert_ne by congruence. rewrite <- Hkeys.
      destruct (decide (name ∈ keys)); [reflexivity|].
      rewrite elem_of_app, list_elem_of_singleton. tauto.
Qed.

Lemma add_key_length (name : string) (keys : list string) :
  (length (add_key name keys) <= S (length keys))%nat.
Proof.
  unfold add_key. destruct (decide (name ∈ keys)); [lia|].
  rewrite length_app. cbn [length]. lia.
Qed.

Lemma parseEntries_inv (buffer : ArrayBuffer) (defs : list json) (start : Z)
    (remaining : nat) (offset i : Z) (tensors : gmap string TensorRecord)
    (keys : list string) (h0 h : Heap) :
  entries_inv h0 tensors keys h ->
  let run := parseEntries buffer defs start offset i remaining tensors keys h in
  h0 `prefix_of` run.2 /\
  forall decoded, run.1 = inr decoded ->
    entries_inv h0 decoded.1 decoded.2 run.2 /\
    (length decoded.2 <= length keys + remaining)%nat.
Proof.
  revert offset i tensors keys h.
  induction remaining as [|remaining IH]; intros offset i tensors keys h Hinv;
    cbn [parseEntries].
  - cbn. split; [apply Hinv|]. intros decoded [= <-]. split; [exact Hinv | cbn; lia].
  - destruct (readTocEntry buffer offset) as [[[rel nb] code]|].
    2:{ cbn. split; [apply Hinv | discriminate]. }
    unfold bind.
    destruct (decodeEntry buffer defs start i rel nb code h) as [[e|[name t]] h1]
      eqn:Ed.
    + apply decodeEntry_fail in Ed as ->. cbn. split; [apply Hinv | discriminate].
    + apply decodeEntry_ok in Ed
        as (d & -> & Hdata & _ & _ & Hkind & _ & Hdims & Hcount).
      pose proof (entries_inv_step h0 h tensors keys name t d Hinv Hdata Hkind
                    Hdims Hcount) as Hinv'.
      destruct (IH (offset + TOC_ENTRY_SIZE) (i + 1) _ _ _ Hinv') as [Hpre Hok].
      split; [exact Hpre|]. intros decoded Hdec.
      destruct (Hok decoded Hdec) as [Hi Hl]. split; [exact Hi|].
      pose proof (add_key_length name keys). lia.
Qed.

Lemma entries_inv_empty (h : Heap) : entries_inv h ∅ [] h.
Proof.
  split; [reflexivity|]. split; [intros name t Hl; rewrite lookup_empty in Hl; discriminate|].
  split; [intros n1 n2 t1 t2 Hl; rewrite lookup_empty in Hl; discriminate|].
  split; [constructor|].
  intros name. rewrite lookup_empty. split.
  - intros Hin. inversion Hin.
  - intros [x Hx]. discriminate.
Qed.

(** [parseContainer] either fails before the TOC loop, leaving the store
    as it is, or runs the loop from an empty mapping. *)
Lemma parseContainer_entries (buffer : ArrayBuffer) (expectedFormat : string)
    (h : Heap) :
  let run := parseContainer buffer expectedFormat h in
  (exists e, run = (inl e, h)) \/
  exists (version headerLen tocLen : Z) (header : json) (defs : list json),
    32 <= byteLength buffer /\
    getMagic buffer = expectedFormat /\
    getUint32 buffer 4 = Some version /\
    getUint32 buffer 8 = Some headerLen /\
    getUint32 buffer 12 = Some tocLen /\
    0 <= headerLen /\ 0 <= tocLen /\ tocLen mod 32 = 0 /\
    32 + headerLen + tocLen <= byteLength buffer /\
    prop header "tensors" = Some (JArr defs) /\
    tocLen / 32 <= Z.of_nat (length defs) /\
    run = match parseEntries buffer defs (32 + headerLen + tocLen) (32 + headerLen) 0
                  (Z.to_nat (tocLen / 32)) ∅ [] h with
          | (inl e, h') => (inl e, h')
          | (inr decoded, h') =>
              (inr (parsedModelOf expectedFormat version header (tocLen / 32)
                      (32 + headerLen + tocLen) decoded), h')
          end.
Proof.
  intros run. subst run.
  destruct (Z_lt_dec (byteLength buffer) 32) as [Hshort|Hlong].
  { left. unfold parseContainer, FILE_HEADER_SIZE.
    replace (byteLength buffer <? 32) with true
      by (symmetry; apply Z.ltb_lt; exact Hshort).
    eauto. }
  destruct (parseContainer_unfold buffer expectedFormat h ltac:(lia))
    as (version & headerLen & tocLen & Hv & Hh & Ht & Hh0 & Ht0 & ->).
  destruct (String.eqb (getMagic buffer) expectedFormat) eqn:Emagic;
    cbn [negb]; [|left; eauto].
  apply String.eqb_eq in Emagic.
  destruct (tocLen mod 32 =? 0) eqn:Etoc; cbn [negb]; [|left; eauto].
  apply Z.eqb_eq in Etoc.
  destruct (32 + headerLen + tocLen >? byteLength buffer) eqn:Eover; [left; eauto|].
  rewrite Z.gtb_ltb in Eover. apply Z.ltb_ge in Eover.
  destruct (bytes_at buffer 32 headerLen) as [headerBytes|]; [|left; eauto].
  destruct (JSON_parse headerBytes) as [message|header]; [left; eauto|].
  destruct (prop header "tensors") as [[| | | |defs|]|] eqn:Eprop;
    try (left; eauto; fail).
  destruct (Z.of_nat (length defs) <? tocLen / 32) eqn:Ecount; [left; eauto|].
  apply Z.ltb_ge in Ecount.
  right. exists version, headerLen, tocLen, header, defs.
  repeat (split; [first [assumption | lia]|]). reflexivity.
Qed.

End ParsedTensors.

Section ParsedModels.
Context `{Host}.

(** X4: [parseContainer] never touches an array that exists already,
    whether it returns or throws.  Each tensor of the model it returns has a
    buffer that the call allocated, two tensors never share a buffer, and so
    every buffer of the model exists in the store. *)
Theorem parseContainer_buffers (buffer : ArrayBuffer) (expectedFormat : string)
    (h : Heap) :
  let run := parseContainer buffer expectedFormat h in
  h `prefix_of` run.2 /\
  forall m : ParsedModel, run.1 = inr m ->
    (forall name t, tensors m !! name = Some t ->
       (length h <= data t < length run.2)%nat) /\
    (forall name name' t t',
       tensors m !! name = Some t -> tensors m !! name' = Some t' ->
       name <> name' -> data t <> data t') /\
    model_in_store m run.2.
Proof.
  intros run. subst run.
  destruct (parseContainer_entries buffer expectedFormat h)
    as [[e ->]|(version & headerLen & tocLen & header & defs & _ & _ & _ & _ & _ & _
                & _ & _ & _ & _ & _ & ->)].
  { cbn. split; [reflexivity | discriminate]. }
  pose proof (parseEntries_inv buffer defs (32 + headerLen + tocLen)
                (Z.to_nat (tocLen / 32)) (32 + headerLen) 0 ∅ [] h h
                (entries_inv_empty h)) as [Hpre Hok].
  cbn zeta in Hpre, Hok.
  destruct (parseEntries buffer defs (32 + headerLen + tocLen) (32 + headerLen) 0
              (Z.to_nat (tocLen / 32)) ∅ [] h) as [[e|decoded] h'].
  { cbn. split; [exact Hpre | discriminate]. }
  cbn [fst snd] in *. split; [exact Hpre|].
  intros m [= <-].
  destruct (Hok decoded eq_refl) as [(_ & Hbuf & Hinj & _) _].
  cbn [tensors parsedModelOf].
  split; [intros name t Ht; apply (Hbuf name t Ht)|].
  split.
  - intros name name' t t' Ht Ht' Hne Heq. apply Hne.
    exact (Hinj _ _ _ _ Ht Ht' Heq).
  - intros name t Ht. cbn [tensors parsedModelOf] in Ht.
    destruct (Hbuf name t Ht) as [_ (d & Hd & _)]. exists d. exact Hd.
Qed.

(** X5: in the model that [parseContainer] returns, the buffer of each
    tensor is the typed array of its dtype, which is never unknown: a
    [Float32Array] of binary32 values for f32 and for f16 (finite ones for
    f16), a [Uint8Array], an [Int32Array] or a [BigInt64Array] with elements
    in range; every dimension is a non-negative integer; and a non-empty
    shape with a positive product counts the elements of the buffer. *)
Theorem parseContainer_tensors (buffer : ArrayBuffer) (expectedFormat : string)
    (h : Heap) (m : ParsedModel) (name : string) (t : TensorRecord) :
  (parseContainer buffer expectedFormat h).1 = inr m ->
  tensors m !! name = Some t ->
  dtype t <> unknown /\
  exists d : TensorData,
    (parseContainer buffer expectedFormat h).2 !! data t = Some d /\
    array_of_dtype (dtype t) d /\
    Forall (fun n => 0 <= n) (shape t) /\
    (shape t <> [] -> 0 < dims_product (shape t) ->
     data_length d = dims_product (shape t)).
Proof.
  destruct (parseContainer_entries buffer expectedFormat h)
    as [[e ->]|(version & headerLen & tocLen & header & defs & _ & _ & _ & _ & _ & _
                & _ & _ & _ & _ & _ & ->)]; [discriminate|].
  pose proof (parseEntries_inv buffer defs (32 + headerLen + tocLen)
                (Z.to_nat (tocLen / 32)) (32 + headerLen) 0 ∅ [] h h
                (entries_inv_empty h)) as [_ Hok].
  cbn zeta in Hok.
  destruct (parseEntries buffer defs (32 + headerLen + tocLen) (32 + headerLen) 0
              (Z.to_nat (tocLen / 32)) ∅ [] h) as [[e|decoded] h']; [discriminate|].
  cbn [fst snd] in *. intros [= <-] Ht. cbn [tensors parsedModelOf] in Ht.
  destruct (Hok decoded eq_refl) as [(_ & Hbuf & _) _].
  destruct (Hbuf name t Ht) as [_ (d & Hd & Hkind & Hrest)].
  split; [|exists d; split; [exact Hd | split; [exact Hkind | exact Hrest]]].
  intros Hu. rewrite Hu in Hkind. exact Hkind.
Qed.

(** X6: the metadata of the model that [parseContainer] returns repeats
    the fixed header: the format is TGSP exactly for the TGSP magic (TSGD
    and TGSD both give TSGD), the version is the word at offset 4, the
    tensor count is the TOC length over 32, the data section starts at
    32 + header length + TOC length, inside the buffer.  The names are the
    keys of the tensor mapping, each once, so that there are at most as many
    as TOC entries (two entries of the same name leave one tensor). *)
Theorem parseContainer_metadata (buffer : ArrayBuffer) (expectedFormat : string)
    (h : Heap) (m : ParsedModel) :
  (parseContainer buffer expectedFormat h).1 = inr m ->
  getMagic buffer = expectedFormat /\
  (format m = FmtTGSP <-> expectedFormat = "TGSP"%string) /\
  meta_format (metadata m) = format m /\
  meta_version (metadata m) = version m /\
  getUint32 buffer 4 = Some (version m) /\
  (exists headerLen tocLen : Z,
     getUint32 buffer 8 = Some headerLen /\
     getUint32 buffer 12 = Some tocLen /\
     tocLen = 32 * tensorCount (metadata m) /\
     dataSectionStart (metadata m) = 32 + headerLen + tocLen /\
     dataSectionStart (metadata m) <= byteLength buffer) /\
  NoDup (names (metadata m)) /\
  (forall name, name ∈ names (metadata m) <-> is_Some (tensors m !! name)) /\
  Z.of_nat (length (names (metadata m))) <= tensorCount (metadata m).
Proof.
  destruct (parseContainer_entries buffer expectedFormat h)
    as [[e ->]|(ver & headerLen & tocLen & header & defs & _ & Hmagic & Hv & Hh
                & Ht & Hh0 & Ht0 & Hmod & Hfit & _ & _ & ->)]; [discriminate|].
  pose proof (parseEntries_inv buffer defs (32 + headerLen + tocLen)
                (Z.to_nat (tocLen / 32)) (32 + headerLen) 0 ∅ [] h h
                (entries_inv_empty h)) as [_ Hok].
  cbn zeta in Hok.
  destruct (parseEntries buffer defs (32 + headerLen + tocLen) (32 + headerLen) 0
              (Z.to_nat (tocLen / 32)) ∅ [] h) as [[e|decoded] h']; [discriminate|].
  cbn [fst snd] in *. intros [= <-].
  destruct (Hok decoded eq_refl) as [(_ & _ & _ & Hnd & Hkeys) Hlen].
  cbn [parsedModelOf format version tensors metadata meta_format meta_version
       tensorCount names dataSectionStart].
  split; [exact Hmagic|]. split.
  { destruct (String.eqb expectedFormat "TGSP") eqn:E.
    - apply String.eqb_eq in E. tauto.
    - apply String.eqb_neq in E. split; [discriminate | contradiction]. }
  split; [reflexivity|]. split; [reflexivity|]. split; [exact Hv|].
  split.
  { exists headerLen, tocLen. split; [exact Hh|]. split; [exact Ht|].
    split; [|split; [reflexivity | exact Hfit]].
    pose proof (Z.div_mod tocLen 32 ltac:(lia)). lia. }
  split; [exact Hnd|]. split; [exact Hkeys|].
  cbn [length] in Hlen.
  assert (0 <= tocLen / 32) by (apply Z.div_pos; lia). lia.
Qed.

End ParsedModels.

Lemma parseContainer_tensors_witness :
  exists d : TensorData,
    (@parseContainer sample_host sample_container "TGSD" []).2 !! 0%nat = Some d /\
    array_of_dtype f32 d /\
    data_length d = dims_product [1; 3; 3].
Proof.
  destruct (@parseContainer_tensors sample_host sample_container "TGSD" []
              one_triangle_model "positions"
              {| data := 0%nat; shape := [1; 3; 3]; dtype := f32 |})
    as [_ (d & Hd & Hkind & _ & Hcount)].
  - vm_compute. reflexivity.
  - vm_compute. reflexivity.
  - exists d. split; [exact Hd|]. split; [exact Hkind|].
    apply Hcount; [discriminate | reflexivity].
Defined.

Lemma parseContainer_metadata_witness :
  getUint32 sample_container 4 = Some 1 /\
  NoDup ["positions"%string] /\
  Z.of_nat (length ["positions"%string]) <= 1.
Proof.
  destruct (@parseContainer_metadata sample_host sample_container "TGSD" []
              one_triangle_model)
    as (_ & _ & _ & _ & Hv & _ & Hnd & _ & Hlen).
  - vm_compute. reflexivity.
  - split; [exact Hv|]. split; [exact Hnd | exact Hlen].
Defined.

Section Decoding.
Context `{Host}.

Lemma take_drop_length (buffer : ArrayBuffer) (off n : Z) :
  0 <= off -> 0 <= n -> off + n <= byteLength buffer ->
  length (take (Z.to_nat n) (drop (Z.to_nat off) buffer)) = Z.to_nat n.
Proof.
  intros Ho Hn Hend. unfold byteLength in Hend.
  rewrite length_take, length_drop. lia.
Qed.

Lemma mod_nat_Z (a : Z) (w : nat) :
  0 <= a -> (0 < w)%nat ->
  (Z.to_nat a mod w = 0)%nat <-> a mod Z.of_nat w = 0.
Proof.
  intros Ha Hw.
  rewrite <- (Z2Nat.id a) at 2 by exact Ha.
  rewrite <- Nat2Z.inj_mod. lia.
Qed.

(** [readTypedTensor] returns an array exactly when the byte range lies
    inside the buffer and its length is a multiple of the element width. *)
Lemma readTypedTensor_succeeds (buffer : ArrayBuffer) (off n : Z)
    (dtype : TensorDType) :
  dtype <> unknown ->
  (exists d, readTypedTensor buffer off n dtype = inr d) <->
  0 <= off /\ 0 <= n /\ off + n <= byteLength buffer /\
  n mod DTYPE_BYTES dtype = 0.
Proof.
  intros Hknown. split.
  - intros [d Hd].
    destruct (readTypedTensor_ok _ _ _ _ _ Hd) as [_ Hlen].
    unfold readTypedTensor in Hd.
    destruct (bytes_at buffer off n) as [packed|] eqn:Eb; [|discriminate].
    apply bytes_at_Some in Eb as (Ho & Hn & Hend & _).
    repeat split; try assumption.
    rewrite <- Hlen. apply Z.mod_mul.
    destruct dtype; cbn; congruence.
  - intros (Ho & Hn & Hend & Hmod).
    unfold readTypedTensor. rewrite (bytes_at_in_range _ _ _ Ho Hn Hend).
    set (packed := take (Z.to_nat n) (drop (Z.to_nat off) buffer)).
    assert (Hlen : length packed = Z.to_nat n) by (apply take_drop_length; assumption).
    assert (Hview : forall w : nat, (0 < w)%nat -> n mod Z.of_nat w = 0 ->
              exists ws, typed_view w packed = inr ws).
    { intros w Hw Hm. apply typed_view_multiple; [exact Hw|].
      rewrite Hlen. apply mod_nat_Z; assumption. }
    destruct dtype; try contradiction; cbn [DTYPE_BYTES] in Hmod; unfold map_ok.
    + destruct (Hview 2%nat ltac:(lia) Hmod) as [ws ->]. eauto.
    + destruct (Hview 4%nat ltac:(lia) Hmod) as [ws ->]. eauto.
    + eauto.
    + destruct (Hview 4%nat ltac:(lia) Hmod) as [ws ->]. eauto.
    + destruct (Hview 8%nat ltac:(lia) Hmod) as [ws ->]. eauto.
Qed.

(** X2: [readTypedTensor] returns an array exactly when the byte range
    lies inside the buffer and its length is a multiple of the element
    width; the array is then the typed array of the dtype, with one element
    for each [DTYPE_BYTES] bytes.  Every failure is the [RangeError] of the
    typed-array constructors. *)
Theorem readTypedTensor_range (buffer : ArrayBuffer) (off n : Z)
    (dtype : TensorDType) :
  dtype <> unknown ->
  ((exists d, readTypedTensor buffer off n dtype = inr d) <->
   0 <= off /\ 0 <= n /\ off + n <= byteLength buffer /\
   n mod DTYPE_BYTES dtype = 0) /\
  (forall d, readTypedTensor buffer off n dtype = inr d ->
     array_of_dtype dtype d /\ data_length d * DTYPE_BYTES dtype = n) /\
  (forall e, readTypedTensor buffer off n dtype = inl e -> e = RangeError).
Proof.
  intros Hknown.
  split; [exact (readTypedTensor_succeeds buffer off n dtype Hknown)|].
  split; [apply readTypedTensor_ok | apply readTypedTensor_error].
Qed.

Lemma shape_dims_values (shape : list number) (ns : list Z) :
  shape_dims shape ns -> map (fun n => default 0 (integerValue n)) shape = ns.
Proof.
  induction 1 as [|d n shape ns [Hd _] _ IH]; cbn [map]; [reflexivity|].
  rewrite Hd, IH. reflexivity.
Qed.


Lemma getMagic_length (buffer : ArrayBuffer) (magic : string) :
  getMagic buffer = magic -> String.length magic = 4%nat -> 4 <= byteLength buffer.
Proof.
  intros <- Hlen. unfold getMagic in Hlen. unfold byteLength.
  destruct buffer as [|b0 [|b1 [|b2 [|b3 rest]]]]; cbn in Hlen; try discriminate.
  cbn [length]. lia.
Qed.

(** What [FormatLoader.parse] does, by the magic. *)
Lemma FormatLoader_parse_dispatch (buffer : ArrayBuffer) :
  FormatLoader_parse buffer
  = if byteLength buffer <? 4 then throw DetectBufferTooSmall
    else if String.eqb (getMagic buffer) "TGSP"
            || String.eqb (getMagic buffer) "TSGD"
            || String.eqb (getMagic buffer) "TGSD"
         then parseContainer buffer (getMagic buffer)
         else throw (UnsupportedFormat (getMagic buffer)).
Proof.
  unfold FormatLoader_parse, detectFormat.
  destruct (byteLength buffer <? 4); [reflexivity|].
  destruct (String.eqb (getMagic buffer) "TGSP") eqn:E1.
  - apply String.eqb_eq in E1. cbn. unfold parseTGSP. rewrite E1. reflexivity.
  - cbn [orb]. destruct (_ || _); reflexivity.
Qed.

(** X7: the legacy [TGSPLoader.parse] and [FormatLoader.parse] agree on
    every buffer whose magic is TGSP, so whatever the legacy loader returns
    [FormatLoader.parse] returns too, a model of format TGSP.  On any other
    buffer the legacy loader fails: with BufferTooSmall below 32 bytes, and
    with BadMagic otherwise, also for the TSGD and TGSD containers that
    [FormatLoader.parse] accepts. *)
Theorem TGSPLoader_parse_agrees (buffer : ArrayBuffer) (h : Heap) :
  (getMagic buffer = "TGSP"%string ->
     TGSPLoader_parse buffer h = FormatLoader_parse buffer h) /\
  (forall m h', TGSPLoader_parse buffer h = (inr m, h') ->
     FormatLoader_parse buffer h = (inr m, h') /\ format m = FmtTGSP) /\
  (byteLength buffer < 32 ->
     TGSPLoader_parse buffer h = (inl (BufferTooSmall (byteLength buffer)), h)) /\
  (32 <= byteLength buffer -> getMagic buffer <> "TGSP"%string ->
     TGSPLoader_parse buffer h = (inl (BadMagic "TGSP" (getMagic buffer)), h)).
Proof.
  assert (Hagree : getMagic buffer = "TGSP"%string ->
            TGSPLoader_parse buffer h = FormatLoader_parse buffer h).
  { intros Hmagic. rewrite FormatLoader_parse_dispatch.
    pose proof (getMagic_length buffer _ Hmagic eq_refl) as Hlen.
    replace (byteLength buffer <? 4) with false by (symmetry; apply Z.ltb_ge; lia).
    rewrite Hmagic. reflexivity. }
  split; [exact Hagree|]. split; [|split].
  - intros m h' Hrun. unfold TGSPLoader_parse in Hrun.
    destruct (parseContainer_entries buffer "TGSP" h)
      as [[e He]|(ver & headerLen & tocLen & header & defs & _ & Hmagic & _ & _ & _
                  & _ & _ & _ & _ & _ & _ & He)];
      cbn zeta in He; rewrite He in Hrun; [discriminate|].
    split.
    + rewrite <- (Hagree Hmagic). unfold TGSPLoader_parse. rewrite He. exact Hrun.
    + destruct (parseEntries _ _ _ _ _ _ _ _ _) as [[e|decoded] h1];
        [discriminate|].
      injection Hrun as <- _. reflexivity.
  - intros Hshort. unfold TGSPLoader_parse, parseContainer, FILE_HEADER_SIZE.
    replace (byteLength buffer <? 32) with true by (symmetry; apply Z.ltb_lt; lia).
    reflexivity.
  - intros Hlong Hmagic. unfold TGSPLoader_parse.
    destruct (parseContainer_unfold buffer "TGSP" h Hlong)
      as (version & headerLen & tocLen & _ & _ & _ & _ & _ & ->).
    apply String.eqb_neq in Hmagic. rewrite Hmagic. reflexivity.
Qed.

(** X8: what [FormatLoader.parse] reports before the container parser
    does any work.  The magic is looked at before the length of the file: a
    buffer of fewer than 4 bytes cannot be detected; from 4 bytes on, a magic
    other than TGSP, TSGD and TGSD is an unsupported format, whatever the
    length; and a supported magic on fewer than 32 bytes is a file too
    small.  None of these failures allocates. *)
Theorem FormatLoader_parse_rejects (buffer : ArrayBuffer) (h : Heap) :
  let magic := getMagic buffer in
  let supported := magic = "TGSP"%string \/ magic = "TSGD"%string \/
                   magic = "TGSD"%string in
  (byteLength buffer < 4 ->
     FormatLoader_parse buffer h = (inl DetectBufferTooSmall, h)) /\
  (4 <= byteLength buffer -> ~ supported ->
     FormatLoader_parse buffer h = (inl (UnsupportedFormat magic), h)) /\
  (4 <= byteLength buffer < 32 -> supported ->
     FormatLoader_parse buffer h = (inl (BufferTooSmall (byteLength buffer)), h)).
Proof.
  intros magic supported. rewrite FormatLoader_parse_dispatch. fold magic.
  assert (Hsup : String.eqb magic "TGSP" || String.eqb magic "TSGD"
                 || String.eqb magic "TGSD" = true <-> supported).
  { unfold supported. rewrite !orb_true_iff, !String.eqb_eq. tauto. }
  split; [|split].
  - intros Hshort.
    replace (byteLength buffer <? 4) with true by (symmetry; apply Z.ltb_lt; lia).
    reflexivity.
  - intros Hlen Hno.
    replace (byteLength buffer <? 4) with false by (symmetry; apply Z.ltb_ge; lia).
    destruct (_ || _ || _); [exfalso; apply Hno, Hsup; reflexivity | reflexivity].
  - intros Hlen Hyes.
    replace (byteLength buffer <? 4) with false by (symmetry; apply Z.ltb_ge; lia).
    rewrite (proj2 Hsup Hyes).
    unfold parseContainer, FILE_HEADER_SIZE.
    replace (byteLength buffer <? 32) with true by (symmetry; apply Z.ltb_lt; lia).
    reflexivity.
Qed.

End Decoding.

Lemma readTypedTensor_range_witness :
  f32 <> unknown /\
  exists d, readTypedTensor payload_36 0 36 f32 = inr d.
Proof.
  assert (Hknown : f32 <> unknown) by discriminate.
  split; [exact Hknown|].
  apply (proj1 (readTypedTensor_range payload_36 0 36 f32 Hknown)).
  vm_compute. repeat split; discriminate.
Defined.


Section ParsedInvariant.
Context `{Host}.

(** The model that [parseContainer] returns satisfies the invariant of the
    TOC loop, and so does the one that [FormatLoader.parse] returns. *)
Lemma parseContainer_inv (buffer : ArrayBuffer) (expectedFormat : string)
    (h h' : Heap) (m : ParsedModel) :
  parseContainer buffer expectedFormat h = (inr m, h') ->
  entries_inv h (tensors m) (names (metadata m)) h'.
Proof.
  destruct (parseContainer_entries buffer expectedFormat h)
    as [[e ->]|(ver & headerLen & tocLen & header & defs & _ & _ & _ & _ & _ & _
                & _ & _ & _ & _ & _ & ->)]; [discriminate|].
  pose proof (parseEntries_inv buffer defs (32 + headerLen + tocLen)
                (Z.to_nat (tocLen / 32)) (32 + headerLen) 0 ∅ [] h h
                (entries_inv_empty h)) as [_ Hok].
  cbn zeta in Hok.
  destruct (parseEntries buffer defs (32 + headerLen + tocLen) (32 + headerLen) 0
              (Z.to_nat (tocLen / 32)) ∅ [] h) as [[e|decoded] h1]; [discriminate|].
  cbn [fst snd] in *. intros [= <- <-].
  exact (proj1 (Hok decoded eq_refl)).
Qed.

Lemma FormatLoader_parse_inv (buffer : ArrayBuffer) (h h' : Heap) (m : ParsedModel) :
  FormatLoader_parse buffer h = (inr m, h') ->
  entries_inv h (tensors m) (names (metadata m)) h'.
Proof.
  rewrite FormatLoader_parse_dispatch.
  destruct (byteLength buffer <? 4); [discriminate|].
  destruct (_ || _ || _); [apply parseContainer_inv | discriminate].
Qed.

Lemma entries_inv_model_in_store (h0 h : Heap) (m : ParsedModel) (keys : list string) :
  entries_inv h0 (tensors m) keys h -> model_in_store m h.
Proof.
  intros (_ & Hbuf & _) name t Ht.
  destruct (Hbuf name t Ht) as [_ (d & Hd & _)]. exists d. exact Hd.
Qed.

End ParsedInvariant.

(** ** Sanitization is a forward fill *)

Lemma forward_fill_length (prev : number) (values : list number) :
  length (forward_fill prev values) = length values.
Proof.
  revert prev. induction values as [|x values IH]; intros prev; cbn; [reflexivity|].
  rewrite IH. reflexivity.
Qed.

Lemma forward_fill_lookup_S (prev : number) (values : list number) (i : nat)
    (x y : number) :
  values !! S i = Some x -> forward_fill prev values !! i = Some y ->
  forward_fill prev values !! S i = Some (if isFinite x then x else y).
Proof.
  revert prev i. induction values as [|x0 values IH]; intros prev i; [discriminate|].
  cbn [forward_fill]. destruct i as [|i].
  - destruct values as [|x1 values]; [discriminate|].
    cbn. intros [= ->] [= ->]. reflexivity.
  - cbn [lookup list_lookup]. intros Hx Hy. change (values !! S i = Some x) in Hx.
    change (forward_fill (if isFinite x0 then x0 else prev) values !! i = Some y) in Hy.
    exact (IH _ _ Hx Hy).
Qed.

Lemma first_finite_among_none (w : list number) (i : Z) (offsets : list Z) :
  Forall (fun x => isFinite x = false) w ->
  first_finite_among w i offsets = ofZ 0.
Proof.
  intros Hnone. unfold first_finite_among.
  assert (Hno : forall k, finite_at w k = None).
  { intros k. destruct (finite_at w k) as [v|] eqn:E; [|reflexivity].
    apply finite_at_Some in E as [Hin Hf].
    rewrite Forall_forall in Hnone. rewrite (Hnone v Hin) in Hf. discriminate. }
  induction offsets as [|o offsets IH]; [reflexivity|].
  cbn [omap list_omap]. rewrite Hno. exact IH.
Qed.

Lemma forward_fill_none (prev : number) (values : list number) :
  Forall (fun x => isFinite x = false) values ->
  forward_fill prev values = replicate (length values) prev.
Proof.
  induction 1 as [|x values Hx _ IH]; cbn; [reflexivity|].
  rewrite Hx, IH. reflexivity.
Qed.

(** The result of the sanitizer's loop, entry by entry. *)
Lemma sanitize_loop_forward_fill (values : list number) :
  Forall is_float32 values ->
  (sanitize_loop values).1 = forward_fill (first_finite_outward values 0) values.
Proof.
  intros Hf32.
  destruct (sanitize_loop_inv values Hf32) as (Hlen & _ & Hdone & _ & _ & Hfin).
  set (out := (sanitize_loop values).1) in *.
  set (p := first_finite_outward values 0).
  assert (Hall : forall i x, values !! i = Some x ->
             out !! i = forward_fill p values !! i).
  { induction i as [|i IH]; intros x Hx.
    - rewrite (Hdone 0%nat x (lookup_lt_Some _ _ _ Hx) Hx).
      destruct values as [|x0 values]; [discriminate|].
      injection Hx as ->. cbn [forward_fill lookup list_lookup].
      rewrite take_0, drop_0. reflexivity.
    - pose proof (lookup_lt_Some _ _ _ Hx) as Hlt.
      destruct (lookup_lt_is_Some_2 values i ltac:(lia)) as [x' Hx'].
      destruct (lookup_lt_is_Some_2 out i ltac:(lia)) as [y Hy].
      pose proof (IH x' Hx') as Hprev. rewrite Hy in Hprev.
      rewrite (forward_fill_lookup_S p values i x y Hx (eq_sym Hprev)).
      rewrite (Hdone (S i) x Hlt Hx). f_equal.
      destruct (isFinite x); [reflexivity|].
      apply first_finite_outward_back; [|apply (Hfin i); [lia | exact Hy]].
      rewrite lookup_app_l by (rewrite length_take; lia).
      rewrite lookup_take_lt by lia. exact Hy. }
  apply list_eq. intros i.
  destruct (values !! i) as [x|] eqn:Hx; [exact (Hall i x Hx)|].
  apply lookup_ge_None in Hx.
  rewrite (proj2 (lookup_ge_None out i)) by lia.
  symmetry. apply lookup_ge_None. rewrite forward_fill_length. lia.
Qed.

(** X9: on a [Float32Array] the sanitizer is a forward fill.  The first
    entry, when it is not finite, takes the first finite value among the 31
    entries that follow it, and 0 when there is none; every later entry
    that is not finite takes the value that the entry before it has in the
    result, whatever lies ahead of it, so the forward half of the search
    matters at index 0 only.  A buffer with no finite entry becomes all
    zeros. *)
Theorem sanitizeFiniteInPlace_forward_fill (values : list number) (h : Heap) (l : loc) :
  Forall is_float32 values ->
  h !! l = Some (Float32Array values) ->
  let out := forward_fill (first_finite_outward values 0) values in
  sanitizeFiniteInPlace l h
  = (inr (count_non_finite values), <[l := Float32Array out]> h) /\
  (forall x, values !! 0%nat = Some x -> isFinite x = false ->
     out !! 0%nat = Some (findReplacement values 0 1 31)) /\
  (forall (i : nat) x, values !! S i = Some x -> isFinite x = false ->
     out !! S i = out !! i) /\
  (Forall (fun x => isFinite x = false) values ->
     out = replicate (length values) (ofZ 0)).
Proof.
  intros Hf32 Hl out.
  pose proof (sanitize_loop_forward_fill values Hf32) as Hout. fold out in Hout.
  destruct (sanitize_loop_inv values Hf32) as (_ & _ & _ & Hcount & _ & _).
  rewrite firstn_all in Hcount.
  split; [|split; [|split]].
  - unfold sanitizeFiniteInPlace. rewrite Hl.
    destruct (sanitize_loop values) as [out' replaced]. cbn [fst snd] in *.
    rewrite Hout, Hcount. reflexivity.
  - intros x Hx Fx. subst out.
    destruct values as [|x0 values]; [discriminate|]. injection Hx as ->.
    cbn [forward_fill lookup list_lookup]. rewrite Fx.
    unfold first_finite_outward, outward_offsets.
    change 1 with (Z.of_nat 1). rewrite findReplacement_outward. reflexivity.
  - intros i x Hx Fx.
    pose proof (lookup_lt_Some _ _ _ Hx) as Hlt.
    destruct (lookup_lt_is_Some_2 out i) as [y Hy].
    { subst out. rewrite forward_fill_length. lia. }
    subst out. rewrite (forward_fill_lookup_S _ values i x y Hx Hy), Fx.
    symmetry. exact Hy.
  - intros Hnone. subst out. rewrite (forward_fill_none _ _ Hnone).
    unfold first_finite_outward. rewrite (first_finite_among_none _ _ _ Hnone).
    reflexivity.
Qed.

Lemma sanitizeFiniteInPlace_forward_fill_witness :
  sanitizeFiniteInPlace 0%nat [Float32Array [S754_nan; S754_nan; ofZ 5; S754_nan]]
  = (inr 3, [Float32Array [ofZ 5; ofZ 5; ofZ 5; ofZ 5]]).
Proof.
  assert (H32 : Forall is_float32 [S754_nan; S754_nan; ofZ 5; S754_nan])
    by (repeat constructor).
  exact (proj1 (sanitizeFiniteInPlace_forward_fill
                  [S754_nan; S754_nan; ofZ 5; S754_nan]
                  [Float32Array [S754_nan; S754_nan; ofZ 5; S754_nan]] 0%nat
                  H32 eq_refl)).
Defined.

(** X10: sanitizing a [Float32Array] twice is sanitizing it once: the
    second run replaces nothing, returns 0 and leaves the store as the first
    run left it.  A run returns 0 exactly when the buffer has no non-finite
    entry, and it then changes nothing. *)
Theorem sanitizeFiniteInPlace_idempotent (values : list number) (h : Heap) (l : loc) :
  Forall is_float32 values ->
  h !! l = Some (Float32Array values) ->
  let first := sanitizeFiniteInPlace l h in
  sanitizeFiniteInPlace l first.2 = (inr 0, first.2) /\
  (first.1 = inr 0 <-> Forall (fun x => isFinite x = true) values) /\
  (first.1 = inr 0 -> first.2 = h).
Proof.
  intros Hf32 Hl first.
  destruct (sanitize_loop_inv values Hf32) as (Hlen & _ & _ & Hcount & _ & Hfin).
  rewrite firstn_all in Hcount.
  pose proof (lookup_lt_Some _ _ _ Hl) as Hlt.
  assert (Hfirst : first = (inr (sanitize_loop values).2,
                            <[l := Float32Array (sanitize_loop values).1]> h)).
  { subst first. unfold sanitizeFiniteInPlace. rewrite Hl.
    destruct (sanitize_loop values). reflexivity. }
  assert (Hallfin : Forall (fun y => isFinite y = true) (sanitize_loop values).1).
  { apply Forall_forall. intros y Hy.
    apply list_elem_of_lookup_1 in Hy as [i Hi].
    apply (Hfin i); [|exact Hi]. apply lookup_lt_Some in Hi. lia. }
  assert (Hzero : (sanitize_loop values).2 = 0 <->
                  Forall (fun x => isFinite x = true) values).
  { rewrite Hcount. unfold count_non_finite. split.
    - intros Hz. apply Forall_forall. intros x Hx.
      destruct (isFinite x) eqn:Fx; [reflexivity|exfalso].
      assert (Hin : In x (List.filter (fun x => negb (isFinite x)) values)).
      { apply List.filter_In. split; [apply list_elem_of_In; exact Hx|].
        rewrite Fx. reflexivity. }
      destruct (List.filter _ values); [inversion Hin | cbn in Hz; lia].
    - intros Hall. rewrite (sanitize_loop_finite values Hall) in Hcount.
      cbn [snd] in Hcount. unfold count_non_finite in Hcount. lia. }
  rewrite Hfirst. cbn [fst snd].
  split; [|split].
  - unfold sanitizeFiniteInPlace.
    rewrite list_lookup_insert_eq by exact Hlt.
    rewrite (sanitize_loop_finite _ Hallfin).
    rewrite list_insert_insert_eq. reflexivity.
  - rewrite <- Hzero. split; [intros [= ->]; reflexivity | intros ->; reflexivity].
  - intros [= Hz]. apply Hzero in Hz.
    rewrite (sanitize_loop_finite values Hz). cbn [fst].
    apply list_insert_id. exact Hl.
Qed.

Lemma sanitizeFiniteInPlace_idempotent_witness :
  sanitizeFiniteInPlace 0%nat
    (sanitizeFiniteInPlace 0%nat [Float32Array [S754_nan; ofZ 1; ofZ 2]]).2
  = (inr 0, (sanitizeFiniteInPlace 0%nat [Float32Array [S754_nan; ofZ 1; ofZ 2]]).2).
Proof.
  assert (H32 : Forall is_float32 [S754_nan; ofZ 1; ofZ 2]) by (repeat constructor).
  exact (proj1 (sanitizeFiniteInPlace_idempotent [S754_nan; ofZ 1; ofZ 2]
                  [Float32Array [S754_nan; ofZ 1; ofZ 2]] 0%nat H32 eq_refl)).
Defined.

(** ** Broadcast of a triangle's colour to its three vertices *)

Lemma broadcastColor_length (decoded colors : list number) (tri : nat) :
  length (broadcastColor decoded colors tri) = length colors.
Proof. unfold broadcastColor. cbn [seq fold_left]. rewrite !length_insert. reflexivity. Qed.

Lemma broadcastColor_other (decoded colors : list number) (tri tri' v c : nat) :
  tri' <> tri -> (v < 3)%nat -> (c < 3)%nat ->
  broadcastColor decoded colors tri !! ((tri' * 3 + v) * 3 + c)%nat
  = colors !! ((tri' * 3 + v) * 3 + c)%nat.
Proof.
  intros Hne Hv Hc. unfold broadcastColor. cbn [seq fold_left].
  rewrite !list_lookup_insert_ne by lia. reflexivity.
Qed.

Lemma list_lookup_insert_at {A} (l : list A) (i j : nat) (x : A) :
  i = j -> (j < length l)%nat -> <[i := x]> l !! j = Some x.
Proof. intros <- Hlt. apply list_lookup_insert_eq. exact Hlt. Qed.

Lemma broadcastColor_here (decoded colors : list number) (tri v c : nat) :
  (tri * 9 + 8 < length colors)%nat -> (v < 3)%nat -> (c < 3)%nat ->
  broadcastColor decoded colors tri !! ((tri * 3 + v) * 3 + c)%nat
  = Some (fround (default c_half (decoded !! (tri * 3 + c)%nat))).
Proof.
  intros Hlen Hv Hc. unfold broadcastColor. cbn [seq fold_left].
  destruct v as [|[|[|v]]]; [| | |lia];
    (destruct c as [|[|[|c]]]; [| | |lia]);
    repeat (rewrite list_lookup_insert_ne by lia);
    (rewrite list_lookup_insert_at; [|lia|rewrite ?length_insert; lia]);
    repeat f_equal; lia.
Qed.

Lemma broadcastColor_fold_length (decoded : list number) (tris : list nat)
    (colors : list number) :
  length (fold_left (broadcastColor decoded) tris colors) = length colors.
Proof.
  revert colors. induction tris as [|t tris IH]; intros colors; [reflexivity|].
  cbn [fold_left]. rewrite IH. apply broadcastColor_length.
Qed.

Lemma broadcastColor_fold_other (decoded : list number) (tris : list nat)
    (colors : list number) (tri v c : nat) :
  tri ∉ tris -> (v < 3)%nat -> (c < 3)%nat ->
  fold_left (broadcastColor decoded) tris colors !! ((tri * 3 + v) * 3 + c)%nat
  = colors !! ((tri * 3 + v) * 3 + c)%nat.
Proof.
  revert colors. induction tris as [|t tris IH]; intros colors Hnotin Hv Hc;
    [reflexivity|].
  apply not_elem_of_cons in Hnotin as [Hne Hnotin].
  cbn [fold_left]. rewrite IH by assumption.
  apply broadcastColor_other; assumption.
Qed.

Lemma broadcastColor_fold_here (decoded : list number) (tris : list nat)
    (colors : list number) (tri v c : nat) :
  (forall t, t ∈ tris -> (t * 9 + 8 < length colors)%nat) ->
  tri ∈ tris -> (v < 3)%nat -> (c < 3)%nat ->
  fold_left (broadcastColor decoded) tris colors !! ((tri * 3 + v) * 3 + c)%nat
  = Some (fround (default c_half (decoded !! (tri * 3 + c)%nat))).
Proof.
  revert colors. induction tris as [|t tris IH]; intros colors Hin_range Hin Hv Hc.
  - inversion Hin.
  - cbn [fold_left].
    destruct (decide (tri ∈ tris)) as [Hlater|Hnot].
    + apply IH; [|assumption..].
      intros t' Ht'. rewrite broadcastColor_length. apply Hin_range. right. exact Ht'.
    + apply elem_of_cons in Hin as [->|Hin]; [|contradiction].
      rewrite broadcastColor_fold_other by assumption.
      apply broadcastColor_here; [|assumption..]. apply Hin_range. left.
Qed.

(** The array that the colour block builds for [n] triangles: 9n entries,
    and triangle [tri]'s three components at each of its three vertices. *)
Lemma broadcast_color_all (decoded : list number) (n : Z) :
  0 <= n ->
  let colors := fold_left (broadcastColor decoded) (seq 0 (Z.to_nat n))
                  (replicate (Z.to_nat (n * 3 * 3)) (fround c_half)) in
  length colors = (Z.to_nat n * 9)%nat /\
  forall tri v c : nat, (tri < Z.to_nat n)%nat -> (v < 3)%nat -> (c < 3)%nat ->
    colors !! ((tri * 3 + v) * 3 + c)%nat
    = Some (fround (default c_half (decoded !! (tri * 3 + c)%nat))).
Proof.
  intros Hn colors. subst colors. split.
  - rewrite broadcastColor_fold_length, length_replicate. lia.
  - intros tri v c Htri Hv Hc. apply broadcastColor_fold_here; [| |assumption..].
    + intros t Ht. apply elem_of_seq in Ht. rewrite length_replicate. lia.
    + apply elem_of_seq. lia.
Qed.

(** ** What the resolver returns *)

Section Resolved.
Context `{Host}.

(** The colour block, with the array it builds. *)
Lemma resolveColor_result (t : TensorRecord) (d : TensorData) (mode : ColorMode)
    (n : Z) (colors0 : list number) (h : Heap) :
  h !! data t = Some d ->
  let decoded := decodeColorDC (float32_values d) (dtype t) mode in
  exists h1 : Heap,
    resolveColor (Some t) mode n colors0 h
    = (inr (fold_left (broadcastColor decoded.1) (seq 0 (Z.to_nat n)) colors0,
            decoded.2), h1) /\
    h `prefix_of` h1.
Proof.
  intros Hd decoded. unfold resolveColor.
  destruct (toFloat32Array_run _ _ _ Hd) as (l' & h1 & Hrun & Hpre & Hl' & _).
  unfold bind at 1. rewrite Hrun.
  unfold bind at 1. rewrite (float32_contents_run _ _ _ Hl').
  exists h1. split; [reflexivity | exact Hpre].
Qed.

(** The first part of [resolveSemantics], with the array it leaves at the
    position data: the sanitized [Float32Array], which is the tensor's own
    buffer when that is a [Float32Array], and a new array otherwise. *)
Lemma resolve_positions_result (pt : TensorRecord) (d : TensorData) (h : Heap)
    (k : loc -> Z -> M ResolveError SemanticData) :
  h !! data pt = Some d ->
  let vs := float32_values d in
  exists (pd : loc) (h2 : Heap),
    (let* positionData := toFloat32Array (data pt) in
     let* replaced := sanitizeFiniteInPlace positionData in
     k positionData replaced) h
    = k pd (sanitize_loop vs).2 h2 /\
    h2 !! pd = Some (Float32Array (sanitize_loop vs).1) /\
    (pd = if (match d with Float32Array _ => true | _ => false end)
          then data pt else length h) /\
    (forall (l : loc) (arr : TensorData),
       h !! l = Some arr -> l <> data pt -> h2 !! l = Some arr) /\
    (forall l : loc, is_Some (h !! l) -> is_Some (h2 !! l)) /\
    (forall (l : loc) (arr : TensorData),
       h !! l = Some arr -> l <> pd -> h2 !! l = Some arr).
Proof.
  intros Hd vs.
  pose proof (lookup_lt_Some _ _ _ Hd) as Hlt.
  assert (Hcases :
    exists (pd : loc) (h1 : Heap),
      toFloat32Array (data pt) h = (inr pd, h1) /\
      h `prefix_of` h1 /\ h1 !! pd = Some (Float32Array vs) /\
      pd = (if (match d with Float32Array _ => true | _ => false end)
            then data pt else length h)).
  { unfold toFloat32Array. rewrite Hd. subst vs.
    destruct d as [vs0|vs0|kd vs0|kd vs0];
      [exists (data pt), h; repeat split; [reflexivity | exact Hd]| | |];
      (eexists (length h), _; split; [reflexivity|];
       split; [apply prefix_app_r; reflexivity|];
       split; [apply list_lookup_middle; reflexivity | reflexivity]). }
  destruct Hcases as (pd & h1 & Hrun & Hpre & Hpd & Hwhere).
  unfold bind at 1. rewrite Hrun.
  unfold bind at 1. unfold sanitizeFiniteInPlace. rewrite Hpd.
  destruct (sanitize_loop vs) as [out rep]. cbn [fst snd].
  exists pd, (<[pd := Float32Array out]> h1).
  pose proof (prefix_length _ _ Hpre) as Hlen.
  pose proof (lookup_lt_Some _ _ _ Hpd) as Hpdlt.
  split; [reflexivity|].
  split; [apply list_lookup_insert_eq; exact Hpdlt|].
  split; [exact Hwhere|].
  split.
  - intros l arr Hl Hne.
    rewrite list_lookup_insert_ne.
    + eapply prefix_lookup_Some; eassumption.
    + apply lookup_lt_Some in Hl. rewrite Hwhere.
      destruct (match d with Float32Array _ => true | _ => false end);
        [congruence | lia].
  - split.
    + intros l Hl. apply lookup_lt_is_Some. rewrite length_insert.
      apply lookup_lt_is_Some in Hl. lia.
    + intros l arr Hl Hne. rewrite list_lookup_insert_ne by congruence.
      eapply prefix_lookup_Some; eassumption.
Qed.

(** What follows the validation of the position shape, field by field. *)
Lemma resolveFields_result (m : ParsedModel) (om : OpacityMode) (cm : ColorMode)
    (sm : SigmaMode) (pt : TensorRecord) (pd : loc) (rep n v : Z) (h : Heap) :
  model_in_store m h ->
  0 <= n * v -> n * v * 3 <= arrayLimit ->
  exists (sd : SemanticData) (h3 : Heap) (colors : list number),
    resolveFields m om cm sm pt pd rep n v h = (inr sd, h3 ++ [Float32Array colors]) /\
    h `prefix_of` h3 /\
    positions sd
    = {| pos_tensorName := findTensorName (tensors m) positions_aliases;
         pos_data := pd; pos_shape := shape pt |} /\
    colorRest sd = findTensor (tensors m) colorRest_aliases /\
    shDegree sd = resolveShDegree (header m) /\
    replacedPositionValues (stats sd) = rep /\
    triangleCount (stats sd) = n /\
    totalVertices (stats sd) = n * v /\
    match findTensor (tensors m) colorDC_aliases with
    | Some ct =>
        exists d, h !! data ct = Some d /\
          let decoded := decodeColorDC (float32_values d) (dtype ct) cm in
          colors = fold_left (broadcastColor decoded.1) (seq 0 (Z.to_nat n))
                     (replicate (Z.to_nat (n * v * 3)) (fround c_half)) /\
          colorDC sd
          = Some {| color_tensorName := findTensorName (tensors m) colorDC_aliases;
                    color_data := length h3;
                    color_interpretation := decoded.2 |} /\
          colorInterpretation (stats sd) = decoded.2
    | None =>
        colorDC sd = None /\ colorInterpretation (stats sd) = "none"%string
    end.
Proof.
  intros Hwf Hnv0 Hlimit.
  assert (Hnv : 0 <= n * v <= arrayLimit) by lia.
  unfold resolveFields.
  rewrite (filled_ok (n * v * 3) c_half) by lia.
  unfold bind at 1. unfold of_result at 1.
  set (colors0 := replicate (Z.to_nat (n * v * 3)) (fround c_half)).
  assert (Hcolor :
    exists (colors : list number) (ctag : string) (h1 : Heap),
      resolveColor (findTensor (tensors m) colorDC_aliases) cm n colors0 h
      = (inr (colors, ctag), h1) /\ h `prefix_of` h1 /\
      match findTensor (tensors m) colorDC_aliases with
      | Some ct =>
          exists d, h !! data ct = Some d /\
            colors = fold_left
                       (broadcastColor (decodeColorDC (float32_values d) (dtype ct) cm).1)
                       (seq 0 (Z.to_nat n)) colors0 /\
            ctag = (decodeColorDC (float32_values d) (dtype ct) cm).2
      | None => ctag = "none"%string
      end).
  { destruct (findTensor (tensors m) colorDC_aliases) as [ct|] eqn:Ect.
    - destruct (model_in_store_find m h _ Hwf ct Ect) as [d Hd].
      destruct (resolveColor_result ct d cm n colors0 h Hd) as (h1 & Hrun & Hpre).
      eexists _, _, h1. split; [exact Hrun|]. split; [exact Hpre|].
      exists d. split; [exact Hd|]. split; reflexivity.
    - eexists _, _, h. split; [reflexivity|]. split; reflexivity. }
  destruct Hcolor as (colors & ctag & h1 & Hc & Hp1 & Hcdesc).
  unfold bind at 1. rewrite Hc.
  pose proof (model_in_store_prefix _ _ _ Hwf Hp1) as Hwf1.
  destruct (resolveScalar_run (fun vs => applyOpacityPolicy vs om) (ofZ 1)
              (findTensor (tensors m) opacity_aliases) n (n * v) h1
              (model_in_store_find m h1 _ Hwf1) Hnv)
    as (alphas & otag & h2 & Ho & Hp2 & _).
  unfold bind at 1. rewrite Ho.
  pose proof (model_in_store_prefix _ _ _ Hwf1 Hp2) as Hwf2.
  destruct (resolveScalar_run (fun vs => applySigmaPolicy vs sm) c_0_1
              (findTensor (tensors m) sigma_aliases) n (n * v) h2
              (model_in_store_find m h2 _ Hwf2) Hnv)
    as (sigmas & stag & h3 & Hs & Hp3 & _).
  unfold bind at 1. rewrite Hs.
  unfold bind at 1. unfold new_array, alloc. cbn [ret].
  eexists _, h3, colors. split; [reflexivity|].
  cbn [stats triangleCount totalVertices replacedPositionValues positions colorDC
       colorRest shDegree colorInterpretation].
  split; [do 2 (etransitivity; [eassumption|]); exact Hp3|].
  do 6 (split; [reflexivity|]).
  destruct (findTensor (tensors m) colorDC_aliases) as [ct|].
  - destruct Hcdesc as (d & Hd & -> & ->). exists d. split; [exact Hd|].
    cbn zeta. split; [reflexivity|]. split; reflexivity.
  - subst ctag. split; reflexivity.
Qed.

End Resolved.

Section ResolvedModel.
Context `{Host}.

Lemma findTensorName_spec (tensors : gmap string TensorRecord) (aliases : list string)
    (t : TensorRecord) :
  findTensor tensors aliases = Some t ->
  exists k, findTensorName tensors aliases = Some k /\
            k ∈ aliases /\ tensors !! k = Some t.
Proof.
  unfold findTensorName.
  induction aliases as [|k rest IH]; cbn [findTensor List.find]; [discriminate|].
  destruct (tensors !! k) as [t'|] eqn:E.
  - intros [= ->]. exists k.
    rewrite bool_decide_eq_true_2 by eauto.
    split; [reflexivity|]. split; [left | exact E].
  - intros Hr. destruct (IH Hr) as (k' & Hfind & Hin & Hk').
    exists k'. rewrite bool_decide_eq_false_2.
    + split; [exact Hfind|]. split; [right; exact Hin | exact Hk'].
    + intros [x Hx]. discriminate.
Qed.

Lemma float32_values_typed (d : TensorData) :
  (forall vs, d = Float32Array vs -> Forall is_float32 vs) ->
  Forall is_float32 (float32_values d).
Proof.
  intros Hd. destruct d as [vs|vs|kd vs|kd vs]; cbn [float32_values].
  - apply Hd. reflexivity.
  - apply Forall_map, Forall_forall. intros x _. apply fround_is_float32.
  - apply Forall_map, Forall_forall. intros x _. apply fround_is_float32.
  - apply Forall_map, Forall_forall. intros x _. apply fround_is_float32.
Qed.

Lemma sanitize_loop_result (vs : list number) :
  Forall is_float32 vs ->
  length (sanitize_loop vs).1 = length vs /\
  Forall (fun y => isFinite y = true) (sanitize_loop vs).1 /\
  (sanitize_loop vs).2 = count_non_finite vs.
Proof.
  intros Hf32.
  destruct (sanitize_loop_inv vs Hf32) as (Hlen & _ & _ & Hcount & _ & Hfin).
  rewrite firstn_all in Hcount.
  split; [exact Hlen|]. split; [|exact Hcount].
  apply Forall_forall. intros y Hy.
  apply list_elem_of_lookup_1 in Hy as [i Hi].
  apply (Hfin i); [|exact Hi]. apply lookup_lt_Some in Hi. lia.
Qed.

(** The run of [resolveSemantics] on a supported position shape, with the
    store after the position block. *)
Lemma resolveSemantics_result (m : ParsedModel) (o : ResolveOptions) (h : Heap)
    (pt : TensorRecord) (d : TensorData) (n : Z) (rest : list Z) :
  model_in_store m h ->
  findTensor (tensors m) positions_aliases = Some pt ->
  h !! data pt = Some d ->
  shape pt = n :: 3 :: 3 :: rest ->
  0 <= n -> n * 9 <= arrayLimit ->
  let vs := float32_values d in
  let cm := default color_auto (colorMode o) in
  exists (sd : SemanticData) (h2 h3 : Heap) (colors : list number),
    resolveSemantics m o h = (inr sd, h3 ++ [Float32Array colors]) /\
    h2 `prefix_of` h3 /\ (length h <= length h2)%nat /\
    (forall (l : loc) (arr : TensorData),
       h !! l = Some arr -> l <> data pt -> h2 !! l = Some arr) /\
    h2 !! pos_data (positions sd) = Some (Float32Array (sanitize_loop vs).1) /\
    pos_data (positions sd)
    = (if (match d with Float32Array _ => true | _ => false end)
       then data pt else length h) /\
    pos_tensorName (positions sd) = findTensorName (tensors m) positions_aliases /\
    pos_shape (positions sd) = shape pt /\
    replacedPositionValues (stats sd) = (sanitize_loop vs).2 /\
    triangleCount (stats sd) = n /\
    totalVertices (stats sd) = n * 3 /\
    match findTensor (tensors m) colorDC_aliases with
    | Some ct =>
        exists dc, h2 !! data ct = Some dc /\
          let decoded := decodeColorDC (float32_values dc) (dtype ct) cm in
          colors = fold_left (broadcastColor decoded.1) (seq 0 (Z.to_nat n))
                     (replicate (Z.to_nat (n * 3 * 3)) (fround c_half)) /\
          colorDC sd
          = Some {| color_tensorName := findTensorName (tensors m) colorDC_aliases;
                    color_data := length h3;
                    color_interpretation := decoded.2 |} /\
          colorInterpretation (stats sd) = decoded.2
    | None =>
        colorDC sd = None /\ colorInterpretation (stats sd) = "none"%string
    end /\
    (forall (l : loc) (arr : TensorData),
       h !! l = Some arr -> l <> pos_data (positions sd) -> h2 !! l = Some arr).
Proof.
  intros Hwf Hpt Hd Hshape Hn Hlimit vs cm.
  assert (Hlimit' : n * 3 * 3 <= arrayLimit) by lia.
  unfold resolveSemantics. rewrite Hpt, Hshape.
  cbn [Z.eqb negb orb Pos.eqb].
  destruct (resolve_positions_result pt d h
              (fun pd rep =>
                 resolveFields m (default opacity_auto (opacityMode o)) cm
                   (default sigma_auto (sigmaMode o)) pt pd rep n 3) Hd)
    as (pd & h2 & Hrun & Hpd & Hwhere & Hkeep & Hsome & Hkeep2).
  fold cm. rewrite Hrun. cbn beta.
  assert (Hwf2 : model_in_store m h2).
  { intros name t Ht. apply Hsome. exact (Hwf name t Ht). }
  destruct (resolveFields_result m (default opacity_auto (opacityMode o)) cm
              (default sigma_auto (sigmaMode o)) pt pd (sanitize_loop vs).2 n 3 h2
              Hwf2 ltac:(lia) Hlimit')
    as (sd & h3 & colors & Hf & Hpre & Hpos & _ & _ & Hrep & Htri & Htot & Hcol).
  unfold vs in *. exists sd, h2, h3, colors. rewrite Hf, Hpos. cbn [pos_data pos_tensorName pos_shape].
  split; [reflexivity|]. split; [exact Hpre|].
  split.
  { assert (Hlt : forall l, is_Some (h !! l) -> (l < length h2)%nat).
    { intros l Hl. apply lookup_lt_is_Some, Hsome, Hl. }
    destruct (length h) as [|k] eqn:Ek; [lia|].
    specialize (Hlt k). rewrite lookup_lt_is_Some in Hlt. lia. }
  split; [exact Hkeep|]. split; [exact Hpd|]. split; [exact Hwhere|].
  split; [reflexivity|]. split; [exact Hshape|]. split; [exact Hrep|].
  split; [exact Htri|]. split; [exact Htot|]. split; [exact Hcol | exact Hkeep2].
Qed.



End ResolvedModel.

(** ** Loading and resolving *)

Section LoadAndResolve.
Context `{Host}.

Lemma array_of_dtype_typed (dt : TensorDType) (d : TensorData) :
  array_of_dtype dt d ->
  forall vs, d = Float32Array vs -> Forall is_float32 vs.
Proof.
  intros Hkind vs ->. destruct dt; cbn [array_of_dtype] in Hkind; try contradiction.
  - eapply Forall_impl; [exact Hkind|]. intros v [Hv _]. exact Hv.
  - exact Hkind.
Qed.

Lemma float32_values_length (d : TensorData) :
  Z.of_nat (length (float32_values d)) = data_length d.
Proof. destruct d; cbn [float32_values data_length]; rewrite ?length_map; reflexivity. Qed.

(** The failures of [resolveSemantics] on a model whose buffers exist. *)
Lemma resolveSemantics_failure (m : ParsedModel) (o : ResolveOptions) (h : Heap)
    (e : ResolveError) :
  model_in_store m h ->
  (forall k t, tensors m !! k = Some t -> Forall (fun n => 0 <= n) (shape t)) ->
  (resolveSemantics m o h).1 = inl e ->
  e = MissingPositionTensor positions_aliases \/ is_UnsupportedShape e = true \/
  e = InvalidArrayLength /\
  exists pt n rest,
    findTensor (tensors m) positions_aliases = Some pt /\
    shape pt = n :: 3 :: 3 :: rest /\ arrayLimit < n * 9.
Proof.
  intros Hwf Hdims. unfold resolveSemantics.
  destruct (findTensor (tensors m) positions_aliases) as [pt|] eqn:Hpt.
  2:{ cbn. intros [= <-]. left. reflexivity. }
  destruct (findTensor_Some _ _ _ Hpt) as (k & _ & Hk).
  pose proof (Hdims k pt Hk) as Hnonneg.
  assert (Herr : forall kont : loc -> Z -> M ResolveError SemanticData,
             forall e', (forall pd rep, kont pd rep = throw e') ->
             ((let* positionData := toFloat32Array (data pt) in
               let* replaced := sanitizeFiniteInPlace positionData in
               kont positionData replaced) h).1 = inl e').
  { intros kont e' Hk'.
    destruct (resolve_positions_run pt h kont (model_in_store_find m h _ Hwf pt Hpt))
      as (pd & rep & h2 & Hrun & _).
    rewrite Hrun, Hk'. reflexivity. }
  destruct (shape pt) as [|n [|v [|c rest]]] eqn:Hshape.
  - rewrite (Herr _ (InvalidPositionShape []) ltac:(reflexivity)).
    intros [= <-]. right. left. reflexivity.
  - rewrite (Herr _ (InvalidPositionShape [n]) ltac:(reflexivity)).
    intros [= <-]. right. left. reflexivity.
  - rewrite (Herr _ (InvalidPositionShape [n; v]) ltac:(reflexivity)).
    intros [= <-]. right. left. reflexivity.
  - destruct (negb (v =? 3) || negb (c =? 3)) eqn:Ebad.
    + rewrite (Herr _ (UnsupportedPositionShape n v c) ltac:(reflexivity)).
      intros [= <-]. right. left. reflexivity.
    + apply orb_false_iff in Ebad as [Ev Ec].
      apply negb_false_iff, Z.eqb_eq in Ev, Ec. subst v c.
      assert (Hn : 0 <= n) by (inversion Hnonneg; assumption).
      destruct (Z_le_gt_dec (n * 9) arrayLimit) as [Hfit|Hbig].
      * assert (Hfit' : n * 3 * 3 <= arrayLimit) by lia.
        pose proof (resolveSemantics_run m o h pt n rest Hwf Hpt Hshape Hn Hfit')
          as (sd & h' & h2 & Hrun & _).
        unfold resolveSemantics in Hrun. rewrite Hpt, Hshape in Hrun.
        cbn [Z.eqb negb orb Pos.eqb] in Hrun. cbn [Z.eqb negb orb Pos.eqb].
        rewrite Hrun. discriminate.
      * assert (Hbig' : n * 3 * 3 < 0 \/ arrayLimit < n * 3 * 3) by lia.
        pose proof (resolveSemantics_too_large m o h pt n rest Hwf Hpt Hshape Hbig')
          as Hfail.
        unfold resolveSemantics in Hfail. rewrite Hpt, Hshape in Hfail.
        cbn [Z.eqb negb orb Pos.eqb] in Hfail. cbn [Z.eqb negb orb Pos.eqb].
        rewrite Hfail. intros [= <-]. right. right. split; [reflexivity|].
        exists pt, n, rest. split; [reflexivity|]. split; [exact Hshape | lia].
Qed.


End LoadAndResolve.


(** ** Classification policies on particular values *)

Lemma u8_color_check_all : forallb u8_color_check (map Z.of_nat (seq 0 256)) = true.
Proof. vm_compute. reflexivity. Qed.

Section PolicyValues.
Context `{Host}.

(** X14: a colour tensor of dtype u8, converted and decoded: each byte [b]
    becomes the binary32 nearest to b/255, whatever the colour mode, and the
    interpretation is "u8".  The conversion of the byte and the clamp change
    nothing: every value lies in [0,1] already, 0 gives 0 and 255 gives 1. *)
Theorem decodeColorDC_u8 (bytes : list Z) (mode : ColorMode) :
  Forall (fun b => 0 <= b < 256) bytes ->
  decodeColorDC (float32_values (IntArray Uint8 bytes)) u8 mode
  = (map (fun b => fround (div (ofZ b) (ofZ 255))) bytes, "u8"%string) /\
  Forall (fun v => le (ofZ 0) v = true /\ le v (ofZ 1) = true)
    (decodeColorDC (float32_values (IntArray Uint8 bytes)) u8 mode).1 /\
  fround (div (ofZ 0) (ofZ 255)) = ofZ 0 /\
  fround (div (ofZ 255) (ofZ 255)) = ofZ 1.
Proof.
  intros Hbytes.
  assert (Hbyte : forall b, 0 <= b < 256 ->
            fround (clamp (ofZ 0) (ofZ 1) (fround (div (fround (ofZ b)) (ofZ 255))))
            = fround (div (ofZ b) (ofZ 255)) /\
            le (ofZ 0) (fround (div (ofZ b) (ofZ 255))) = true /\
            le (fround (div (ofZ b) (ofZ 255))) (ofZ 1) = true).
  { intros b Hb.
    pose proof (forallb_range u8_color_check 256 u8_color_check_all b ltac:(lia)) as Hc.
    unfold u8_color_check in Hc. cbn zeta in Hc.
    apply andb_prop in Hc as [Hc Hle1]. apply andb_prop in Hc as [Hc Hle0].
    apply andb_prop in Hc as [Hc Hclamp]. apply andb_prop in Hc as [_ Hquot].
    apply spec_float_eqb_eq in Hclamp, Hquot.
    rewrite Hclamp. rewrite Hquot in Hle0, Hle1.
    split; [exact Hquot|]. split; assumption. }
  assert (Hrun : decodeColorDC (float32_values (IntArray Uint8 bytes)) u8 mode
                 = (map (fun b => fround (div (ofZ b) (ofZ 255))) bytes, "u8"%string)).
  { unfold decodeColorDC. cbn [float32_values]. rewrite !map_map. f_equal.
    apply map_ext_in. intros b Hin.
    rewrite Forall_forall in Hbytes.
    apply (Hbyte b). apply Hbytes, list_elem_of_In. exact Hin. }
  split; [exact Hrun|]. split; [|split; vm_compute; reflexivity].
  rewrite Hrun. cbn [fst]. apply Forall_map.
  eapply Forall_impl; [exact Hbytes|]. intros b Hb. apply (Hbyte b Hb).
Qed.

End PolicyValues.

Lemma decodeColorDC_u8_witness :
  decodeColorDC (float32_values (IntArray Uint8 [255; 0; 51])) u8 color_auto
  = (map (fun b => fround (div (ofZ b) (ofZ 255))) [255; 0; 51], "u8"%string).
Proof.
  apply (decodeColorDC_u8 [255; 0; 51] color_auto).
  repeat constructor; lia.
Defined.

Lemma clamp_unit (x : number) :
  in_unit_or_NaN x -> clamp (ofZ 0) (ofZ 1) x = plus_zero x.
Proof.
  intros [Hlo Hhi]. unfold clamp.
  change (ofZ 1) with (S754_finite false 4503599627370496 (-52)) in *.
  change (ofZ 0) with (S754_zero false) in *.
  destruct x as [s|s| |s m e].
  - reflexivity.
  - destruct s; [cbn in Hlo | cbn in Hhi]; discriminate.
  - reflexivity.
  - destruct s; [cbn in Hlo; discriminate|].
    unfold Math_min. rewrite Hhi.
    destruct (lt (S754_finite false m e) (S754_finite false 4503599627370496 (-52)));
      reflexivity.
Qed.

Lemma plus_zero_float32 (x : number) : is_float32 x -> fround (plus_zero x) = plus_zero x.
Proof. intros Hx. destruct x; try reflexivity. exact Hx. Qed.

Lemma existsb_in_unit (vs : list number) :
  Forall in_unit_or_NaN vs -> existsb outside01 vs = false.
Proof.
  induction 1 as [|x vs [Hlo Hhi] _ IH]; [reflexivity|].
  cbn [existsb]. unfold outside01 at 1. rewrite Hlo, Hhi, IH. reflexivity.
Qed.

Lemma lookup_map_at {A B} (f : A -> B) (l : list A) (i : nat) (x : A) :
  l !! i = Some x -> map f l !! i = Some (f x).
Proof. intros Hl. rewrite lookup_map, Hl. reflexivity. Qed.

Section LinearValues.
Context `{Host}.

(** X15: opacities and colours that need no decoding are returned as they
    are.  On a buffer of binary32 values that all lie in [0,1] or are NaN,
    the opacity policy in mode auto or linear, and the colour decoder on a
    dtype other than u8 in mode auto or linear, answer "linear" and return
    every value unchanged, but for -0, which becomes +0.  In particular a
    NaN stays a NaN: unlike the positions, these buffers are not
    sanitized. *)
Theorem linear_values_pass_through (values : list number) (dtype : TensorDType)
    (omode : OpacityMode) (cmode : ColorMode) :
  Forall is_float32 values ->
  Forall in_unit_or_NaN values ->
  (omode <> opacity_logits ->
     applyOpacityPolicy values omode = (map plus_zero values, "linear"%string)) /\
  (dtype <> u8 -> cmode <> color_sh ->
     decodeColorDC values dtype cmode = (map plus_zero values, "linear"%string)) /\
  plus_zero S754_nan = S754_nan /\
  in_unit_or_NaN S754_nan.
Proof.
  intros Hf32 Hunit.
  pose proof (existsb_in_unit values Hunit) as Hnone.
  assert (Hmap : forall (f : number -> number),
            (forall x, is_float32 x -> in_unit_or_NaN x -> f x = plus_zero x) ->
            map f values = map plus_zero values).
  { intros f Hf. apply map_ext_in. intros x Hin.
    rewrite Forall_forall in Hf32, Hunit. apply list_elem_of_In in Hin.
    apply Hf; [apply Hf32 | apply Hunit]; exact Hin. }
  split; [|split; [|split; [reflexivity | split; reflexivity]]].
  - intros Hmode. unfold applyOpacityPolicy.
    replace (match omode with
             | opacity_logits => true
             | opacity_auto => existsb outside01 values
             | opacity_linear => false
             end) with false
      by (destruct omode; [symmetry; exact Hnone | reflexivity | contradiction]).
    f_equal. apply Hmap. intros x Hx Hu.
    rewrite (clamp_unit x Hu). apply plus_zero_float32, Hx.
  - intros Hdtype Hmode. unfold decodeColorDC.
    replace (match cmode with
             | color_sh => true
             | color_auto => existsb outside01 values
             | color_linear => false
             end) with false
      by (destruct cmode; [symmetry; exact Hnone | reflexivity | contradiction]).
    destruct dtype; try contradiction; rewrite map_map; f_equal; apply Hmap;
      intros x Hx Hu; rewrite Hx, (clamp_unit x Hu); apply plus_zero_float32, Hx.
Qed.

(** X16: none of the three policies replaces a NaN.  A NaN component
    of a colour buffer is a NaN in the decoded colours, whatever the dtype
    and the mode; a NaN opacity or sigma is a NaN in the result under the
    linear interpretation, and under the logits and log interpretations too
    when the host's [Math.exp] maps NaN to NaN, as ECMAScript requires.  A
    NaN is not "outside [0,1]" and is not "<= 0": it never selects the SH,
    logits or log interpretation in mode auto. *)
Theorem policies_keep_NaN (values : list number) (i : nat) (dtype : TensorDType)
    (cmode : ColorMode) (omode : OpacityMode) (smode : SigmaMode) :
  values !! i = Some S754_nan ->
  (decodeColorDC values dtype cmode).1 !! i = Some S754_nan /\
  ((applyOpacityPolicy values omode).2 = "linear"%string \/
   Math_exp S754_nan = S754_nan ->
   (applyOpacityPolicy values omode).1 !! i = Some S754_nan) /\
  ((applySigmaPolicy values smode).2 = "linear"%string \/
   Math_exp S754_nan = S754_nan ->
   (applySigmaPolicy values smode).1 !! i = Some S754_nan) /\
  outside01 S754_nan = false /\ le S754_nan (ofZ 0) = false.
Proof.
  intros Hi.
  split; [|split; [|split; [|split; reflexivity]]].
  - unfold decodeColorDC.
    destruct dtype; cbv beta iota zeta delta [fst];
      rewrite (lookup_map_at _ _ i _ (lookup_map_at _ _ i _ Hi));
      try reflexivity;
      destruct (match cmode with
                | color_sh => true
                | color_auto => existsb outside01 values
                | color_linear => false
                end); reflexivity.
  - unfold applyOpacityPolicy. cbn [fst snd].
    destruct (match omode with
              | opacity_logits => true
              | opacity_auto => existsb outside01 values
              | opacity_linear => false
              end).
    + intros [Hlin|Hexp]; [discriminate|].
      rewrite (lookup_map_at _ _ i _ Hi).
      unfold sigmoid. cbn [neg SFopp]. rewrite Hexp. reflexivity.
    + intros _. rewrite (lookup_map_at _ _ i _ Hi). reflexivity.
  - unfold applySigmaPolicy. cbn [fst snd].
    destruct (match smode with
              | sigma_log => true
              | sigma_auto => existsb (fun v => le v (ofZ 0)) values
              | sigma_linear => false
              end).
    + intros [Hlin|Hexp]; [discriminate|].
      rewrite (lookup_map_at _ _ i _ Hi).
      rewrite Hexp. reflexivity.
    + intros _. rewrite (lookup_map_at _ _ i _ Hi). reflexivity.
Qed.

End LinearValues.

Lemma linear_values_pass_through_witness :
  @applyOpacityPolicy sample_host [pow2 (-1); S754_nan; S754_zero true] opacity_auto
  = ([pow2 (-1); S754_nan; S754_zero false], "linear"%string).
Proof.
  assert (H32 : Forall is_float32 [pow2 (-1); S754_nan; S754_zero true])
    by (repeat constructor).
  assert (Hunit : Forall in_unit_or_NaN [pow2 (-1); S754_nan; S754_zero true])
    by (repeat constructor).
  apply (proj1 (@linear_values_pass_through sample_host
                  [pow2 (-1); S754_nan; S754_zero true] f32 opacity_auto color_auto
                  H32 Hunit)).
  discriminate.
Defined.

Lemma policies_keep_NaN_witness :
  (decodeColorDC [ofZ 2; S754_nan] f32 color_auto).1 !! 1%nat = Some S754_nan.
Proof.
  exact (proj1 (@policies_keep_NaN sample_host [ofZ 2; S754_nan] 1 f32 color_auto
                  opacity_auto sigma_auto eq_refl)).
Defined.

(** ** Renderers: the index array *)

(** Storing [f i] at each index [i] of an array of [n] entries. *)
Lemma fold_insert_seq {A} (f : nat -> A) (a : A) (k n : nat) (arr : list A) :
  length arr = (k + n)%nat ->
  fold_left (fun arr i => <[i := f i]> arr) (seq k n) arr
  = take k arr ++ map f (seq k n).
Proof.
  revert k arr. induction n as [|n IH]; intros k arr Hlen.
  - cbn. rewrite app_nil_r, take_ge by lia. reflexivity.
  - cbn [seq fold_left map]. rewrite IH by (rewrite length_insert; lia).
    rewrite (take_S_r _ k (f k)).
    + rewrite take_insert_ge by lia. rewrite <- app_assoc. reflexivity.
    + apply list_lookup_insert_eq. lia.
Qed.

Lemma indexArray_fill (n : nat) (bits : Z) :
  Z.of_nat n <= 2 ^ bits ->
  fold_left (fun arr i => <[i := Z.of_nat i mod 2 ^ bits]> arr) (seq 0 n)
    (replicate n 0)
  = map Z.of_nat (seq 0 n).
Proof.
  intros Hn.
  rewrite (fold_insert_seq (fun i => Z.of_nat i mod 2 ^ bits) 0 0 n)
    by (rewrite length_replicate; lia).
  rewrite take_0. cbn [app]. apply map_ext_in. intros i Hi.
  apply in_seq in Hi. apply Z.mod_small. lia.
Qed.

(** The index array of a vertex count in range. *)
Lemma indexArray_identity (n : Z) :
  0 <= n <= 2 ^ 32 ->
  indexArray n
  = inr (IntArray (if n >? 65535 then Uint32 else Uint16) (identity_indices n)).
Proof.
  intros Hn. unfold indexArray, identity_indices.
  replace (n <? 0) with false by (symmetry; apply Z.ltb_ge; lia).
  destruct (n >? 65535) eqn:E.
  - rewrite indexArray_fill by (rewrite Z2Nat.id; lia). reflexivity.
  - rewrite Z.gtb_ltb in E. apply Z.ltb_ge in E.
    rewrite indexArray_fill by (rewrite Z2Nat.id by lia; change (2 ^ 16) with 65536; lia).
    reflexivity.
Qed.



(** ** Renderers: the geometry *)

Lemma barycentricStep_length (b : list number) (tri : nat) :
  length (barycentricStep b tri) = length b.
Proof. unfold barycentricStep. rewrite !length_insert. reflexivity. Qed.

Lemma barycentricStep_other (b : list number) (tri tri' k : nat) :
  tri' <> tri -> (k < 9)%nat ->
  barycentricStep b tri !! (tri' * 9 + k)%nat = b !! (tri' * 9 + k)%nat.
Proof.
  intros Hne Hk. unfold barycentricStep.
  rewrite !list_lookup_insert_ne by lia. reflexivity.
Qed.

Lemma barycentricStep_here (b : list number) (tri v c : nat) :
  (tri * 9 + 8 < length b)%nat -> (v < 3)%nat -> (c < 3)%nat ->
  barycentricStep b tri !! (tri * 9 + (v * 3 + c))%nat
  = if decide (v = c) then Some (ofZ 1) else b !! (tri * 9 + (v * 3 + c))%nat.
Proof.
  intros Hlen Hv Hc. unfold barycentricStep.
  destruct (decide (v = c)) as [->|Hne].
  - destruct c as [|[|[|c]]]; [| | |lia];
      repeat (rewrite list_lookup_insert_ne by lia);
      (rewrite list_lookup_insert_at; [|lia|rewrite ?length_insert; lia]);
      reflexivity.
  - rewrite !list_lookup_insert_ne by lia. reflexivity.
Qed.

Lemma barycentric_fold_length (tris : list nat) (b : list number) :
  length (fold_left barycentricStep tris b) = length b.
Proof.
  revert b. induction tris as [|t tris IH]; intros b; [reflexivity|].
  cbn [fold_left]. rewrite IH. apply barycentricStep_length.
Qed.

Lemma barycentric_fold_other (tris : list nat) (b : list number) (tri k : nat) :
  tri ∉ tris -> (k < 9)%nat ->
  fold_left barycentricStep tris b !! (tri * 9 + k)%nat = b !! (tri * 9 + k)%nat.
Proof.
  revert b. induction tris as [|t tris IH]; intros b Hnotin Hk; [reflexivity|].
  apply not_elem_of_cons in Hnotin as [Hne Hnotin].
  cbn [fold_left]. rewrite IH by assumption.
  apply barycentricStep_other; assumption.
Qed.

Lemma barycentric_fold_here (tris : list nat) (z : number) (len : nat)
    (tri v c : nat) :
  NoDup tris ->
  (forall t, t ∈ tris -> (t * 9 + 8 < len)%nat) ->
  tri ∈ tris -> (v < 3)%nat -> (c < 3)%nat ->
  fold_left barycentricStep tris (replicate len z) !! (tri * 9 + (v * 3 + c))%nat
  = Some (if decide (v = c) then ofZ 1 else z).
Proof.
  intros Hnd Hrange Hin Hv Hc.
  assert (Hgen : forall b, length b = len ->
            b !! (tri * 9 + (v * 3 + c))%nat = Some z ->
            fold_left barycentricStep tris b !! (tri * 9 + (v * 3 + c))%nat
            = Some (if decide (v = c) then ofZ 1 else z)).
  { clear - Hnd Hrange Hin Hv Hc.
    induction tris as [|t tris IH]; intros b Hlen Hb; [inversion Hin|].
    apply NoDup_cons in Hnd as [Hnotin Hnd]. cbn [fold_left].
    apply elem_of_cons in Hin as [->|Hin].
    - rewrite barycentric_fold_other by (assumption || lia).
      rewrite barycentricStep_here by (try assumption; rewrite Hlen; apply Hrange; left).
      destruct (decide (v = c)); [reflexivity | exact Hb].
    - apply IH; try assumption.
      + intros t' Ht'. apply Hrange. right. exact Ht'.
      + rewrite barycentricStep_length. exact Hlen.
      + rewrite barycentricStep_other; [exact Hb| |lia].
        intros ->. contradiction. }
  apply Hgen; [apply length_replicate|].
  apply lookup_replicate_2.
  specialize (Hrange tri Hin). lia.
Qed.

Lemma dataOrFilled_run (field : option ScalarField) (n : Z) (v : number) (h : Heap) :
  0 <= n ->
  dataOrFilled field n v h
  = match field with
    | Some a => (inr (scalar_data a), h)
    | None => (inr (length h), h ++ [Float32Array (replicate (Z.to_nat n) (fround v))])
    end.
Proof.
  intros Hn. unfold dataOrFilled. destruct field as [a|]; [reflexivity|].
  unfold render_filled. replace (n <? 0) with false by (symmetry; apply Z.ltb_ge; lia).
  reflexivity.
Qed.



Lemma snoc_lookup_last {A} (l : list A) (x : A) : (l ++ [x]) !! length l = Some x.
Proof. apply list_lookup_middle. reflexivity. Qed.

Lemma snoc_lookup_old {A} (l : list A) (x y : A) (i : nat) :
  l !! i = Some y -> (l ++ [x]) !! i = Some y.
Proof. intros Hl. apply lookup_app_l_Some. exact Hl. Qed.


(** ** Renderers: the splat settings *)

Lemma clamp_NaN (lo hi : number) : clamp lo hi S754_nan = S754_nan.
Proof. unfold clamp. destruct hi, lo; reflexivity. Qed.

(** X20: the splat settings.  [setSplatParams] changes the uniform of each
    parameter that is given as a number, and no other; the edge softness is
    never changed.  A parameter that is not NaN is stored clamped: the alpha
    curve into [1, 1000], the sigma scale into [0.01, 2], the covered alpha
    floor into [0, 0.8]; so the uniforms, which start in these ranges, stay
    in them under any such call.  A parameter that is NaN is a number too:
    it is stored as NaN. *)
Theorem setSplatParams_ranges (u : SplatUniforms) (params : SplatParams) :
  let u' := setSplatParams u params in
  uEdgeSoftness u' = uEdgeSoftness u /\
  uAlphaCurveK u'
  = match alphaCurveK params with
    | Some k => clamp (ofZ 1) c_1000 k
    | None => uAlphaCurveK u
    end /\
  uSigmaScale u'
  = match sigmaScale params with
    | Some s => clamp c_0_01 c_2 s
    | None => uSigmaScale u
    end /\
  uCoveredAlphaFloor u'
  = match coveredAlphaFloor params with
    | Some f => clamp (ofZ 0) c_0_8 f
    | None => uCoveredAlphaFloor u
    end /\
  uniforms_in_range initial_uniforms /\
  (uniforms_in_range u -> params_not_NaN params -> uniforms_in_range u') /\
  (alphaCurveK params = Some S754_nan -> uAlphaCurveK u' = S754_nan) /\
  (sigmaScale params = Some S754_nan -> uSigmaScale u' = S754_nan) /\
  (coveredAlphaFloor params = Some S754_nan -> uCoveredAlphaFloor u' = S754_nan).
Proof.
  intros u'. subst u'.
  assert (Hfields :
    uEdgeSoftness (setSplatParams u params) = uEdgeSoftness u /\
    uAlphaCurveK (setSplatParams u params)
    = match alphaCurveK params with
      | Some k => clamp (ofZ 1) c_1000 k
      | None => uAlphaCurveK u
      end /\
    uSigmaScale (setSplatParams u params)
    = match sigmaScale params with
      | Some s => clamp c_0_01 c_2 s
      | None => uSigmaScale u
      end /\
    uCoveredAlphaFloor (setSplatParams u params)
    = match coveredAlphaFloor params with
      | Some f => clamp (ofZ 0) c_0_8 f
      | None => uCoveredAlphaFloor u
      end).
  { unfold setSplatParams.
    destruct (alphaCurveK params), (sigmaScale params), (coveredAlphaFloor params);
      repeat split; reflexivity. }
  destruct Hfields as (He & Hk & Hs & Hf).
  split; [exact He|]. split; [exact Hk|]. split; [exact Hs|]. split; [exact Hf|].
  split; [repeat split; reflexivity|].
  split; [|split; [|split]].
  - intros ((Hs1 & Hs2) & (Hk1 & Hk2) & (Hf1 & Hf2)) (Nk & Ns & Nf).
    unfold uniforms_in_range. rewrite Hk, Hs, Hf.
    split; [|split].
    + destruct (sigmaScale params) as [s|]; [|split; assumption].
      apply clamp_between; [reflexivity | apply Ns; reflexivity].
    + destruct (alphaCurveK params) as [k|]; [|split; assumption].
      apply clamp_between; [reflexivity | apply Nk; reflexivity].
    + destruct (coveredAlphaFloor params) as [f|]; [|split; assumption].
      apply clamp_between; [reflexivity | apply Nf; reflexivity].
  - intros Hp. rewrite Hk, Hp. apply clamp_NaN.
  - intros Hp. rewrite Hs, Hp. apply clamp_NaN.
  - intros Hp. rewrite Hf, Hp. apply clamp_NaN.
Qed.

(** The geometry that the mesh renderer builds. *)
Lemma createMeshRenderable_geometry_full (semanticData : SemanticData) (h : Heap) :
  let total := totalVertices (stats semanticData) in
  0 <= total <= 2 ^ 32 ->
  exists (r : Renderable) (kind : IntKind),
    createMeshRenderable semanticData h
    = (inr r, h ++ [IntArray kind (identity_indices total)]) /\
    render_stats r
    = {| triangles := triangleCount (stats semanticData); points := total |} /\
    let g := geometry (object3d r) in
    index g = Some {| attr_array := length h; itemSize := 1 |} /\
    attributes g !! "position"%string
    = Some {| attr_array := pos_data (positions semanticData); itemSize := 3 |} /\
    attributes g !! "color"%string
    = (fun c => {| attr_array := color_data c; itemSize := 3 |}) <$> colorDC semanticData /\
    attributes g !! "alpha"%string
    = (fun a => {| attr_array := scalar_data a; itemSize := 1 |})
        <$> opacity semanticData /\
    (forall name, is_Some (attributes g !! name) ->
       name ∈ ["position"; "color"; "alpha"]%string).
Proof.
  intros total Hrange. unfold createMeshRenderable. fold total.
  rewrite (indexArray_identity total Hrange).
  unfold bind, of_result, new_array, alloc, ret.
  eexists _, _. split; [reflexivity|].
  cbn [mode hasSplatMethods render_stats object3d material geometry].
  split; [reflexivity|].
  cbn zeta. cbn [setIndex index attributes].
  split; [reflexivity|].
  destruct (colorDC semanticData) as [c|], (opacity semanticData) as [a|];
    cbn [setAttribute attributes index fmap option_fmap option_map];
    (split; [reflexivity|]); (split; [reflexivity|]); (split; [reflexivity|]);
    intros name [x Hx];
    repeat (apply lookup_insert_Some in Hx as [[<- _]|[_ Hx]];
            [rewrite !elem_of_cons; tauto|]);
    rewrite lookup_empty in Hx; discriminate.
Qed.

Lemma createMeshRenderable_geometry_run (semanticData : SemanticData) (h : Heap) :
  0 <= totalVertices (stats semanticData) <= 2 ^ 32 ->
  exists (r : Renderable) (h' : Heap) (p : MeshPhongMaterial),
    createMeshRenderable semanticData h = (inr r, h') /\
    mode r = mode_mesh /\ hasSplatMethods r = false /\
    material (object3d r) = PhongMaterial p.
Proof.
  intros Hrange. unfold createMeshRenderable.
  rewrite (indexArray_identity _ Hrange).
  unfold bind, of_result, new_array, alloc, ret.
  eexists _, _, _. split; [reflexivity|]. repeat split.
Qed.

Lemma createSplatRenderable_run (semanticData : SemanticData) (h : Heap)
    (c : ColorField) :
  colorDC semanticData = Some c ->
  0 <= totalVertices (stats semanticData) <= 2 ^ 32 ->
  exists (r : Renderable) (h' : Heap),
    createSplatRenderable semanticData h = (inr r, h') /\
    mode r = mode_splat /\ hasSplatMethods r = true /\
    uniforms_of r = Some initial_uniforms.
Proof.
  intros Hc Hrange. unfold createSplatRenderable. rewrite Hc.
  unfold bind at 1. rewrite dataOrFilled_run by lia.
  destruct (opacity semanticData) as [a|];
    (unfold bind at 1; rewrite dataOrFilled_run by lia;
     destruct (sigma semanticData) as [s|];
     unfold render_filled;
     (replace (totalVertices (stats semanticData) * 3 <? 0) with false
        by (symmetry; apply Z.ltb_ge; lia));
     rewrite (indexArray_identity _ Hrange);
     unfold bind, of_result, new_array, alloc, ret;
     eexists _, _; (split; [reflexivity|]); repeat split).
Qed.


(** ** From the file to the geometry *)

Section LoadToGeometry.
Context `{Host}.

Lemma scalar_resolved_size (policy : list number -> list number * string)
    (fallback : number) (tensor : option TensorRecord) (n : Z) (h h' : Heap)
    (field : option ScalarField) (tag : string) (a : ScalarField) :
  0 <= n ->
  scalar_resolved policy fallback tensor n (n * 3) h h' field tag ->
  field = Some a ->
  exists vs, h' !! scalar_data a = Some (Float32Array vs) /\
             Z.of_nat (length vs) = n * 3.
Proof.
  intros Hn Hres Hfield. unfold scalar_resolved in Hres.
  destruct tensor as [t|].
  - destruct Hres as (d & l & _ & Hf & _ & Hl). rewrite Hf in Hfield.
    injection Hfield as <-. cbn [scalar_data]. eexists. split; [exact Hl|].
    rewrite broadcastScalar_fold_length, length_replicate. lia.
  - destruct Hres as [Hf _]. congruence.
Qed.

(** The sizes of the arrays of the semantic data: three numbers per vertex
    for the colours, one per vertex for the opacities and the sigmas. *)
Lemma resolveSemantics_sizes (m : ParsedModel) (o : ResolveOptions) (h h' : Heap)
    (pt : TensorRecord) (n : Z) (rest : list Z) (sd : SemanticData) :
  model_in_store m h ->
  findTensor (tensors m) positions_aliases = Some pt ->
  shape pt = n :: 3 :: 3 :: rest ->
  0 <= n ->
  resolveSemantics m o h = (inr sd, h') ->
  triangleCount (stats sd) = n /\ totalVertices (stats sd) = n * 3 /\
  (forall cf, colorDC sd = Some cf ->
     exists vs, h' !! color_data cf = Some (Float32Array vs) /\
                Z.of_nat (length vs) = 3 * (n * 3)) /\
  (forall a, opacity sd = Some a ->
     exists vs, h' !! scalar_data a = Some (Float32Array vs) /\
                Z.of_nat (length vs) = n * 3) /\
  (forall s, sigma sd = Some s ->
     exists vs, h' !! scalar_data s = Some (Float32Array vs) /\
                Z.of_nat (length vs) = n * 3).
Proof.
  intros Hwf Hpt Hshape Hn Hrun.
  destruct (model_in_store_find m h _ Hwf pt Hpt) as [d Hd].
  pose proof (resolveSemantics_fits m o h h' pt n rest sd Hwf Hpt Hshape Hrun)
    as [_ Hlimit].
  assert (Hlimit' : n * 3 * 3 <= arrayLimit) by lia.
  destruct (resolveSemantics_result m o h pt d n rest Hwf Hpt Hd Hshape Hn Hlimit)
    as (sd1 & h2 & h3 & colors & Hrun1 & _ & _ & _ & _ & _ & _ & _ & _ & Htri & Htot
        & Hcol & _).
  rewrite Hrun in Hrun1. injection Hrun1 as <- ->.
  destruct (resolveSemantics_run m o h pt n rest Hwf Hpt Hshape Hn Hlimit')
    as (sd2 & h'' & h2' & Hrun2 & _ & _ & _ & Hop & Hsg).
  rewrite Hrun in Hrun2. injection Hrun2 as <- <-.
  split; [exact Htri|]. split; [exact Htot|].
  split; [|split].
  - intros cf Hcf.
    destruct (findTensor (tensors m) colorDC_aliases) as [ct|].
    + destruct Hcol as (dc & _ & Hcolors & Hfield & _).
      rewrite Hfield in Hcf. injection Hcf as <-. cbn [color_data].
      exists colors. split; [apply list_lookup_middle; reflexivity|].
      rewrite Hcolors.
      rewrite (proj1 (broadcast_color_all _ n Hn)). lia.
    + destruct Hcol as [Hno _]. congruence.
  - intros a Ha. exact (scalar_resolved_size _ _ _ _ _ _ _ _ a Hn Hop Ha).
  - intros s Hs. exact (scalar_resolved_size _ _ _ _ _ _ _ _ s Hn Hsg Hs).
Qed.

(** X22: from the file to the mesh, as the viewer runs them.  When
    [FormatLoader.parse] and then [resolveSemantics] return and the position
    shape is exactly [N,3,3] with N positive and 3N at most 2^32, the mesh
    renderer returns too, for N triangles and 3N vertices, and every
    attribute of its geometry is a [Float32Array] of the store with exactly
    one item per vertex: 9N numbers for the positions, all finite, and for
    the colours, 3N for the alphas.  The index has the 3N entries
    0, 1, ..., 3N - 1. *)
Theorem FormatLoader_parse_to_mesh (buffer : ArrayBuffer) (h h1 h2 : Heap)
    (m : ParsedModel) (o : ResolveOptions) (sd : SemanticData) (N : Z) :
  FormatLoader_parse buffer h = (inr m, h1) ->
  resolveSemantics m o h1 = (inr sd, h2) ->
  pos_shape (positions sd) = [N; 3; 3] ->
  0 < N -> N * 3 <= 2 ^ 32 ->
  exists (r : Renderable) (h3 : Heap),
    createMeshRenderable sd h2 = (inr r, h3) /\
    render_stats r = {| triangles := N; points := N * 3 |} /\
    (forall name a, attributes (geometry (object3d r)) !! name = Some a ->
       exists vs, h3 !! attr_array a = Some (Float32Array vs) /\
                  Z.of_nat (length vs) = itemSize a * (N * 3)) /\
    (exists a vs, attributes (geometry (object3d r)) !! "position"%string = Some a /\
                  h3 !! attr_array a = Some (Float32Array vs) /\
                  Forall (fun v => isFinite v = true) vs) /\
    (exists il kind,
       index (geometry (object3d r)) = Some {| attr_array := il; itemSize := 1 |} /\
       h3 !! il = Some (IntArray kind (identity_indices (N * 3)))).
Proof.
  intros Hparse Hres Hshape HN Hmax.
  pose proof (FormatLoader_parse_inv buffer h h1 m Hparse) as Hinv.
  pose proof (entries_inv_model_in_store _ _ _ _ Hinv) as Hwf.
  destruct Hinv as (_ & Hbuf & _).
  destruct (findTensor (tensors m) positions_aliases) as [pt|] eqn:Hpt.
  2:{ unfold resolveSemantics in Hres. rewrite Hpt in Hres. discriminate. }
  destruct (findTensor_Some _ _ _ Hpt) as (k & _ & Hk).
  destruct (Hbuf k pt Hk) as [_ (d & Hd & Hkind & Hnn & Hcount)].
  (* the shape of the tensor is the shape that the resolver returns *)
  assert (Hpos : exists n rest, shape pt = n :: 3 :: 3 :: rest).
  { destruct (shape pt) as [|n [|v [|c rest]]] eqn:Hs;
      try (exfalso; unfold resolveSemantics in Hres; rewrite Hpt, Hs in Hres;
           destruct (resolve_positions_run pt h1
                       (fun _ _ => throw (InvalidPositionShape (shape pt)))
                       (model_in_store_find m h1 _ Hwf pt Hpt))
             as (pd & rep & hx & Hrun & _);
           rewrite Hs in Hrun; rewrite Hrun in Hres; discriminate).
    destruct (negb (v =? 3) || negb (c =? 3)) eqn:Ebad.
    - exfalso. unfold resolveSemantics in Hres. rewrite Hpt, Hs, Ebad in Hres.
      destruct (resolve_positions_run pt h1
                  (fun _ _ => throw (UnsupportedPositionShape n v c))
                  (model_in_store_find m h1 _ Hwf pt Hpt))
        as (pd & rep & hx & Hrun & _).
      rewrite Hrun in Hres. discriminate.
    - apply orb_false_iff in Ebad as [Ev Ec].
      apply negb_false_iff, Z.eqb_eq in Ev, Ec. subst v c. eauto. }
  destruct Hpos as (n & rest & Hs).
  assert (Hn : 0 <= n) by (rewrite Hs in Hnn; inversion Hnn; assumption).
  pose proof (resolveSemantics_fits m o h1 h2 pt n rest sd Hwf Hpt Hs Hres)
    as [_ Hlimit].
  destruct (resolveSemantics_result m o h1 pt d n rest Hwf Hpt Hd Hs Hn Hlimit)
    as (sd1 & hp & h3 & colors & Hrun1 & Hpre & _ & _ & Hpd & _ & _ & Hsh & _).
  rewrite Hres in Hrun1. injection Hrun1 as <- ->.
  rewrite Hsh, Hs in Hshape. injection Hshape as -> ->.
  destruct (resolveSemantics_sizes m o h1 _ pt N [] sd Hwf Hpt Hs Hn Hres)
    as (Htri & Htot & Hcolor & Halpha & _).
  pose proof (float32_values_typed d (array_of_dtype_typed _ _ Hkind)) as Htyped.
  destruct (sanitize_loop_inv _ Htyped) as (Hlen & _).
  destruct (sanitize_loop_result _ Htyped) as (_ & Hfin & _).
  assert (Hposarr : (h3 ++ [Float32Array colors]) !! pos_data (positions sd)
                    = Some (Float32Array (sanitize_loop (float32_values d)).1)).
  { eapply prefix_lookup_Some; [exact Hpd|].
    etransitivity; [exact Hpre | apply prefix_app_r; reflexivity]. }
  assert (Hposlen : Z.of_nat (length (sanitize_loop (float32_values d)).1) = 3 * (N * 3)).
  { rewrite Hlen, float32_values_length.
    rewrite Hcount; rewrite Hs; [|discriminate|];
      unfold dims_product; cbn [foldr]; lia. }
  destruct (createMeshRenderable_geometry_full sd (h3 ++ [Float32Array colors]))
    as (r & kind & Hrun & Hstats & Hidx & Hp & Hc & Ha & Honly).
  { rewrite Htot. lia. }
  rewrite Htot, Htri in *.
  set (hm := h3 ++ [Float32Array colors]) in *.
  assert (Hkeep : forall l x, hm !! l = Some x ->
            (hm ++ [IntArray kind (identity_indices (N * 3))]) !! l = Some x)
    by (intros l x Hl; apply snoc_lookup_old; exact Hl).
  exists r, (hm ++ [IntArray kind (identity_indices (N * 3))]).
  split; [exact Hrun|]. split; [exact Hstats|].
  split; [|split].
  - intros name a Hattr.
    pose proof (Honly name ltac:(eauto)) as Hname.
    rewrite !elem_of_cons in Hname.
    destruct Hname as [->|[->|[->|Hnil]]]; [| | |inversion Hnil].
    + rewrite Hp in Hattr. injection Hattr as <-. cbn [attr_array itemSize].
      eexists. split; [apply Hkeep; exact Hposarr | exact Hposlen].
    + rewrite Hc in Hattr. destruct (colorDC sd) as [cf|]; [|discriminate].
      injection Hattr as <-. cbn [attr_array itemSize].
      destruct (Hcolor cf eq_refl) as (vs & Hvs & Hl).
      exists vs. split; [apply Hkeep; exact Hvs | exact Hl].
    + rewrite Ha in Hattr. destruct (opacity sd) as [al|]; [|discriminate].
      injection Hattr as <-. cbn [attr_array itemSize].
      destruct (Halpha al eq_refl) as (vs & Hvs & Hl).
      exists vs. split; [apply Hkeep; exact Hvs | lia].
  - eexists _, _. split; [exact Hp|]. cbn [attr_array].
    split; [apply Hkeep; exact Hposarr | exact Hfin].
  - exists (length hm), kind. split; [exact Hidx | apply snoc_lookup_last].
Qed.

End LoadToGeometry.

Lemma FormatLoader_parse_to_mesh_witness :
  exists (sd : SemanticData) (h2 : Heap) (r : Renderable) (h3 : Heap),
    @resolveSemantics sample_host one_triangle_model default_options one_triangle_store
    = (inr sd, h2) /\
    createMeshRenderable sd h2 = (inr r, h3) /\
    render_stats r = {| triangles := 1; points := 1 * 3 |}.
Proof.
  eassert (Hrun : @resolveSemantics sample_host one_triangle_model default_options
                    one_triangle_store = (inr _, _))
    by (vm_compute; reflexivity).
  destruct (@FormatLoader_parse_to_mesh sample_host sample_container []
              one_triangle_store _ one_triangle_model default_options _ 1
              sample_parses Hrun eq_refl ltac:(lia) ltac:(lia))
    as (r & h3 & Hmesh & Hstats & _).
  eexists _, _, r, h3. split; [exact Hrun|]. split; [exact Hmesh | exact Hstats].
Defined.

(** ** Conversion, alias lookup and repeated resolution *)

(** X23: [toFloat32Array] on a typed array returns an array of as
    many entries that are all binary32 values, and leaves every existing
    array as it was.  The result is the input object itself
    exactly when the input is a [Float32Array]; any other array is copied
    into a new object, the input keeping its contents.  Converting the
    result again returns the same object and allocates nothing. *)
Theorem toFloat32Array_stable (l : loc) (d : TensorData) (h : Heap) :
  h !! l = Some d ->
  (forall vs, d = Float32Array vs -> Forall is_float32 vs) ->
  exists (l' : loc) (h' : Heap),
    toFloat32Array l h = (inr l', h') /\
    h `prefix_of` h' /\
    h' !! l' = Some (Float32Array (float32_values d)) /\
    Z.of_nat (length (float32_values d)) = data_length d /\
    Forall is_float32 (float32_values d) /\
    (l' = l <-> exists vs, d = Float32Array vs) /\
    (l' <> l -> l' = length h /\ h' = h ++ [Float32Array (float32_values d)]) /\
    (l' = l -> h' = h) /\
    toFloat32Array l' h' = (inr l', h').
Proof.
  intros Hd Htyped.
  assert (Hlt : (l < length h)%nat) by (eapply lookup_lt_Some; exact Hd).
  assert (Hlen : Z.of_nat (length (float32_values d)) = data_length d).
  { destruct d; cbn [float32_values data_length]; rewrite ?length_map; reflexivity. }
  assert (Hty : Forall is_float32 (float32_values d)).
  { destruct d as [vs|vs|kd vs|kd vs]; cbn [float32_values].
    - apply Htyped. reflexivity.
    - apply Forall_map, Forall_forall. intros x _. apply fround_is_float32.
    - apply Forall_map, Forall_forall. intros x _. apply fround_is_float32.
    - apply Forall_map, Forall_forall. intros x _. apply fround_is_float32. }
  assert (Hnew : forall d0, d0 = d -> (forall vs, d <> Float32Array vs) ->
            exists (l' : loc) (h' : Heap),
              @new_array ResolveError (Float32Array (float32_values d)) h = (inr l', h') /\
              h `prefix_of` h' /\
              h' !! l' = Some (Float32Array (float32_values d)) /\
              Z.of_nat (length (float32_values d)) = data_length d /\
              Forall is_float32 (float32_values d) /\
              (l' = l <-> exists vs, d = Float32Array vs) /\
              (l' <> l -> l' = length h /\ h' = h ++ [Float32Array (float32_values d)]) /\
              (l' = l -> h' = h) /\
              toFloat32Array l' h' = (inr l', h')).
  { intros d0 _ Hnot.
    exists (length h), (h ++ [Float32Array (float32_values d)]).
    split; [reflexivity|]. split; [apply prefix_app_r; reflexivity|].
    split; [apply list_lookup_middle; reflexivity|].
    split; [exact Hlen|]. split; [exact Hty|].
    split; [split; [lia | intros [vs Hvs]; destruct (Hnot vs Hvs)]|].
    split; [intros _; split; reflexivity|].
    split; [lia|].
    unfold toFloat32Array.
    rewrite (list_lookup_middle h [] (Float32Array (float32_values d)) (length h) eq_refl).
    reflexivity. }
  unfold toFloat32Array at 1. rewrite Hd.
  destruct d as [vs|vs|kd vs|kd vs];
    try (apply (Hnew _ eq_refl); intros vs0; discriminate).
  exists l, h. split; [reflexivity|]. split; [reflexivity|].
  split; [exact Hd|]. split; [exact Hlen|]. split; [exact Hty|].
  split; [split; [intros _; eexists; reflexivity | reflexivity]|].
  split; [intros Hne; destruct (Hne eq_refl)|].
  split; [reflexivity|].
  unfold toFloat32Array. rewrite Hd. reflexivity.
Qed.

Lemma toFloat32Array_stable_witness :
  exists (l' : loc) (h' : Heap),
    toFloat32Array 1%nat colored_store = (inr l', h') /\
    h' !! l' = Some (Float32Array [ofZ 255; ofZ 0; ofZ 51]) /\
    h' !! 1%nat = Some (IntArray Uint8 [255; 0; 51]).
Proof.
  destruct (toFloat32Array_stable 1%nat (IntArray Uint8 [255; 0; 51]) colored_store
              eq_refl ltac:(intros vs; discriminate))
    as (l' & h' & Hrun & Hpre & Hres & _).
  exists l', h'. split; [exact Hrun|]. split; [exact Hres|].
  exact (prefix_lookup_Some colored_store h' 1%nat _ eq_refl Hpre).
Defined.

(** X24: [findTensor] returns the tensor of the first alias, in the order
    of the list, that the model has, and [findTensorName] returns that
    alias; both return nothing exactly when the model has none of the
    aliases. *)
Theorem findTensor_first_alias (tensors : gmap string TensorRecord)
    (aliases : list string) :
  match findTensor tensors aliases with
  | Some t =>
      exists (i : nat) (k : string),
        aliases !! i = Some k /\ tensors !! k = Some t /\
        findTensorName tensors aliases = Some k /\
        forall (j : nat) (k' : string),
          (j < i)%nat -> aliases !! j = Some k' -> tensors !! k' = None
  | None =>
      findTensorName tensors aliases = None /\
      forall k, k ∈ aliases -> tensors !! k = None
  end.
Proof.
  unfold findTensorName.
  induction aliases as [|k rest IH]; cbn [findTensor List.find].
  - split; [reflexivity|]. intros k Hk. inversion Hk.
  - destruct (tensors !! k) as [t|] eqn:E.
    + exists 0%nat, k. rewrite bool_decide_eq_true_2 by eauto.
      split; [reflexivity|]. split; [exact E|]. split; [reflexivity|].
      intros j k' Hj. lia.
    + rewrite bool_decide_eq_false_2 by (intros [x Hx]; discriminate).
      destruct (findTensor tensors rest) as [t|].
      * destruct IH as (i & k0 & Hi & Hk0 & Hname & Hfirst).
        exists (S i), k0. split; [exact Hi|]. split; [exact Hk0|].
        split; [exact Hname|].
        intros [|j] k' Hj Hk'.
        -- injection Hk' as <-. exact E.
        -- apply (Hfirst j k'); [lia | exact Hk'].
      * destruct IH as [Hname Hnone]. split; [exact Hname|].
        intros k' Hk'. apply elem_of_cons in Hk' as [->|Hk']; [exact E|].
        apply Hnone. exact Hk'.
Qed.

Section ResolveAgain.
Context `{Host}.


End ResolveAgain.

Lemma colored_model_in_store : model_in_store colored_model colored_store.
Proof.
  intros name t Ht. unfold colored_model in Ht. cbn [tensors] in Ht.
  repeat (apply lookup_insert_Some in Ht as [[_ <-]|[_ Ht]];
          [eexists; reflexivity|]).
  rewrite lookup_empty in Ht. discriminate Ht.
Qed.



